(** * towr: trajectory extraction and attitude normalization

    A shallow embedding of [towr/src/towr.cc], of the replay of
    [towr_ros/src/towr_ros.cc] over the solution aggregate of
    [spline_holder.h], and of the cost and constraint blocks declared under
    [include/xpp/opt].

    Scalars.  The C++ code computes with [double].  The arithmetic of
    [GetUnique], of the [while] loop of [GetTrajectory] and of the
    averaging loop of [SetTerrainHeightFromAvgFootholdHeight] is written
    over the operations of [double], and read in two ways: with real
    numbers, and with IEEE 754 binary64 numbers, to run the code on
    concrete inputs.  What is stated about sample times and about the
    averaged height is stated with those operations, so that it holds in
    both readings.  The states themselves (positions, forces, the time a
    state carries) are taken as real numbers in the rest of the
    embedding. *)

From Stdlib Require Import String DecimalString DecimalNat.
From Stdlib Require Import Reals Lra Lia List ZArith Bool Floats.
Import ListNotations.
Open Scope R_scope.

(** ** The operations of [double] *)

Record Double (N : Type) : Type := mkDouble {
  lit_0    : N;
  lit_M_PI : N;
  lit_2    : N;
  lit_1e_3 : N;
  add : N -> N -> N;
  sub : N -> N -> N;
  div : N -> N -> N;
  neg : N -> N;
  lt  : N -> N -> bool;
  le  : N -> N -> bool
}.

Arguments lit_0 {N} _.
Arguments lit_M_PI {N} _.
Arguments lit_2 {N} _.
Arguments lit_1e_3 {N} _.
Arguments add {N} _ _ _.
Arguments sub {N} _ _ _.
Arguments div {N} _ _ _.
Arguments neg {N} _ _.
Arguments lt {N} _ _ _.
Arguments le {N} _ _ _.

Definition Rltb (a b : R) : bool := if Rlt_dec a b then true else false.
Definition Rleb (a b : R) : bool := if Rle_dec a b then true else false.

(** [double] read as the reals: [M_PI] is [PI], [1e-3] is a thousandth. *)
Definition real : Double R :=
  mkDouble R 0 PI 2 (1 / 1000) Rplus Rminus Rdiv Ropp Rltb Rleb.

(** [double] read as binary64: [M_PI] is the constant of [math.h],
    [1e-3] the binary64 number nearest to a thousandth. *)
Definition binary64 : Double float :=
  mkDouble float 0%float 0x1.921fb54442d18p+1%float 2%float
           0x1.0624dd2f1a9fcp-10%float
           PrimFloat.add PrimFloat.sub PrimFloat.div PrimFloat.opp
           PrimFloat.ltb PrimFloat.leb.

(** ** Eigen's [Vector3d] *)

Record Vector3 (N : Type) : Type := mkVector3 { vx : N; vy : N; vz : N }.

Arguments mkVector3 {N} _ _ _.
Arguments vx {N} _.
Arguments vy {N} _.
Arguments vz {N} _.

Definition Vector3d : Type := Vector3 R.

Definition mkVector3d (x y z : R) : Vector3d := mkVector3 x y z.

Definition Vector3d_Zero : Vector3d := mkVector3d 0 0 0.

(** ** Attitude normalization, [TOWR::GetUnique] (towr.cc, 172-228) *)

Declare Scope double_scope.

Module Attitude.

Section OverDouble.

Context {N : Type} (D : Double N).

Local Notation "a + b" := (add D a b) : double_scope.
Local Notation "a - b" := (sub D a b) : double_scope.
Local Notation "a / b" := (div D a b) : double_scope.
Local Notation "- a" := (neg D a) : double_scope.
Local Notation "a < b" := (lt D a b) : double_scope.
Local Notation "a <= b" := (le D a b) : double_scope.
Local Notation "a && b" := (andb a b) : double_scope.
Local Notation "'M_PI'" := (lit_M_PI D) : double_scope.
Local Notation "0" := (lit_0 D) : double_scope.
Local Notation "2" := (lit_2 D) : double_scope.
Local Open Scope double_scope.

(** The statement pair
    [if (a < 0) a = a + M_PI; else a = a - M_PI;]
    applied to the first and to the third angle. *)
Definition flip_on (a : N) : N :=
  if a < 0 then a + M_PI else a - M_PI.

Definition GetUnique_on (zyx_non_unique : Vector3 N) : Vector3 N :=
  let zyx := zyx_non_unique in
  let tol := lit_1e_3 D in
  if vy zyx < - M_PI / 2 - tol then
    mkVector3 (flip_on (vx zyx)) (- (vy zyx + M_PI)) (flip_on (vz zyx))
  else if (- M_PI / 2 - tol <= vy zyx) && (vy zyx <= - M_PI / 2 + tol) then
    mkVector3 (vx zyx - vz zyx) (vy zyx) 0
  else if (- M_PI / 2 + tol < vy zyx) && (vy zyx < M_PI / 2 - tol) then
    zyx
  else if (M_PI / 2 - tol <= vy zyx) && (vy zyx <= M_PI / 2 + tol) then
    mkVector3 (vx zyx + vz zyx) (vy zyx) 0
  else
    mkVector3 (flip_on (vx zyx)) (- (vy zyx - M_PI)) (flip_on (vz zyx)).

End OverDouble.

(** The code over the reals. *)
Definition tol : R := lit_1e_3 real.

Definition flip (a : R) : R := flip_on real a.

Definition GetUnique (zyx_non_unique : Vector3d) : Vector3d :=
  GetUnique_on real zyx_non_unique.

(** The code over binary64. *)
Definition GetUnique_binary64 (zyx_non_unique : Vector3 float) : Vector3 float :=
  GetUnique_on binary64 zyx_non_unique.

(** Equality of binary64 triples, component by component, as [==]
    compares doubles. *)
Definition Vector3_eqb (a b : Vector3 float) : bool :=
  PrimFloat.eqb (vx a) (vx b) && PrimFloat.eqb (vy a) (vy b)
  && PrimFloat.eqb (vz a) (vz b).

(** The two tolerance bands around [-PI/2] and [PI/2]. *)
Definition in_lower_band (y : R) : Prop :=
  - PI / 2 - tol <= y <= - PI / 2 + tol.

Definition in_upper_band (y : R) : Prop :=
  PI / 2 - tol <= y <= PI / 2 + tol.

(** The ranges named by the comment above [GetUnique]. *)
Definition outer_range (a : R) : Prop := - PI <= a < PI.
Definition pitch_range (y : R) : Prop := - PI / 2 <= y <= PI / 2.

End Attitude.

(** The rotation a ZYX triple stands for: the matrix [Rz(x) Ry(y) Rx(z)] of
    the first (yaw), second (pitch) and third (roll) angle, row by row.
    It is the yardstick for "the same orientation"; the sources do not
    compute it. *)
Definition RotationZYX (zyx : Vector3d) : list (list R) :=
  let (x, y, z) := zyx in
  [ [ cos x * cos y;
      cos x * sin y * sin z - sin x * cos z;
      cos x * sin y * cos z + sin x * sin z ];
    [ sin x * cos y;
      sin x * sin y * sin z + cos x * cos z;
      sin x * sin y * cos z - cos x * sin z ];
    [ - sin y;
      cos y * sin z;
      cos y * cos z ] ].

(** ** Robot states ([xpp] state types used by towr.cc) *)

Record Quaterniond : Type := mkQuat { qw : R; qx : R; qy : R; qz : R }.

(** [StateLin3d]: position, velocity, acceleration. *)
Record StateLinXd : Type := mkStateLin { p_ : Vector3d; v_ : Vector3d; a_ : Vector3d }.

(** [StateAng3d]: orientation, angular velocity, angular acceleration. *)
Record StateAng3d : Type := mkStateAng { q : Quaterniond; w : Vector3d; wd : Vector3d }.

Record State3d : Type := mkState3d { lin : StateLinXd; ang : StateAng3d }.

(** [State3dEuler]: the angular part is a linear state over Euler angles. *)
Record State3dEuler : Type := mkState3dEuler { lin_e : StateLinXd; ang_e : StateLinXd }.

Definition StateLinXd_Zero : StateLinXd :=
  mkStateLin Vector3d_Zero Vector3d_Zero Vector3d_Zero.

Definition State3d_Zero : State3d :=
  mkState3d StateLinXd_Zero (mkStateAng (mkQuat 1 0 0 0) Vector3d_Zero Vector3d_Zero).

Definition EndeffectorID : Type := nat.

(** [RobotStateCartesian]: the per-leg containers are [Endeffectors<T>],
    indexed by [EndeffectorID]. *)
Record RobotStateCartesian : Type := mkRobotState {
  base_       : State3d;
  ee_motion_  : list StateLinXd;
  ee_forces_  : list Vector3d;
  ee_contact_ : list bool;
  t_global_   : R
}.

Definition RobotStateVec : Type := list RobotStateCartesian.

(** [RobotStateCartesian state(n_ee)]: [n_ee] entries per container.  The
    entries written here are placeholders, [GetTrajectory] assigns every
    one of them before the state is stored. *)
Definition RobotStateCartesian_new (n_ee : nat) : RobotStateCartesian :=
  mkRobotState State3d_Zero
               (repeat StateLinXd_Zero n_ee)
               (repeat Vector3d_Zero n_ee)
               (repeat true n_ee)
               0.

(** [state.ee_motion_.GetEEsOrdered()]: the ids [0 .. n_ee-1]. *)
Definition GetEEsOrdered (state : RobotStateCartesian) : list EndeffectorID :=
  seq 0 (length (ee_motion_ state)).

(** [c.at(ee) = a].  An index outside the container leaves it as it is
    here; [GetTrajectory] only uses ids of [GetEEsOrdered], which are inside
    (lemma [GetEEsOrdered_in_range]). *)
Fixpoint set_at {A : Type} (c : list A) (ee : nat) (a : A) : list A :=
  match c, ee with
  | [], _ => []
  | _ :: c', O => a :: c'
  | b :: c', S ee' => b :: set_at c' ee' a
  end.

(** ** The terrain object *)

(** Modelled from the spec: [HeightMap] (its declaration is not part of the
    sources): "ground height, surface normal, and friction coefficient as a
    function of horizontal position".  The flat terrain keeps one ground
    height, which [SetGroundHeight] assigns. *)
Record HeightMap : Type := mkHeightMap {
  ground_height_  : R;
  friction_coeff_ : R;
  surface_normal_ : Vector3d
}.

Definition SetGroundHeight (h : R) (m : HeightMap) : HeightMap :=
  mkHeightMap h (friction_coeff_ m) (surface_normal_ m).

(** [HeightMap::Ptr] is a shared pointer: terrain objects live in a heap and
    are named by their address, so that the caller and [TOWR] see the same
    object. *)
Definition Ptr : Type := nat.
Definition Heap : Type := Ptr -> option HeightMap.

Definition heap_put (h : Heap) (p : Ptr) (m : HeightMap) : Heap :=
  fun p' => if Nat.eqb p' p then Some m else h p'.

(** Modelled from the spec: [RobotModel] (declaration not part of the
    sources): "nominal per-leg stance position in the base frame, per-leg
    maximum deviation bounds, leg count, body mass". *)
Record RobotModel : Type := mkRobotModel {
  nominal_stance_B : list Vector3d;
  max_dev_from_nominal : Vector3d;
  mass : R
}.

(** [MotionParameters]: [SetTotalDuration] / [GetTotalTime]. *)
Record MotionParameters : Type := mkParams { total_time_ : R }.

Definition SetTotalDuration (d : R) (p : MotionParameters) : MotionParameters :=
  mkParams d.

Definition GetTotalTime (p : MotionParameters) : R := total_time_ p.

(** ** Commands over the objects behind the variable composite

    [vars] is a shared pointer to the composite of variable sets.  A method
    called through it may read and write the objects behind it, so a call
    is a command from the state of those objects ([Store]) to a result and
    a new state. *)

Definition Cmd (Store A : Type) : Type := Store -> A * Store.

Definition ret {Store A : Type} (a : A) : Cmd Store A := fun s => (a, s).

Definition bind {Store A B : Type} (m : Cmd Store A) (k : A -> Cmd Store B)
  : Cmd Store B :=
  fun s => let (a, s') := m s in k a s'.

Notation "x <- m ;; k" := (bind m (fun x => k))
  (at level 61, m at next level, right associativity).

(** A range-based [for]: the body runs once per element, in order, on the
    value built so far. *)
Fixpoint for_each {Store A B : Type} (l : list A) (body : B -> A -> Cmd Store B)
  (b : B) : Cmd Store B :=
  match l with
  | [] => ret b
  | a :: l' => b' <- body b a ;; for_each l' body b'
  end.

(** A command that never writes. *)
Definition read_only {Store A : Type} (m : Cmd Store A) : Prop :=
  forall s, snd (m s) = s.

Section Extraction.

Context {Store : Type}.

(** The classes behind [GetComponent<T>(id)].  Their declarations are not
    part of the sources; each is taken as the methods [GetTrajectory]
    calls.  [PhaseNodes] is a [Spline] with the phase predicate. *)
Record Spline : Type := mkSpline {
  GetPoint : R -> Cmd Store StateLinXd
}.

Record PhaseNodes : Type := mkPhaseNodes {
  as_Spline       : Spline;
  IsConstantPhase : R -> Cmd Store bool
}.

Record ContactSchedule : Type := mkContactSchedule {
  IsInContact : R -> Cmd Store bool
}.

(** The composite, by the ids of [variable_names.h]: [id::base_linear],
    [id::base_angular], [id::GetEEMotionId(ee)], [id::GetEEForceId(ee)] and
    [id::GetEEScheduleId(ee)].  [GetComponent<T>(id)] is the projection that
    returns the component registered under [id]. *)
Record VariablesComp : Type := mkVariablesComp {
  comp_base_linear  : Spline;
  comp_base_angular : Spline;
  comp_ee_motion    : EndeffectorID -> PhaseNodes;
  comp_ee_force     : EndeffectorID -> Spline;
  comp_ee_schedule  : EndeffectorID -> ContactSchedule
}.

(** [opt::Problem], as far as [TOWR] reads it. *)
Record Problem : Type := mkProblem {
  GetIterationCount    : Z;
  GetOptVariables_iter : Z -> VariablesComp;
  GetOptVariables      : VariablesComp
}.

Record TOWR : Type := mkTOWR {
  inital_base_  : State3dEuler;
  final_base_   : State3dEuler;
  initial_ee_W_ : list Vector3d;
  params_       : MotionParameters;
  model_        : RobotModel;
  terrain_      : option Ptr;
  nlp_          : Problem
}.

(** [initial_ee_W_.GetEECount()] *)
Definition GetEECount (ee : list Vector3d) : nat := length ee.

(** [AngularStateConverter::GetState], a static conversion from the Euler
    state of the angular spline; not part of the sources. *)
Variable AngularStateConverter_GetState : StateLinXd -> StateAng3d.

(** *** [TOWR::GetTrajectory (vars, dt)] (towr.cc, 102-131) *)

(** The body of [for (auto ee : state.ee_motion_.GetEEsOrdered())]. *)
Definition GetTrajectory_ee (vars : VariablesComp) (t : R)
  (state : RobotStateCartesian) (ee : EndeffectorID)
  : Cmd Store RobotStateCartesian :=
  let ee_motion := comp_ee_motion vars ee in
  contact <- IsConstantPhase ee_motion t ;;
  motion  <- GetPoint (as_Spline ee_motion) t ;;
  force   <- GetPoint (comp_ee_force vars ee) t ;;
  ret (mkRobotState (base_ state)
                    (set_at (ee_motion_ state) ee motion)
                    (set_at (ee_forces_ state) ee (p_ force))
                    (set_at (ee_contact_ state) ee contact)
                    (t_global_ state)).

(** The body of the [while] loop: the state pushed for the time [t]. *)
Definition GetTrajectory_state (this : TOWR) (vars : VariablesComp) (t : R)
  : Cmd Store RobotStateCartesian :=
  let state := RobotStateCartesian_new (GetEECount (initial_ee_W_ this)) in
  base_lin <- GetPoint (comp_base_linear vars) t ;;
  base_ang <- GetPoint (comp_base_angular vars) t ;;
  let state := mkRobotState
                 (mkState3d base_lin (AngularStateConverter_GetState base_ang))
                 (ee_motion_ state) (ee_forces_ state) (ee_contact_ state)
                 (t_global_ state) in
  state <- for_each (GetEEsOrdered state) (GetTrajectory_ee vars t) state ;;
  ret (mkRobotState (base_ state) (ee_motion_ state) (ee_forces_ state)
                    (ee_contact_ state) t).

(** [while (t <= T + 1e-5) { ...; trajectory.push_back(state); t += dt; }].
    The loop need not end ([dt <= 0]); [fuel] bounds the number of tests of
    the loop condition, and [None] is the answer when it runs out. *)
Fixpoint GetTrajectory_while (this : TOWR) (vars : VariablesComp) (dt T : R)
  (fuel : nat) (t : R) (trajectory : RobotStateVec)
  : Cmd Store (option RobotStateVec) :=
  match fuel with
  | O => ret None
  | S fuel' =>
      if Rle_dec t (T + 1 / 100000) then
        state <- GetTrajectory_state this vars t ;;
        GetTrajectory_while this vars dt T fuel' (t + dt) (trajectory ++ [state])
      else ret (Some trajectory)
  end.

Definition GetTrajectory (fuel : nat) (this : TOWR) (vars : VariablesComp)
  (dt : R) : Cmd Store (option RobotStateVec) :=
  let t := 0 in
  let T := GetTotalTime (params_ this) in
  GetTrajectory_while this vars dt T fuel t [].

(** [TOWR::GetTrajectory (dt)] (towr.cc, 96-100) *)
Definition GetTrajectory_current (fuel : nat) (this : TOWR) (dt : R)
  : Cmd Store (option RobotStateVec) :=
  GetTrajectory fuel this (GetOptVariables (nlp_ this)) dt.

(** *** [TOWR::GetIntermediateSolutions] (towr.cc, 83-94) *)

(** [for (int iter=0; iter<nlp_.GetIterationCount(); ++iter)]: the values
    [iter] takes. *)
Definition iterations (count : Z) : list Z :=
  map Z.of_nat (seq 0 (Z.to_nat count)).

(** The loop body: one [push_back], unless the extraction did not end. *)
Definition GetIntermediateSolutions_iter (fuel : nat) (this : TOWR) (dt : R)
  (trajectories : option (list RobotStateVec)) (iter : Z)
  : Cmd Store (option (list RobotStateVec)) :=
  match trajectories with
  | None => ret None
  | Some trajs =>
      let opt_var := GetOptVariables_iter (nlp_ this) iter in
      r <- GetTrajectory fuel this opt_var dt ;;
      ret (match r with
           | Some trajectory => Some (trajs ++ [trajectory])
           | None => None
           end)
  end.

Definition GetIntermediateSolutions (fuel : nat) (this : TOWR) (dt : R)
  : Cmd Store (option (list RobotStateVec)) :=
  for_each (iterations (GetIterationCount (nlp_ this)))
           (GetIntermediateSolutions_iter fuel this dt)
           (Some []).

(** The trajectory extracted from the variables of iteration [iter] (empty
    when the extraction runs out of fuel). *)
Definition extracted (fuel : nat) (this : TOWR) (dt : R) (s : Store)
  (iter : Z) : RobotStateVec :=
  match fst (GetTrajectory fuel this (GetOptVariables_iter (nlp_ this) iter)
                           dt s) with
  | Some trajectory => trajectory
  | None => []
  end.

(** *** [TOWR::SetInitialState] (towr.cc, 23-30) *)

(** [GetEulerZYXAngles], the Euler angles of a quaternion; not part of the
    sources. *)
Variable GetEulerZYXAngles : Quaterniond -> Vector3d.

Definition SetInitialState (this : TOWR) (curr_state : RobotStateCartesian)
  : TOWR :=
  let inital_base :=
    mkState3dEuler
      (lin (base_ curr_state))
      (mkStateLin
         (Attitude.GetUnique (GetEulerZYXAngles (q (ang (base_ curr_state)))))
         Vector3d_Zero Vector3d_Zero) in
  mkTOWR inital_base (final_base_ this) (map p_ (ee_motion_ curr_state))
         (params_ this) (model_ this) (terrain_ this) (nlp_ this).

(** *** [TOWR::SetParameters] (towr.cc, 32-49) and
        [TOWR::SetTerrainHeightFromAvgFootholdHeight] (towr.cc, 133-140) *)

(** [for (auto pos : initial_ee_W_.ToImpl())
       avg_height += pos.z()/initial_ee_W_.GetEECount();] *)
Definition avg_foothold_height (ee_W : list Vector3d) : R :=
  fold_left (fun avg_height pos => avg_height + vz pos / INR (GetEECount ee_W))
            ee_W 0.

(** [terrain->SetGroundHeight(avg_height)]: a write through the pointer.
    A pointer to no object is an error ([None]). *)
Definition SetTerrainHeightFromAvgFootholdHeight (this : TOWR) (terrain : Ptr)
  (h : Heap) : option Heap :=
  let avg_height := avg_foothold_height (initial_ee_W_ this) in
  match h terrain with
  | Some m => Some (heap_put h terrain (SetGroundHeight avg_height m))
  | None => None
  end.

Definition SetParameters (this : TOWR) (final_base : State3dEuler)
  (total_time : R) (model : RobotModel) (terrain : Ptr) (h : Heap)
  : option (TOWR * Heap) :=
  let this := mkTOWR (inital_base_ this) final_base (initial_ee_W_ this)
                     (SetTotalDuration total_time (params_ this))
                     model (Some terrain) (nlp_ this) in
  match SetTerrainHeightFromAvgFootholdHeight this terrain h with
  | Some h' => Some (this, h')
  | None => None
  end.

(** Every query [GetTrajectory] makes through [vars] leaves the objects as
    they are (the queries are [const] methods). *)
Definition const_queries (vars : VariablesComp) : Prop :=
  (forall t, read_only (GetPoint (comp_base_linear vars) t)) /\
  (forall t, read_only (GetPoint (comp_base_angular vars) t)) /\
  (forall ee t, read_only (IsConstantPhase (comp_ee_motion vars ee) t)) /\
  (forall ee t, read_only (GetPoint (as_Spline (comp_ee_motion vars ee)) t)) /\
  (forall ee t, read_only (GetPoint (comp_ee_force vars ee) t)).

(** [vars] with other contact schedules registered under
    [id::GetEEScheduleId(ee)]. *)
Definition with_schedule (vars : VariablesComp)
  (schedule : EndeffectorID -> ContactSchedule) : VariablesComp :=
  mkVariablesComp (comp_base_linear vars) (comp_base_angular vars)
                  (comp_ee_motion vars) (comp_ee_force vars) schedule.

(** The sample times of the [while] loop alone: what [t] is at each
    [push_back]. *)
Fixpoint sample_times (dt T : R) (fuel : nat) (t : R) : option (list R) :=
  match fuel with
  | O => None
  | S fuel' =>
      if Rle_dec t (T + 1 / 100000) then
        match sample_times dt T fuel' (t + dt) with
        | Some ts => Some (t :: ts)
        | None => None
        end
      else Some []
  end.

(** How many multiples [0, dt, 2 dt, ...] are at most [T + 1e-5] (for
    [0 < dt]): the integer just above [(T + 1e-5) / dt]. *)
Definition sample_count (dt T : R) : nat :=
  Z.to_nat (up ((T + 1 / 100000) / dt)).

End Extraction.

(** ** The two loops of [towr.cc] over the operations of [double] *)

(** The [while] loop of [GetTrajectory] and the averaging loop of
    [SetTerrainHeightFromAvgFootholdHeight] compute with [double]: the sum
    [t += dt], the test [t <= T + 1e-5], the quotient [pos.z()/n].  They
    are written here once more over the operations of [double], so that
    they can be read with real numbers and run with binary64 numbers.
    [lit_1e_5] is the literal [1e-5], [of_size] the conversion of a size
    to [double]. *)
Section LoopsOverDouble.

Context {N : Type} (D : Double N).
Variable lit_1e_5 : N.
Variable of_size : nat -> N.


Context {Store A : Type}.

(** The statements of the loop body up to [push_back]: the state built for
    the time [t]. *)
Variable state_at : N -> Cmd Store A.

(** [while (t <= T + 1e-5) { ...; trajectory.push_back(state); t += dt; }] *)
Fixpoint GetTrajectory_while_on (dt T : N) (fuel : nat) (t : N)
  (trajectory : list A) : Cmd Store (option (list A)) :=
  match fuel with
  | O => ret None
  | S fuel' =>
      if le D t (add D T lit_1e_5) then
        state <- state_at t ;;
        GetTrajectory_while_on dt T fuel' (add D t dt) (trajectory ++ [state])
      else ret (Some trajectory)
  end.

(** In the words of the specification: [ts] is a walk of [t] from its
    start, stepping by [dt], through every time that passes the test
    [t <= T + 1e-5] up to the first one that fails it. *)
Fixpoint walks_on (dt T t : N) (ts : list N) : Prop :=
  match ts with
  | [] => le D t (add D T lit_1e_5) = false
  | t' :: ts' =>
      t' = t /\ le D t (add D T lit_1e_5) = true /\
      walks_on dt T (add D t dt) ts'
  end.

End LoopsOverDouble.

(** The literal [1e-5] and the conversion of a size, over the reals and in
    binary64 (the binary64 number nearest to a hundred-thousandth). *)
Definition real_1e_5 : R := 1 / 100000.

Definition binary64_1e_5 : float := 0x1.4f8b588e368f1p-17%float.


(** ** The solution aggregate ([spline_holder.h]) *)

Module SplineHolder.

Section Holder.

Context {Store : Type}.

(** [NodeSpline] and [PhaseDurations]: their declarations are not part of
    the sources; each is taken as the methods [towr_ros.cc] calls. *)
Record NodeSpline : Type := mkNodeSpline {
  GetPoint     : R -> Cmd Store StateLinXd;
  GetTotalTime : Cmd Store R
}.

Record PhaseDurations : Type := mkPhaseDurations {
  IsContactPhase : R -> Cmd Store bool
}.

(** [struct SplineHolder]: pointers to the splines of the base and, per
    endeffector, of its motion, its force and its phase durations. *)
Record t : Type := mkSplineHolder {
  base_linear_     : NodeSpline;
  base_angular_    : NodeSpline;
  ee_motion_       : list NodeSpline;
  ee_force_        : list NodeSpline;
  phase_durations_ : list PhaseDurations
}.

End Holder.

End SplineHolder.

(** ** Replay of a solution ([towr_ros.cc]) *)

(** How a call ends: it returns, it throws ([std::out_of_range] of
    [at]), or the model runs out of fuel. *)
Inductive Outcome (A : Type) : Type :=
| Returned (a : A)
| Thrown
| OutOfFuel.

Arguments Returned {A} a.
Arguments Thrown {A}.
Arguments OutOfFuel {A}.

(** [c.at(i) = a], with the range check of [at]. *)
Definition at_put {A : Type} (c : list A) (i : nat) (a : A) : option (list A) :=
  if Nat.ltb i (length c) then Some (set_at c i a) else None.

(** Sequencing of statements that may throw: [None] is a thrown
    exception, which skips what follows. *)
Definition bind_throw {Store A B : Type} (m : Cmd Store (option A))
  (k : A -> Cmd Store (option B)) : Cmd Store (option B) :=
  r <- m ;;
  match r with
  | Some a => k a
  | None => ret None
  end.

Definition lift {Store A : Type} (m : Cmd Store A) : Cmd Store (option A) :=
  a <- m ;; ret (Some a).

Notation "x <-! m ;; k" := (bind_throw m (fun x => k))
  (at level 61, m at next level, right associativity).

(** The terrain as [towr_ros.cc] queries it:
    [GetNormalizedBasis(HeightMap::Normal, x, y)] and [GetFrictionCoeff()]. *)
Record Terrain : Type := mkTerrain {
  GetNormalizedBasis_Normal : R -> R -> Vector3d;
  GetFrictionCoeff          : R
}.

(** The messages written by [towr_ros.cc].  [xpp::Convert::ToRos] copies
    its argument into the message; a message is taken as the data it
    carries. *)
Record RobotParameters : Type := mkRobotParameters {
  ee_max_dev     : Vector3d;
  nominal_ee_pos : list Vector3d;
  ee_names       : list string;
  base_mass      : R
}.

Record TerrainInfo : Type := mkTerrainInfo {
  surface_normals : list Vector3d;
  friction_coeff  : R
}.

Inductive Message (TowrCommandMsg : Type) : Type :=
| Msg_RobotParameters (m : RobotParameters)
| Msg_TowrCommand (m : TowrCommandMsg)
| Msg_RobotStateCartesian (m : RobotStateCartesian)
| Msg_TerrainInfo (m : TerrainInfo)
| Msg_Int32 (data : Z).

Arguments Msg_RobotParameters {TowrCommandMsg} m.
Arguments Msg_TowrCommand {TowrCommandMsg} m.
Arguments Msg_RobotStateCartesian {TowrCommandMsg} m.
Arguments Msg_TerrainInfo {TowrCommandMsg} m.
Arguments Msg_Int32 {TowrCommandMsg} data.

(** One [bag.write(topic, time, message)]. *)
Record BagEntry (TowrCommandMsg : Type) : Type := mkBagEntry {
  entry_topic   : string;
  entry_time    : R;
  entry_message : Message TowrCommandMsg
}.

Arguments mkBagEntry {TowrCommandMsg} _ _ _.
Arguments entry_topic {TowrCommandMsg} _.
Arguments entry_time {TowrCommandMsg} _.
Arguments entry_message {TowrCommandMsg} _.

(** [std::to_string] of an [int] that is not negative: its decimal
    digits. *)
Definition to_string (i : nat) : string :=
  NilEmpty.string_of_uint (Nat.to_uint i).

(** Sequencing of steps that may fail. *)
Definition option_bind {A B : Type} (m : option A) (k : A -> option B)
  : option B :=
  match m with
  | Some a => k a
  | None => None
  end.

(** A loop whose body may fail: it stops at the first failure. *)
Fixpoint option_fold {A B : Type} (body : B -> A -> option B) (l : list A)
  (b : B) : option B :=
  match l with
  | [] => Some b
  | a :: l' => option_bind (body b a) (option_fold body l')
  end.

Module TowrRos.

Section Ros.

Context {Store : Type}.

(** Not part of the sources: the conversions [ToXpp] and
    [ToXppEndeffector], and the three queries of [EulerConverter]. *)
Variable ToXpp : StateLinXd -> StateLinXd.
Variable ToXppEndeffector : nat -> nat -> nat * string.
Variable GetQuaternionBaseToWorld :
  @SplineHolder.NodeSpline Store -> R -> Cmd Store Quaterniond.
Variable GetAngularVelocityInWorld :
  @SplineHolder.NodeSpline Store -> R -> Cmd Store Vector3d.
Variable GetAngularAccelerationInWorld :
  @SplineHolder.NodeSpline Store -> R -> Cmd Store Vector3d.

(** The member [towr_], as far as [towr_ros.cc] uses it.  [SetSolution]
    writes the variables of an iteration into the objects behind the
    splines; [GetSolution] hands out the splines. *)
Record TOWR : Type := mkTOWR {
  GetIterationCount : Z;
  SetSolution       : Z -> Cmd Store unit;
  GetSolution       : @SplineHolder.t Store
}.

Record t : Type := mkTowrRos {
  towr_             : TOWR;
  visualization_dt_ : R;
  initial_base_     : State3dEuler;
  initial_ee_pos_   : list Vector3d;
  terrain_          : option Terrain
}.

(** The constructor: [visualization_dt_ = 0.02;], the other members as
    their default constructors leave them (no foot, no terrain). *)
Definition TowrRos_new (towr : TOWR) : t :=
  mkTowrRos towr (2 / 100)
            (mkState3dEuler StateLinXd_Zero StateLinXd_Zero) [] None.

(** The body of [for (int ee_towr=0; ee_towr<n_ee; ++ee_towr)]. *)
Definition GetTrajectory_ee (solution : @SplineHolder.t Store) (n_ee : nat)
  (t : R) (state : RobotStateCartesian) (ee_towr : nat)
  : Cmd Store (option RobotStateCartesian) :=
  let ee_xpp := fst (ToXppEndeffector n_ee ee_towr) in
  durations <-! ret (nth_error (SplineHolder.phase_durations_ solution) ee_towr) ;;
  contact   <-! lift (SplineHolder.IsContactPhase durations t) ;;
  contacts  <-! ret (at_put (ee_contact_ state) ee_xpp contact) ;;
  motion    <-! ret (nth_error (SplineHolder.ee_motion_ solution) ee_towr) ;;
  point     <-! lift (SplineHolder.GetPoint motion t) ;;
  motions   <-! ret (at_put (ee_motion_ state) ee_xpp (ToXpp point)) ;;
  force     <-! ret (nth_error (SplineHolder.ee_force_ solution) ee_towr) ;;
  load      <-! lift (SplineHolder.GetPoint force t) ;;
  forces    <-! ret (at_put (ee_forces_ state) ee_xpp (p_ load)) ;;
  ret (Some (mkRobotState (base_ state) motions forces contacts
                          (t_global_ state))).

(** The loop over the endeffectors, left as soon as a statement throws. *)
Fixpoint GetTrajectory_ees (solution : @SplineHolder.t Store) (n_ee : nat)
  (t : R) (ees : list nat) (state : RobotStateCartesian)
  : Cmd Store (option RobotStateCartesian) :=
  match ees with
  | [] => ret (Some state)
  | ee_towr :: ees' =>
      state' <-! GetTrajectory_ee solution n_ee t state ee_towr ;;
      GetTrajectory_ees solution n_ee t ees' state'
  end.

(** The body of the [while] loop. *)
Definition GetTrajectory_state (solution : @SplineHolder.t Store) (t : R)
  : Cmd Store (option RobotStateCartesian) :=
  let n_ee := length (SplineHolder.ee_motion_ solution) in
  let state := RobotStateCartesian_new n_ee in
  base_lin <- SplineHolder.GetPoint (SplineHolder.base_linear_ solution) t ;;
  q'  <- GetQuaternionBaseToWorld (SplineHolder.base_angular_ solution) t ;;
  w'  <- GetAngularVelocityInWorld (SplineHolder.base_angular_ solution) t ;;
  wd' <- GetAngularAccelerationInWorld (SplineHolder.base_angular_ solution) t ;;
  let state := mkRobotState (mkState3d (ToXpp base_lin) (mkStateAng q' w' wd'))
                            (ee_motion_ state) (ee_forces_ state)
                            (ee_contact_ state) (t_global_ state) in
  state <-! GetTrajectory_ees solution n_ee t (seq 0 n_ee) state ;;
  ret (Some (mkRobotState (base_ state) (ee_motion_ state) (ee_forces_ state)
                          (ee_contact_ state) t)).

(** [while (t<=T+1e-5) { ...; trajectory.push_back(state);
    t += visualization_dt_; }] *)
Fixpoint GetTrajectory_while (solution : @SplineHolder.t Store) (dt T : R)
  (fuel : nat) (t : R) (trajectory : RobotStateVec)
  : Cmd Store (Outcome RobotStateVec) :=
  match fuel with
  | O => ret OutOfFuel
  | S fuel' =>
      if Rle_dec t (T + 1 / 100000) then
        r <- GetTrajectory_state solution t ;;
        match r with
        | Some state =>
            GetTrajectory_while solution dt T fuel' (t + dt)
                                (trajectory ++ [state])
        | None => ret Thrown
        end
      else ret (Returned trajectory)
  end.

(** [TowrRos::GetTrajectory] (towr_ros.cc, 175-210) *)
Definition GetTrajectory (fuel : nat) (this : t)
  : Cmd Store (Outcome RobotStateVec) :=
  let solution := GetSolution (towr_ this) in
  let t := 0 in
  T <- SplineHolder.GetTotalTime (SplineHolder.base_linear_ solution) ;;
  GetTrajectory_while solution (visualization_dt_ this) T fuel t [].

(** [TowrRos::GetIntermediateSolutions] (towr_ros.cc, 162-173): the loop
    body, for the trajectories pushed so far. *)
Definition GetIntermediateSolutions_iter (fuel : nat) (this : t)
  (trajectories : Outcome (list RobotStateVec)) (iter : Z)
  : Cmd Store (Outcome (list RobotStateVec)) :=
  match trajectories with
  | Returned trajs =>
      _ <- SetSolution (towr_ this) iter ;;
      r <- GetTrajectory fuel this ;;
      ret (match r with
           | Returned trajectory => Returned (trajs ++ [trajectory])
           | Thrown => Thrown
           | OutOfFuel => OutOfFuel
           end)
  | Thrown => ret Thrown
  | OutOfFuel => ret OutOfFuel
  end.

Definition GetIntermediateSolutions (fuel : nat) (this : t)
  : Cmd Store (Outcome (list RobotStateVec)) :=
  for_each (iterations (GetIterationCount (towr_ this)))
           (GetIntermediateSolutions_iter fuel this)
           (Returned []).

(** The vectors of the solution have one entry per endeffector, and the
    endeffector map stays within the endeffectors: no [at] throws. *)
Definition well_formed (solution : @SplineHolder.t Store) : Prop :=
  let n_ee := length (SplineHolder.ee_motion_ solution) in
  length (SplineHolder.ee_force_ solution) = n_ee /\
  length (SplineHolder.phase_durations_ solution) = n_ee /\
  forall ee_towr, (ee_towr < n_ee)%nat ->
                  (fst (ToXppEndeffector n_ee ee_towr) < n_ee)%nat.

(** What [GetIntermediateSolutions] does, iteration by iteration: the
    variables of the iteration are written, then the trajectory is
    extracted from them. *)
Inductive Replay (fuel : nat) (this : t)
  : list Z -> Store -> list RobotStateVec -> Store -> Prop :=
| Replay_done (s : Store) : Replay fuel this [] s [] s
| Replay_iter (iter : Z) (iters : list Z) (s s1 s2 s3 : Store)
    (trajectory : RobotStateVec) (trajs : list RobotStateVec) :
    snd (SetSolution (towr_ this) iter s) = s1 ->
    GetTrajectory fuel this s1 = (Returned trajectory, s2) ->
    Replay fuel this iters s2 trajs s3 ->
    Replay fuel this (iter :: iters) s (trajectory :: trajs) s3.

(** *** [TowrRos::SetInitialFromNominal] (towr_ros.cc, 71-80) *)

(** The feet are the nominal stance with the height replaced by
    [z_ground]; the height of the base is set from the first nominal
    position.  [front()] of an empty stance is an error ([None]). *)
Definition SetInitialFromNominal (this : t) (nomial_stance_B : list Vector3d)
  : option t :=
  let z_ground := 0 in
  let initial_ee_pos :=
    map (fun p => mkVector3d (vx p) (vy p) z_ground) nomial_stance_B in
  match nomial_stance_B with
  | [] => None
  | front :: _ =>
      let base := initial_base_ this in
      let pos := p_ (lin_e base) in
      let pos' := mkVector3d (vx pos) (vy pos) (- vz front + z_ground) in
      Some (mkTowrRos (towr_ this) (visualization_dt_ this)
                      (mkState3dEuler
                         (mkStateLin pos' (v_ (lin_e base)) (a_ (lin_e base)))
                         (ang_e base))
                      initial_ee_pos (terrain_ this))
  end.

(** *** [TowrRos::PublishInitial] (towr_ros.cc, 82-98) *)

(** The static [EulerConverter::GetQuaternionBaseToWorld] of a triple of
    Euler angles; not part of the sources. *)
Variable GetQuaternionBaseToWorld_of_angles : Vector3d -> Quaterniond.

(** The body of the loop over [ee_towr]; [None] when an [at] throws. *)
Definition PublishInitial_ee (this : t) (n_ee : nat)
  (xpp : RobotStateCartesian) (ee_towr : nat) : option RobotStateCartesian :=
  let ee_xpp := fst (ToXppEndeffector n_ee ee_towr) in
  option_bind (at_put (ee_contact_ xpp) ee_xpp true) (fun contacts =>
  option_bind (nth_error (ee_motion_ xpp) ee_xpp) (fun motion =>
  option_bind (nth_error (initial_ee_pos_ this) ee_towr) (fun pos =>
  let motions :=
    set_at (ee_motion_ xpp) ee_xpp (mkStateLin pos (v_ motion) (a_ motion)) in
  option_bind (at_put (ee_forces_ xpp) ee_xpp Vector3d_Zero) (fun forces =>
  Some (mkRobotState (base_ xpp) motions forces contacts (t_global_ xpp)))))).

(** The state handed to [initial_state_pub_.publish]. *)
Definition PublishInitial (this : t) : option RobotStateCartesian :=
  let n_ee := length (initial_ee_pos_ this) in
  let xpp := RobotStateCartesian_new n_ee in
  let lin' := mkStateLin (p_ (lin_e (initial_base_ this)))
                         (v_ (lin (base_ xpp))) (a_ (lin (base_ xpp))) in
  let ang' := mkStateAng (GetQuaternionBaseToWorld_of_angles
                            (p_ (ang_e (initial_base_ this))))
                         (w (ang (base_ xpp))) (wd (ang (base_ xpp))) in
  let xpp := mkRobotState (mkState3d lin' ang') (ee_motion_ xpp)
                          (ee_forces_ xpp) (ee_contact_ xpp) (t_global_ xpp) in
  option_fold (PublishInitial_ee this n_ee) (seq 0 n_ee) xpp.

(** *** [TowrRos::BuildRobotParametersMsg] (towr_ros.cc, 212-230) *)

(** The body of the loop: the two [push_back]; [None] when
    [nominal_B.at(ee_towr)] throws. *)
Definition BuildRobotParametersMsg_ee (nominal_B : list Vector3d) (n_ee : nat)
  (params_msg : RobotParameters) (ee_towr : nat) : option RobotParameters :=
  option_bind (nth_error nominal_B ee_towr) (fun pos =>
  Some (mkRobotParameters
          (ee_max_dev params_msg)
          (nominal_ee_pos params_msg ++ [pos])
          (ee_names params_msg ++ [snd (ToXppEndeffector n_ee ee_towr)])
          (base_mass params_msg))).

Definition BuildRobotParametersMsg (model : RobotModel)
  : option RobotParameters :=
  let params_msg :=
    mkRobotParameters (max_dev_from_nominal model) [] [] 0 in
  let nominal_B := nominal_stance_B model in
  let n_ee := length nominal_B in
  option_bind
    (option_fold (BuildRobotParametersMsg_ee nominal_B n_ee) (seq 0 n_ee)
                 params_msg)
    (fun params_msg =>
       Some (mkRobotParameters (ee_max_dev params_msg)
                               (nominal_ee_pos params_msg)
                               (ee_names params_msg) (mass model))).

(** *** [TowrRos::SaveTrajectoryInRosbag] (towr_ros.cc, 266-287) *)

(** The message type of the user command and the topic names are not part
    of the sources. *)
Variable TowrCommandMsg : Type.
Variable robot_parameters_topic : string.
Variable user_command_topic : string.
Variable nlp_iterations_name : string.
Variable nlp_iterations_count : string.
Variable robot_state_desired : string.
Variable terrain_info : string.

(** The friction coefficient of a freshly constructed [TerrainInfo]. *)
Variable default_friction_coeff : R.

(** The loop over the feet of one state: one normal per foot, and the
    friction coefficient assigned at every pass.  The terrain is reached
    through the pointer [terrain_]; with no terrain a pass fails
    ([None]). *)
Definition terrain_msg_ee (terrain : option Terrain) (terrain_msg : TerrainInfo)
  (ee : StateLinXd) : option TerrainInfo :=
  option_bind terrain (fun terrain =>
  let n := GetNormalizedBasis_Normal terrain (vx (p_ ee)) (vy (p_ ee)) in
  Some (mkTerrainInfo (surface_normals terrain_msg ++ [n])
                      (GetFrictionCoeff terrain))).

(** The body of the loop over the states: two writes at one time. *)
Definition SaveTrajectoryInRosbag_state (this : t) (topic : string)
  (bag : list (BagEntry TowrCommandMsg)) (state : RobotStateCartesian)
  : option (list (BagEntry TowrCommandMsg)) :=
  let timestamp := t_global_ state + 1 / 1000000 in
  let bag := bag ++ [mkBagEntry topic timestamp (Msg_RobotStateCartesian state)] in
  option_bind
    (option_fold (terrain_msg_ee (terrain_ this)) (ee_motion_ state)
                 (mkTerrainInfo [] default_friction_coeff))
    (fun terrain_msg =>
       Some (bag ++ [mkBagEntry terrain_info timestamp
                                (Msg_TerrainInfo terrain_msg)])).

Definition SaveTrajectoryInRosbag (this : t)
  (bag : list (BagEntry TowrCommandMsg)) (traj : RobotStateVec)
  (topic : string) : option (list (BagEntry TowrCommandMsg)) :=
  option_fold (SaveTrajectoryInRosbag_state this topic) traj bag.

(** *** [TowrRos::SaveOptimizationAsRosbag] (towr_ros.cc, 232-264) *)

(** [for (int i=0; i<n_iterations; ++i)
       SaveTrajectoryInRosbag(bag, trajectories.at(i),
                              nlp_iterations_name + std::to_string(i));] *)
Definition save_iterations (this : t) (trajectories : list RobotStateVec)
  (bag : list (BagEntry TowrCommandMsg))
  : option (list (BagEntry TowrCommandMsg)) :=
  option_fold
    (fun bag i =>
       option_bind (nth_error trajectories i) (fun trajectory =>
       SaveTrajectoryInRosbag this bag trajectory
         (nlp_iterations_name ++ to_string i)%string))
    (seq 0 (length trajectories)) bag.

(** The content of the bag when the call returns; [None] when it does
    not (an extraction throws or does not end, or a pass fails).  The bag
    is opened for writing, so it starts empty. *)
Definition SaveOptimizationAsRosbag (fuel : nat) (this : t)
  (robot_params : RobotParameters) (user_command_msg : TowrCommandMsg)
  (include_iterations : bool)
  : Cmd Store (option (list (BagEntry TowrCommandMsg))) :=
  let t0 := 1 / 1000000 in
  let bag :=
    [mkBagEntry robot_parameters_topic t0 (Msg_RobotParameters robot_params);
     mkBagEntry (user_command_topic ++ "_saved")%string t0
                (Msg_TowrCommand user_command_msg)] in
  bag <-! (if include_iterations then
             r <- GetIntermediateSolutions fuel this ;;
             match r with
             | Returned trajectories =>
                 let n_iterations := length trajectories in
                 ret (option_bind (save_iterations this trajectories bag)
                        (fun bag =>
                           Some (bag ++ [mkBagEntry nlp_iterations_count t0
                                           (Msg_Int32 (Z.of_nat n_iterations))])))
             | Thrown => ret None
             | OutOfFuel => ret None
             end
           else ret (Some bag)) ;;
  r <- GetTrajectory fuel this ;;
  match r with
  | Returned final_trajectory =>
      ret (SaveTrajectoryInRosbag this bag final_trajectory robot_state_desired)
  | Thrown => ret None
  | OutOfFuel => ret None
  end.

(** Every query the replay makes leaves the objects behind the splines
    as they are. *)
Definition const_queries (solution : @SplineHolder.t Store) : Prop :=
  read_only (SplineHolder.GetTotalTime (SplineHolder.base_linear_ solution)) /\
  (forall t, read_only (SplineHolder.GetPoint
                          (SplineHolder.base_linear_ solution) t)) /\
  (forall t, read_only (GetQuaternionBaseToWorld
                          (SplineHolder.base_angular_ solution) t)) /\
  (forall t, read_only (GetAngularVelocityInWorld
                          (SplineHolder.base_angular_ solution) t)) /\
  (forall t, read_only (GetAngularAccelerationInWorld
                          (SplineHolder.base_angular_ solution) t)) /\
  (forall spline t, In spline (SplineHolder.ee_motion_ solution) ->
                    read_only (SplineHolder.GetPoint spline t)) /\
  (forall spline t, In spline (SplineHolder.ee_force_ solution) ->
                    read_only (SplineHolder.GetPoint spline t)) /\
  (forall durations t, In durations (SplineHolder.phase_durations_ solution) ->
                       read_only (SplineHolder.IsContactPhase durations t)).

End Ros.

(** The containers of a state have one entry per endeffector. *)
Definition sized (n_ee : nat) (state : RobotStateCartesian) : Prop :=
  length (ee_motion_ state) = n_ee /\
  length (ee_forces_ state) = n_ee /\
  length (ee_contact_ state) = n_ee.

End TowrRos.

(** ** Dense vectors and matrices ([Eigen::VectorXd], [Eigen::MatrixXd]) *)

Definition VectorXd : Type := list R.
Definition MatrixXd : Type := list VectorXd.



Fixpoint vec_add (a b : VectorXd) : VectorXd :=
  match a, b with
  | x :: a', y :: b' => (x + y) :: vec_add a' b'
  | _, _ => []
  end.


Definition vec_sum (a : VectorXd) : R := fold_right Rplus 0 a.

(** ** The quadratic cost ([polynomial_cost.h]) *)

Module QuadraticPolynomialCost.

(** [MatVec]: "a matrix and a vector used to calculate a scalar cost". *)
Record MatVec : Type := mkMatVec { M : MatrixXd; v : VectorXd }.

(** Modelled from the spec: [BaseMotion] (declaration not part of the
    sources), the bound spline: its name as a variable set and "the current
    coefficient representation of the bound spline". *)
Record BaseMotion : Type := mkBaseMotion {
  GetId : string;
  GetCoefficients : VectorXd
}.

(** The members declared by the class. *)
Record t : Type := mkCost {
  weight_        : R;
  com_motion_    : BaseMotion;
  matrix_vector_ : MatVec
}.








End QuadraticPolynomialCost.

(** ** The convexity constraint ([convexity_constraint.h]) *)

Module ConvexityConstraint.

(** [Bound]: a lower and an upper limit of one constraint row. *)
Record Bound : Type := mkBound { lower_ : R; upper_ : R }.

(** Modelled from the spec: [EndeffectorLoad] (declaration not part of the
    sources): at each sampled time, every leg's "instantaneous normalized
    contact-load fraction" (the lambda variables of the header).
    [GetLoadValuesIdx k] lists them, one per leg, for the sample [k]. *)
Record EndeffectorLoad : Type := mkLoad {
  GetNumberOfSegments : nat;
  GetLoadValuesIdx    : nat -> VectorXd
}.

(** The member declared by the class, and the rows and bounds of the
    [Constraint] it derives from. *)
Record t : Type := mkConstraint {
  ee_load_ : EndeffectorLoad;
  g_       : VectorXd;
  bounds_  : list Bound
}.

(** Modelled from the spec: [UpdateConstraintValues] (declared in the
    header, body not part of the sources): "At each sampled time, the row
    value is the sum over all legs of that leg's instantaneous normalized
    contact-load fraction"; the header: "g[t_k] = lambda_LF + lambda_RF +
    lambda_LH + lambda_RF". *)
Definition UpdateConstraintValues (c : t) : t :=
  let rows :=
    map (fun k => vec_sum (GetLoadValuesIdx (ee_load_ c) k))
        (seq 0 (GetNumberOfSegments (ee_load_ c))) in
  mkConstraint (ee_load_ c) rows (bounds_ c).

(** Modelled from the spec: [UpdateBounds] (declared in the header, body
    not part of the sources): "bound is an equality at 1". *)
Definition UpdateBounds (c : t) : t :=
  mkConstraint (ee_load_ c) (g_ c)
               (repeat (mkBound 1 1) (GetNumberOfSegments (ee_load_ c))).

End ConvexityConstraint.

(** ** A concrete robot, to run the definitions on *)

Module Scenario.

(** The objects behind the composite: one node value. *)
Definition Store : Type := R.

Definition line (t : R) : Cmd Store StateLinXd :=
  fun node => (mkStateLin (mkVector3d (node * t) 0 0)
                          (mkVector3d node 0 0) Vector3d_Zero, node).

(** Stance during the first half second. *)
Definition stance_first_half (t : R) : Cmd Store bool :=
  fun node => (if Rle_dec t (1 / 2) then true else false, node).

Definition never (t : R) : Cmd Store bool := fun node => (false, node).

Definition vars0 : @VariablesComp Store :=
  mkVariablesComp (mkSpline line) (mkSpline line)
                  (fun ee => mkPhaseNodes (mkSpline line) stance_first_half)
                  (fun ee => mkSpline line)
                  (fun ee => mkContactSchedule never).

Definition GetState0 (euler : StateLinXd) : StateAng3d :=
  mkStateAng (mkQuat 1 0 0 0) (v_ euler) (a_ euler).

(** Two feet, one second, a solver that stopped after two iterations. *)
Definition towr0 : @TOWR Store :=
  mkTOWR (mkState3dEuler StateLinXd_Zero StateLinXd_Zero)
         (mkState3dEuler StateLinXd_Zero StateLinXd_Zero)
         [mkVector3d 0 0 1; mkVector3d 1 0 1]
         (mkParams 1)
         (mkRobotModel [] Vector3d_Zero 1)
         None
         (mkProblem 2 (fun iter => vars0) vars0).

(** A heap with one terrain at address [0], ground height [0]. *)
Definition flat0 : HeightMap := mkHeightMap 0 1 (mkVector3d 0 0 1).

Definition heap0 : Heap := fun p => if Nat.eqb p 0 then Some flat0 else None.


(** A node with two feet, a solution of two iterations, the endeffector
    map that reverses the order of the feet, and a flat terrain. *)
Definition node_spline : @SplineHolder.NodeSpline Store :=
  SplineHolder.mkNodeSpline line (ret 1).

Definition durations0 : @SplineHolder.PhaseDurations Store :=
  SplineHolder.mkPhaseDurations stance_first_half.

Definition solution0 : @SplineHolder.t Store :=
  SplineHolder.mkSplineHolder node_spline node_spline
    [node_spline; node_spline] [node_spline; node_spline]
    [durations0; durations0].

(** [SetSolution] writes the number of the iteration into the node. *)
Definition ros_towr0 : @TowrRos.TOWR Store :=
  TowrRos.mkTOWR 2 (fun iter node => (tt, IZR iter)) solution0.

Definition terrain0 : Terrain := mkTerrain (fun x y => mkVector3d 0 0 1) (1 / 2).

Definition ros0 : @TowrRos.t Store :=
  TowrRos.mkTowrRos ros_towr0 (2 / 100)
    (mkState3dEuler StateLinXd_Zero StateLinXd_Zero)
    [mkVector3d 1 1 0; mkVector3d (-1) 1 0] (Some terrain0).

Definition ToXppEndeffector0 (n_ee ee_towr : nat) : nat * string :=
  ((n_ee - 1 - ee_towr)%nat, to_string ee_towr).

Definition ToXpp0 (point : StateLinXd) : StateLinXd := point.

Definition quaternion0 (spline : @SplineHolder.NodeSpline Store) (t : R)
  : Cmd Store Quaterniond := ret (mkQuat 1 0 0 0).

Definition angular0 (spline : @SplineHolder.NodeSpline Store) (t : R)
  : Cmd Store Vector3d := ret Vector3d_Zero.

(** Four legs sharing the load evenly at each of three sampled times. *)
Definition convexity0 : ConvexityConstraint.t :=
  ConvexityConstraint.mkConstraint
    (ConvexityConstraint.mkLoad 3 (fun k => [1 / 4; 1 / 4; 1 / 4; 1 / 4]))
    [] [].

End Scenario.

(** * Theorems *)

(** [PI] is above 3. *)
Lemma PI_gt_3 : 3 < PI.
Proof. pose proof PI2_3_2; lra. Qed.

(** Two decimals of [PI], from the Machin-like series of the library. *)
Lemma PI_bounds : 314 / 100 < PI < 315 / 100.
Proof.
  pose proof (PI_2_3_7_ineq 1) as H.
  unfold sum_f_R0, tg_alt, PI_2_3_7_tg, Ratan_seq in H.
  simpl in H.
  lra.
Qed.

Module AttitudeFacts.
Import Attitude.

Lemma tol_value : tol = 1 / 1000.
Proof. reflexivity. Qed.

(** Unfold the code over the reals down to the tests of [Rlt_dec] and
    [Rle_dec], and decide the tests that the context decides. *)
Ltac over_reals :=
  unfold GetUnique, GetUnique_on;
  cbn [real lt le add sub div neg lit_0 lit_2 lit_M_PI lit_1e_3];
  unfold Rltb, Rleb.

Ltac branch_tests :=
  repeat match goal with
         | |- context [Rlt_dec ?a ?b] => destruct (Rlt_dec a b); try lra
         | |- context [Rle_dec ?a ?b] => destruct (Rle_dec a b); try lra
         end; cbn [andb].

(** *** The five branches, one equation each *)

Lemma GetUnique_below (v : Vector3d) :
  vy v < - PI / 2 - tol ->
  GetUnique v = mkVector3d (flip (vx v)) (- (vy v + PI)) (flip (vz v)).
Proof.
  rewrite tol_value. intros H. over_reals.
  branch_tests; reflexivity.
Qed.

Lemma GetUnique_lower_band (v : Vector3d) :
  in_lower_band (vy v) ->
  GetUnique v = mkVector3d (vx v - vz v) (vy v) 0.
Proof.
  unfold in_lower_band. rewrite tol_value. intros [H1 H2]. over_reals.
  branch_tests; reflexivity.
Qed.

Lemma GetUnique_inside (v : Vector3d) :
  - PI / 2 + tol < vy v < PI / 2 - tol ->
  GetUnique v = v.
Proof.
  rewrite tol_value. intros [H1 H2]. over_reals.
  branch_tests; reflexivity.
Qed.

Lemma GetUnique_upper_band (v : Vector3d) :
  in_upper_band (vy v) ->
  GetUnique v = mkVector3d (vx v + vz v) (vy v) 0.
Proof.
  unfold in_upper_band. rewrite tol_value. intros [H1 H2].
  pose proof PI_gt_3. over_reals.
  branch_tests; reflexivity.
Qed.

Lemma GetUnique_above (v : Vector3d) :
  PI / 2 + tol < vy v ->
  GetUnique v = mkVector3d (flip (vx v)) (- (vy v - PI)) (flip (vz v)).
Proof.
  rewrite tol_value. intros H.
  pose proof PI_gt_3. over_reals.
  branch_tests; reflexivity.
Qed.

Lemma flip_value (a : R) :
  flip a = if Rlt_dec a 0 then a + PI else a - PI.
Proof.
  unfold flip, flip_on. cbn [real lt add sub lit_0 lit_M_PI]. unfold Rltb.
  destruct (Rlt_dec a 0); reflexivity.
Qed.


(** The branch conditions cover every pitch. *)
Lemma pitch_cases (y : R) :
  y < - PI / 2 - tol \/ in_lower_band y \/
  - PI / 2 + tol < y < PI / 2 - tol \/
  in_upper_band y \/ PI / 2 + tol < y.
Proof.
  unfold in_lower_band, in_upper_band.
  destruct (Rlt_dec y (- PI / 2 - tol)); [lra |].
  destruct (Rle_dec y (- PI / 2 + tol)); [lra |].
  destruct (Rlt_dec y (PI / 2 - tol)); [lra |].
  destruct (Rle_dec y (PI / 2 + tol)); lra.
Qed.

(** One fold of the pitch is enough when the pitch is less than three
    quarter turns away from zero (up to the tolerance): there a second call
    changes nothing. *)
Lemma GetUnique_idempotent_one_fold (v : Vector3d) :
  - 3 * PI / 2 + tol < vy v < 3 * PI / 2 - tol ->
  GetUnique (GetUnique v) = GetUnique v.
Proof.
  intros [Hlo Hhi].
  destruct (pitch_cases (vy v)) as [H | [H | [H | [H | H]]]].
  - rewrite (GetUnique_below v H).
    apply GetUnique_inside. simpl. lra.
  - rewrite (GetUnique_lower_band v H).
    rewrite GetUnique_lower_band by exact H.
    simpl. f_equal. lra.
  - rewrite (GetUnique_inside v H). apply GetUnique_inside. exact H.
  - rewrite (GetUnique_upper_band v H).
    rewrite GetUnique_upper_band by exact H.
    simpl. f_equal. lra.
  - rewrite (GetUnique_above v H).
    apply GetUnique_inside. simpl. lra.
Qed.


End AttitudeFacts.

Import Attitude AttitudeFacts.

(** C1 (attitude normalization is idempotent for every triple).  The code
    does not meet it at [zyx = (0, 5, 0)]: the first call takes the last
    branch and returns the pitch [PI - 5], which is still below
    [-PI/2 - tol]; the second call takes the first branch and returns a
    different triple.  The same happens when the code is run in binary64
    arithmetic. *)
Theorem GetUnique_twice_at_0_5_0 :
  let zyx := mkVector3d 0 5 0 in
  GetUnique zyx = mkVector3d (0 - PI) (- (5 - PI)) (0 - PI) /\
  GetUnique (GetUnique zyx) =
    mkVector3d (0 - PI + PI) (- (- (5 - PI) + PI)) (0 - PI + PI) /\
  GetUnique (GetUnique zyx) <> GetUnique zyx /\
  let zyx64 := mkVector3 0%float 5%float 0%float in
  Vector3_eqb (GetUnique_binary64 (GetUnique_binary64 zyx64))
              (GetUnique_binary64 zyx64) = false /\
  PrimFloat.eqb (vy (GetUnique_binary64 (GetUnique_binary64 zyx64)))
                (vy (GetUnique_binary64 zyx64)) = false.
Proof.
  pose proof PI_bounds as [Hlo Hhi].
  assert (H1 : GetUnique (mkVector3d 0 5 0)
               = mkVector3d (0 - PI) (- (5 - PI)) (0 - PI)).
  { rewrite GetUnique_above by (rewrite tol_value; simpl; lra).
    simpl. rewrite !flip_value. destruct (Rlt_dec 0 0); [lra | reflexivity]. }
  assert (H2 : GetUnique (mkVector3d (0 - PI) (- (5 - PI)) (0 - PI))
               = mkVector3d (0 - PI + PI) (- (- (5 - PI) + PI)) (0 - PI + PI)).
  { rewrite GetUnique_below by (rewrite tol_value; simpl; lra).
    simpl. rewrite !flip_value. destruct (Rlt_dec (0 - PI) 0); [reflexivity | lra]. }
  cbv zeta. rewrite H1, H2.
  split; [reflexivity |]. split; [reflexivity |]. split.
  - intros E. apply (f_equal vx) in E. simpl in E. lra.
  - split; vm_compute; reflexivity.
Qed.

(** C2 (the result has its pitch in [[-PI/2, PI/2]] and its outer angles in
    [[-PI, PI)], for every triple).  The code does not meet it: at
    [(0, 5, 0)] the returned pitch is [PI - 5 < -PI/2]; at [(4, 0, 0)] the
    triple is returned as it is, with the first angle [4 >= PI]; at
    [(3, PI/2, 3)], a triple inside the ranges, the returned first angle is
    [3 + 3 >= PI].  The same happens when the code is run in binary64
    arithmetic. *)
Theorem GetUnique_out_of_range :
  vy (GetUnique (mkVector3d 0 5 0)) = - (5 - PI) /\
  ~ pitch_range (vy (GetUnique (mkVector3d 0 5 0))) /\
  GetUnique (mkVector3d 4 0 0) = mkVector3d 4 0 0 /\
  ~ outer_range (vx (GetUnique (mkVector3d 4 0 0))) /\
  GetUnique (mkVector3d 3 (PI / 2) 3) = mkVector3d (3 + 3) (PI / 2) 0 /\
  ~ outer_range (vx (GetUnique (mkVector3d 3 (PI / 2) 3))) /\
  PrimFloat.ltb (vy (GetUnique_binary64 (mkVector3 0 5 0)%float))
                (- lit_M_PI binary64 / 2)%float = true /\
  PrimFloat.leb (lit_M_PI binary64)
                (vx (GetUnique_binary64 (mkVector3 4 0 0)%float)) = true /\
  PrimFloat.leb (lit_M_PI binary64)
                (vx (GetUnique_binary64
                       (mkVector3 3 (lit_M_PI binary64 / 2) 3)%float)) = true.
Proof.
  pose proof PI_bounds as [Hlo Hhi].
  assert (H1 : vy (GetUnique (mkVector3d 0 5 0)) = - (5 - PI)).
  { rewrite GetUnique_above by (rewrite tol_value; simpl; lra). reflexivity. }
  assert (H2 : GetUnique (mkVector3d 4 0 0) = mkVector3d 4 0 0).
  { apply GetUnique_inside. rewrite tol_value. simpl. lra. }
  assert (H3 : GetUnique (mkVector3d 3 (PI / 2) 3)
               = mkVector3d (3 + 3) (PI / 2) 0).
  { apply GetUnique_upper_band. unfold in_upper_band. rewrite tol_value.
    simpl. lra. }
  rewrite H1, H2, H3. simpl.
  unfold pitch_range, outer_range.
  split; [reflexivity |]. split; [lra |]. split; [reflexivity |].
  split; [lra |]. split; [reflexivity |]. split; [lra |].
  repeat split; vm_compute; reflexivity.
Qed.

(** C6 (gimbal lock is resolved in the tolerance bands, and normalization
    is total).  A pitch in the band around [-PI/2] gives
    [(x - z, y, 0)], a pitch in the band around [PI/2] gives
    [(x + z, y, 0)]: the third angle is folded into the first and set to
    zero.  [GetUnique] has no error result, and its five branch conditions
    cover every triple: each input falls in one of them and the result is
    the triple that branch builds. *)
Theorem GetUnique_gimbal_lock_resolved (zyx : Vector3d) :
  (in_lower_band (vy zyx) ->
     GetUnique zyx = mkVector3d (vx zyx - vz zyx) (vy zyx) 0) /\
  (in_upper_band (vy zyx) ->
     GetUnique zyx = mkVector3d (vx zyx + vz zyx) (vy zyx) 0) /\
  ((vy zyx < - PI / 2 - tol /\
      GetUnique zyx
      = mkVector3d (flip (vx zyx)) (- (vy zyx + PI)) (flip (vz zyx))) \/
   (in_lower_band (vy zyx) /\
      GetUnique zyx = mkVector3d (vx zyx - vz zyx) (vy zyx) 0) \/
   (- PI / 2 + tol < vy zyx < PI / 2 - tol /\ GetUnique zyx = zyx) \/
   (in_upper_band (vy zyx) /\
      GetUnique zyx = mkVector3d (vx zyx + vz zyx) (vy zyx) 0) \/
   (PI / 2 + tol < vy zyx /\
      GetUnique zyx
      = mkVector3d (flip (vx zyx)) (- (vy zyx - PI)) (flip (vz zyx)))).
Proof.
  split; [apply GetUnique_lower_band |].
  split; [apply GetUnique_upper_band |].
  destruct (pitch_cases (vy zyx)) as [H | [H | [H | [H | H]]]].
  - left. split; [exact H | apply GetUnique_below; exact H].
  - right; left. split; [exact H | apply GetUnique_lower_band; exact H].
  - right; right; left. split; [exact H | apply GetUnique_inside; exact H].
  - right; right; right; left.
    split; [exact H | apply GetUnique_upper_band; exact H].
  - right; right; right; right.
    split; [exact H | apply GetUnique_above; exact H].
Qed.

(** The theorem at [(1, -PI/2, 2)] and at [(1, PI/2, 2)]. *)
Lemma GetUnique_gimbal_lock_resolved_witness :
  (in_lower_band (- PI / 2) /\
   GetUnique (mkVector3d 1 (- PI / 2) 2) = mkVector3d (1 - 2) (- PI / 2) 0) /\
  (in_upper_band (PI / 2) /\
   GetUnique (mkVector3d 1 (PI / 2) 2) = mkVector3d (1 + 2) (PI / 2) 0).
Proof.
  assert (L : in_lower_band (- PI / 2)) by (unfold in_lower_band; rewrite tol_value; lra).
  assert (U : in_upper_band (PI / 2)) by (unfold in_upper_band; rewrite tol_value; lra).
  split; split.
  - exact L.
  - exact (proj1 (GetUnique_gimbal_lock_resolved (mkVector3d 1 (- PI / 2) 2)) L).
  - exact U.
  - exact (proj1 (proj2 (GetUnique_gimbal_lock_resolved
                           (mkVector3d 1 (PI / 2) 2))) U).
Defined.

(** ** Commands that only read *)

Section CmdFacts.

Context {Store : Type}.

Lemma read_only_run {A : Type} (m : Cmd Store A) (s : Store) :
  read_only m -> m s = (fst (m s), s).
Proof.
  intros H. specialize (H s). destruct (m s) as [a s']. simpl in *.
  now subst.
Qed.

Lemma bind_read_only_run {A B : Type} (m : Cmd Store A)
  (k : A -> Cmd Store B) (s : Store) :
  read_only m -> bind m k s = k (fst (m s)) s.
Proof.
  intros H. unfold bind. rewrite (read_only_run m s H). reflexivity.
Qed.

Lemma read_only_ret {A : Type} (a : A) : read_only (@ret Store A a).
Proof. intros s. reflexivity. Qed.

Lemma read_only_bind {A B : Type} (m : Cmd Store A) (k : A -> Cmd Store B) :
  read_only m -> (forall a, read_only (k a)) -> read_only (bind m k).
Proof.
  intros Hm Hk s. rewrite bind_read_only_run by exact Hm. apply Hk.
Qed.

Lemma read_only_for_each {A B : Type} (l : list A)
  (body : B -> A -> Cmd Store B) :
  (forall b a, read_only (body b a)) ->
  forall b, read_only (for_each l body b).
Proof.
  intros Hbody. induction l as [| a l IH]; intros b; simpl.
  - apply read_only_ret.
  - apply read_only_bind; [apply Hbody | exact IH].
Qed.

(** A loop of reading bodies is a left fold of their results. *)
Lemma for_each_read_only_run {A B : Type} (l : list A)
  (body : B -> A -> Cmd Store B) (s : Store) :
  (forall b a, read_only (body b a)) ->
  forall b,
    for_each l body b s = (fold_left (fun b a => fst (body b a s)) l b, s).
Proof.
  intros Hbody. induction l as [| a l IH]; intros b; simpl.
  - reflexivity.
  - rewrite bind_read_only_run by apply Hbody. apply IH.
Qed.

End CmdFacts.

(** ** Assignment by index *)

Section SetAt.

Context {A : Type}.

Lemma set_at_length (c : list A) (ee : nat) (a : A) :
  length (set_at c ee a) = length c.
Proof.
  revert ee. induction c as [| b c IH]; intros [| ee]; simpl; auto.
Qed.

Lemma nth_set_at_same (c : list A) (ee : nat) (a d : A) :
  (ee < length c)%nat -> nth ee (set_at c ee a) d = a.
Proof.
  revert ee. induction c as [| b c IH]; intros [| ee] H; simpl in *;
    try lia; auto.
  apply IH. lia.
Qed.

Lemma nth_set_at_other (c : list A) (ee j : nat) (a d : A) :
  j <> ee -> nth j (set_at c ee a) d = nth j c d.
Proof.
  revert ee j. induction c as [| b c IH]; intros [| ee] [| j] H; simpl;
    try reflexivity; try congruence.
  apply IH. congruence.
Qed.

End SetAt.

(** The ids handed out by [GetEEsOrdered] index every container of a fresh
    state: [at] does not leave the container. *)
Lemma GetEEsOrdered_in_range (n_ee : nat) (ee : EndeffectorID) :
  In ee (GetEEsOrdered (RobotStateCartesian_new n_ee)) ->
  (ee < length (ee_motion_ (RobotStateCartesian_new n_ee)))%nat /\
  (ee < length (ee_forces_ (RobotStateCartesian_new n_ee)))%nat /\
  (ee < length (ee_contact_ (RobotStateCartesian_new n_ee)))%nat.
Proof.
  unfold GetEEsOrdered. simpl. rewrite !repeat_length.
  intros H. apply in_seq in H. lia.
Qed.

(** ** The time walk of the [while] loop, with exact arithmetic *)

(** With real numbers the walk has a closed form: the times are the
    multiples of [dt], and their number is [sample_count].  These lemmas
    serve to show that the model over the reals returns; they say nothing
    about sums and tests that round. *)

Lemma sample_times_walk (dt T : R) :
  forall (n fuel : nat) (t : R),
    (n < fuel)%nat ->
    (forall k, (k < n)%nat -> t + INR k * dt <= T + 1 / 100000) ->
    T + 1 / 100000 < t + INR n * dt ->
    exists ts,
      sample_times dt T fuel t = Some ts /\
      length ts = n /\
      forall k, (k < n)%nat -> nth k ts 0 = t + INR k * dt.
Proof.
  induction n as [| n IH]; intros fuel t Hfuel Hin Hout.
  - destruct fuel as [| fuel]; [lia |]. simpl in *.
    destruct (Rle_dec t (T + 1 / 100000)) as [Hle | Hgt]; [lra |].
    exists []. repeat split. intros k Hk. lia.
  - destruct fuel as [| fuel]; [lia |].
    assert (H0 : t <= T + 1 / 100000).
    { specialize (Hin 0%nat ltac:(lia)). simpl in Hin. lra. }
    destruct (IH fuel (t + dt)) as (ts & Hts & Hlen & Hnth).
    + lia.
    + intros k Hk. specialize (Hin (S k) ltac:(lia)).
      rewrite S_INR in Hin. lra.
    + rewrite S_INR in Hout. lra.
    + simpl. destruct (Rle_dec t (T + 1 / 100000)) as [Hle | Hgt]; [| lra].
      rewrite Hts. exists (t :: ts). split; [reflexivity |].
      split; [simpl; lia |].
      intros [| k] Hk.
      * simpl. lra.
      * cbn [nth]. rewrite Hnth by lia. rewrite (S_INR k). lra.
Qed.

Lemma sample_count_spec (dt T : R) :
  0 < dt ->
  (forall k, (k < sample_count dt T)%nat -> INR k * dt <= T + 1 / 100000) /\
  T + 1 / 100000 < INR (sample_count dt T) * dt.
Proof.
  intros Hdt. unfold sample_count.
  set (x := (T + 1 / 100000) / dt).
  assert (Hx : x * dt = T + 1 / 100000) by (unfold x; field; lra).
  destruct (archimed x) as [Hup1 Hup2].
  destruct (Z_lt_le_dec 0 (up x)) as [Hpos | Hneg].
  - assert (E : INR (Z.to_nat (up x)) = IZR (up x)).
    { rewrite INR_IZR_INZ, Z2Nat.id by lia. reflexivity. }
    split.
    + intros k Hk.
      assert (Hk' : INR k + 1 <= INR (Z.to_nat (up x))).
      { rewrite <- S_INR. apply le_INR. lia. }
      rewrite E in Hk'. rewrite <- Hx.
      apply Rmult_le_compat_r; lra.
    + rewrite E, <- Hx. apply Rmult_lt_compat_r; lra.
  - assert (E : Z.to_nat (up x) = 0%nat) by lia.
    rewrite E. split.
    + intros k Hk. lia.
    + simpl. rewrite <- Hx.
      assert (IZR (up x) <= 0) by (apply (IZR_le _ 0); exact Hneg).
      assert (x < 0) by lra.
      nra.
Qed.

Lemma sample_times_total (dt T : R) (fuel : nat) :
  0 < dt ->
  (sample_count dt T < fuel)%nat ->
  exists ts,
    sample_times dt T fuel 0 = Some ts /\
    length ts = sample_count dt T /\
    forall k, (k < sample_count dt T)%nat -> nth k ts 0 = INR k * dt.
Proof.
  intros Hdt Hfuel.
  destruct (sample_count_spec dt T Hdt) as [Hin Hout].
  destruct (sample_times_walk dt T (sample_count dt T) fuel 0 Hfuel)
    as (ts & Hts & Hlen & Hnth).
  - intros k Hk. specialize (Hin k Hk). lra.
  - lra.
  - exists ts. repeat split; try assumption.
    intros k Hk. rewrite Hnth by exact Hk. lra.
Qed.

(** One second sampled every half second: three samples. *)
Lemma sample_times_half_second (fuel : nat) :
  (3 < fuel)%nat ->
  sample_times (1 / 2) 1 fuel 0 = Some [0; 0 + 1 / 2; 0 + 1 / 2 + 1 / 2].
Proof.
  intros Hfuel.
  destruct fuel as [| [| [| [| fuel]]]]; try lia.
  simpl.
  repeat match goal with
         | |- context [Rle_dec ?a ?b] => destruct (Rle_dec a b); try lra
         end.
  reflexivity.
Qed.

(** ** A loop of assignments by index *)

Lemma fold_set_at {A B : Type} (proj : B -> list A) (f : B -> nat -> B)
  (val : nat -> A) :
  (forall b a, proj (f b a) = set_at (proj b) a (val a)) ->
  forall (l : list nat) (b : B),
    length (proj (fold_left f l b)) = length (proj b) /\
    forall j d, (j < length (proj b))%nat ->
      nth j (proj (fold_left f l b)) d
      = if in_dec Nat.eq_dec j l then val j else nth j (proj b) d.
Proof.
  intros Hf. induction l as [| a l IH]; intros b.
  - simpl. split; reflexivity.
  - cbn [fold_left].
    destruct (IH (f b a)) as [Hlen Hnth].
    rewrite Hf, set_at_length in Hlen. split; [exact Hlen |].
    intros j d Hj.
    rewrite Hnth by (rewrite Hf, set_at_length; exact Hj).
    rewrite Hf.
    destruct (in_dec Nat.eq_dec j l) as [Hin | Hnin];
      destruct (in_dec Nat.eq_dec j (a :: l)) as [Hin' | Hnin'];
      try reflexivity.
    + exfalso. apply Hnin'. right. exact Hin.
    + destruct Hin' as [E | Hin']; [| contradiction].
      subst a. apply nth_set_at_same. exact Hj.
    + apply nth_set_at_other. intros E. apply Hnin'. left. congruence.
Qed.

(** ** Extraction with reading queries *)

Section ExtractionFacts.

Context {Store : Type}.
Variable GetState : StateLinXd -> StateAng3d.
Variable this : @TOWR Store.
Variable vars : @VariablesComp Store.

Lemma GetTrajectory_state_t_global (t : R) (s : Store) :
  t_global_ (fst (GetTrajectory_state GetState this vars t s)) = t.
Proof.
  unfold GetTrajectory_state, bind.
  destruct (GetPoint (comp_base_linear vars) t s) as [base_lin s1].
  destruct (GetPoint (comp_base_angular vars) t s1) as [base_ang s2].
  match goal with
  | |- context [for_each ?l ?body ?b s2] =>
      destruct (for_each l body b s2) as [state s3]
  end.
  reflexivity.
Qed.

(** The times of the states pushed by the loop are the times of the walk,
    whatever the queries do. *)
Lemma GetTrajectory_while_times (dt T : R) :
  forall (fuel : nat) (t : R) (acc : RobotStateVec) (s : Store),
    option_map (map t_global_)
      (fst (GetTrajectory_while GetState this vars dt T fuel t acc s))
    = option_map (fun ts => map t_global_ acc ++ ts)
                 (sample_times dt T fuel t).
Proof.
  induction fuel as [| fuel IH]; intros t acc s; simpl.
  - reflexivity.
  - destruct (Rle_dec t (T + 1 / 100000)) as [Hle | Hgt];
      [| simpl; rewrite app_nil_r; reflexivity].
    unfold bind at 1.
    pose proof (GetTrajectory_state_t_global t s) as Ht.
    destruct (GetTrajectory_state GetState this vars t s) as [state s1].
    simpl in Ht. rewrite IH, map_app. simpl. rewrite Ht.
    destruct (sample_times dt T fuel (t + dt)) as [ts |]; simpl;
      [rewrite <- app_assoc |]; reflexivity.
Qed.

Hypothesis Hconst : const_queries vars.

(** What one pass of the loop over the legs assigns. *)
Lemma GetTrajectory_ee_run (t : R) (state : RobotStateCartesian)
  (ee : EndeffectorID) (s : Store) :
  GetTrajectory_ee vars t state ee s =
  (mkRobotState
     (base_ state)
     (set_at (ee_motion_ state) ee
        (fst (GetPoint (as_Spline (comp_ee_motion vars ee)) t s)))
     (set_at (ee_forces_ state) ee
        (p_ (fst (GetPoint (comp_ee_force vars ee) t s))))
     (set_at (ee_contact_ state) ee
        (fst (IsConstantPhase (comp_ee_motion vars ee) t s)))
     (t_global_ state), s).
Proof.
  destruct Hconst as (_ & _ & Hc & Hm & Hf).
  unfold GetTrajectory_ee.
  rewrite bind_read_only_run by apply Hc.
  rewrite bind_read_only_run by apply Hm.
  rewrite bind_read_only_run by apply Hf.
  reflexivity.
Qed.

Lemma GetTrajectory_ee_read_only (t : R) (state : RobotStateCartesian)
  (ee : EndeffectorID) :
  read_only (GetTrajectory_ee vars t state ee).
Proof. intros s. rewrite GetTrajectory_ee_run. reflexivity. Qed.

Lemma GetTrajectory_state_read_only (t : R) :
  read_only (GetTrajectory_state GetState this vars t).
Proof.
  destruct Hconst as (Hl & Ha & _).
  unfold GetTrajectory_state.
  apply read_only_bind; [apply Hl | intros base_lin].
  apply read_only_bind; [apply Ha | intros base_ang].
  apply read_only_bind; [| intros state; apply read_only_ret].
  apply read_only_for_each. intros b a. apply GetTrajectory_ee_read_only.
Qed.

(** The loop pushes, for each time of the walk, the state read at that
    time, and leaves the objects as they were. *)
Lemma GetTrajectory_while_run (dt T : R) :
  forall (fuel : nat) (t : R) (acc : RobotStateVec) (s : Store),
    GetTrajectory_while GetState this vars dt T fuel t acc s =
    (option_map
       (fun ts =>
          acc ++ map (fun t' => fst (GetTrajectory_state GetState this vars t' s))
                     ts)
       (sample_times dt T fuel t), s).
Proof.
  induction fuel as [| fuel IH]; intros t acc s; simpl.
  - reflexivity.
  - destruct (Rle_dec t (T + 1 / 100000)) as [Hle | Hgt].
    + rewrite bind_read_only_run by apply GetTrajectory_state_read_only.
      rewrite IH.
      destruct (sample_times dt T fuel (t + dt)) as [ts |]; simpl;
        [rewrite <- app_assoc |]; reflexivity.
    + simpl. rewrite app_nil_r. reflexivity.
Qed.

Lemma GetTrajectory_read_only (fuel : nat) (dt : R) :
  read_only (GetTrajectory GetState fuel this vars dt).
Proof.
  intros s. unfold GetTrajectory. rewrite GetTrajectory_while_run.
  reflexivity.
Qed.

(** With a positive step the loop ends: enough fuel gives a trajectory. *)
Lemma GetTrajectory_returns (fuel : nat) (dt : R) (s : Store) :
  0 < dt ->
  (sample_count dt (GetTotalTime (params_ this)) < fuel)%nat ->
  exists traj,
    GetTrajectory GetState fuel this vars dt s = (Some traj, s) /\
    length traj = sample_count dt (GetTotalTime (params_ this)).
Proof.
  intros Hdt Hfuel.
  destruct (sample_times_total dt (GetTotalTime (params_ this)) fuel Hdt Hfuel)
    as (ts & Hts & Hlen & _).
  unfold GetTrajectory. rewrite GetTrajectory_while_run, Hts. simpl.
  eexists. split; [reflexivity |].
  rewrite length_map. exact Hlen.
Qed.

(** Every state of the result is the state read at its own time. *)
Lemma GetTrajectory_In (fuel : nat) (dt : R) (s : Store)
  (traj : RobotStateVec) (state : RobotStateCartesian) :
  fst (GetTrajectory GetState fuel this vars dt s) = Some traj ->
  In state traj ->
  state = fst (GetTrajectory_state GetState this vars (t_global_ state) s).
Proof.
  unfold GetTrajectory. rewrite GetTrajectory_while_run. simpl.
  destruct (sample_times dt (GetTotalTime (params_ this)) fuel 0) as [ts |];
    simpl; [| discriminate].
  intros E Hin. injection E as E. subst traj.
  apply in_map_iff in Hin. destruct Hin as (t & Ht & _).
  subst state. rewrite GetTrajectory_state_t_global. reflexivity.
Qed.

(** The per-leg entries of the state read at [t]. *)
Lemma GetTrajectory_state_legs (t : R) (s : Store) (ee : EndeffectorID) :
  (ee < GetEECount (initial_ee_W_ this))%nat ->
  let state := fst (GetTrajectory_state GetState this vars t s) in
  (forall d, nth ee (ee_contact_ state) d
             = fst (IsConstantPhase (comp_ee_motion vars ee) t s)) /\
  (forall d, nth ee (ee_motion_ state) d
             = fst (GetPoint (as_Spline (comp_ee_motion vars ee)) t s)) /\
  (forall d, nth ee (ee_forces_ state) d
             = p_ (fst (GetPoint (comp_ee_force vars ee) t s))).
Proof.
  intros Hee.
  destruct Hconst as (Hl & Ha & _).
  unfold GetTrajectory_state.
  rewrite bind_read_only_run by apply Hl.
  rewrite bind_read_only_run by apply Ha.
  match goal with
  | |- context [bind (for_each ?l ?body ?b) ?k s] =>
      rewrite (bind_read_only_run (for_each l body b) k s)
        by (apply read_only_for_each; intros; apply GetTrajectory_ee_read_only);
      rewrite (for_each_read_only_run l body s)
        by (intros; apply GetTrajectory_ee_read_only);
      set (f := fun st i => fst (body st i s));
      set (b0 := b); set (ids := l)
  end.
  cbn [fst ret ee_contact_ ee_motion_ ee_forces_].
  assert (Hin : In ee ids).
  { unfold ids, GetEEsOrdered. cbn [ee_motion_ RobotStateCartesian_new].
    rewrite repeat_length. apply in_seq. lia. }
  assert (Hf : forall b a, f b a = fst (GetTrajectory_ee vars t b a s))
    by reflexivity.
  split; [| split]; intros d.
  - destruct (fold_set_at ee_contact_ f
                (fun a => fst (IsConstantPhase (comp_ee_motion vars a) t s))
                ltac:(intros; rewrite Hf, GetTrajectory_ee_run; reflexivity)
                ids b0) as [_ Hnth].
    rewrite Hnth.
    + destruct (in_dec Nat.eq_dec ee ids); [reflexivity | contradiction].
    + unfold b0. cbn [ee_contact_ RobotStateCartesian_new].
      rewrite repeat_length. exact Hee.
  - destruct (fold_set_at ee_motion_ f
                (fun a => fst (GetPoint (as_Spline (comp_ee_motion vars a)) t s))
                ltac:(intros; rewrite Hf, GetTrajectory_ee_run; reflexivity)
                ids b0) as [_ Hnth].
    rewrite Hnth.
    + destruct (in_dec Nat.eq_dec ee ids); [reflexivity | contradiction].
    + unfold b0. cbn [ee_motion_ RobotStateCartesian_new].
      rewrite repeat_length. exact Hee.
  - destruct (fold_set_at ee_forces_ f
                (fun a => p_ (fst (GetPoint (comp_ee_force vars a) t s)))
                ltac:(intros; rewrite Hf, GetTrajectory_ee_run; reflexivity)
                ids b0) as [_ Hnth].
    rewrite Hnth.
    + destruct (in_dec Nat.eq_dec ee ids); [reflexivity | contradiction].
    + unfold b0. cbn [ee_forces_ RobotStateCartesian_new].
      rewrite repeat_length. exact Hee.
Qed.

End ExtractionFacts.

(** ** The [while] loop over the operations of [double] *)

Section LoopOverDoubleFacts.

Context {N : Type} (D : Double N) (lit_1e_5 : N) {Store A : Type}.
Variable state_at : N -> Cmd Store A.

Let loop := GetTrajectory_while_on D lit_1e_5 state_at.

(** The states pushed by the loop come after the ones it was given. *)
Lemma GetTrajectory_while_on_app (dt T : N) (fuel : nat) :
  forall (t : N) (trajectory : list A) (s : Store),
    loop dt T fuel t trajectory s
    = (option_map (app trajectory) (fst (loop dt T fuel t [] s)),
       snd (loop dt T fuel t [] s)).
Proof.
  unfold loop. induction fuel as [| fuel IH]; intros t trajectory s.
  - reflexivity.
  - cbn [GetTrajectory_while_on].
    destruct (le D t (add D T lit_1e_5)).
    + unfold bind. destruct (state_at t s) as [state s1].
      rewrite (IH _ (trajectory ++ [state])), (IH _ ([] ++ [state])).
      cbn [fst snd].
      destruct (fst (GetTrajectory_while_on D lit_1e_5 state_at dt T fuel
                       (add D t dt) [] s1)) as [rest |]; cbn [option_map].
      * rewrite <- app_assoc. reflexivity.
      * reflexivity.
    + cbn. rewrite app_nil_r. reflexivity.
Qed.

(** One turn of the loop, for the result. *)
Lemma GetTrajectory_while_on_step (dt T : N) (fuel : nat) (t : N) (s : Store) :
  le D t (add D T lit_1e_5) = true ->
  fst (loop dt T (S fuel) t [] s)
  = option_map (cons (fst (state_at t s)))
      (fst (loop dt T fuel (add D t dt) [] (snd (state_at t s)))).
Proof.
  intros Hle. unfold loop. cbn [GetTrajectory_while_on]. rewrite Hle.
  unfold bind. destruct (state_at t s) as [state s1]. cbn [fst snd].
  fold loop. rewrite GetTrajectory_while_on_app. cbn [fst].
  destruct (fst (loop dt T fuel (add D t dt) [] s1)); reflexivity.
Qed.

Variable time_of : A -> N.
Hypothesis Htime : forall t s, time_of (fst (state_at t s)) = t.

(** Whatever the arithmetic, the times of a returned trajectory are a walk
    of the loop variable. *)
Lemma GetTrajectory_while_on_walks (dt T : N) (fuel : nat) :
  forall (t : N) (s : Store) (traj : list A),
    fst (loop dt T fuel t [] s) = Some traj ->
    walks_on D lit_1e_5 dt T t (map time_of traj).
Proof.
  induction fuel as [| fuel IH]; intros t s traj E.
  - discriminate.
  - destruct (le D t (add D T lit_1e_5)) eqn:Hle.
    + rewrite (GetTrajectory_while_on_step dt T fuel t s Hle) in E.
      destruct (fst (loop dt T fuel (add D t dt) [] (snd (state_at t s))))
        as [rest |] eqn:Er; cbn [option_map] in E; [| discriminate].
      injection E as E. subst traj. cbn [map walks_on].
      split; [apply Htime |]. split; [exact Hle |].
      apply (IH _ _ _ Er).
    + unfold loop in E. cbn [GetTrajectory_while_on] in E. rewrite Hle in E.
      cbn in E. injection E as E. subst traj. exact Hle.
Qed.

End LoopOverDoubleFacts.

(** A walk that is not empty starts where it was told to, and it ends at
    the last time that passes the test: one step further fails it. *)
Lemma walks_on_ends {N : Type} (D : Double N) (lit_1e_5 dt T : N) (d : N) :
  forall (ts : list N) (t : N),
    walks_on D lit_1e_5 dt T t ts ->
    ts <> [] ->
    hd d ts = t /\
    le D (last ts d) (add D T lit_1e_5) = true /\
    le D (add D (last ts d) dt) (add D T lit_1e_5) = false.
Proof.
  induction ts as [| t' ts IH]; intros t Hw Hne.
  - contradiction.
  - cbn [walks_on] in Hw. destruct Hw as (Et & Hle & Hw). subst t'.
    split; [reflexivity |].
    destruct ts as [| t'' ts].
    + cbn [walks_on] in Hw. cbn [last]. split; [exact Hle | exact Hw].
    + destruct (IH _ Hw ltac:(discriminate)) as (_ & H1 & H2).
      change (last (t :: t'' :: ts) d) with (last (t'' :: ts) d).
      split; [exact H1 | exact H2].
Qed.

(** The model of [TOWR::GetTrajectory] is that loop, read over the reals,
    with the statements of the source as its body. *)
Lemma GetTrajectory_while_is_loop {Store : Type}
  (GetState : StateLinXd -> StateAng3d) (this : @TOWR Store)
  (vars : @VariablesComp Store) (dt T : R) (fuel : nat) :
  forall (t : R) (trajectory : RobotStateVec) (s : Store),
    GetTrajectory_while GetState this vars dt T fuel t trajectory s
    = GetTrajectory_while_on real real_1e_5
        (GetTrajectory_state GetState this vars) dt T fuel t trajectory s.
Proof.
  induction fuel as [| fuel IH]; intros t trajectory s.
  - reflexivity.
  - cbn [GetTrajectory_while GetTrajectory_while_on le add real].
    unfold Rleb, real_1e_5.
    destruct (Rle_dec t (T + 1 / 100000)) as [Hle | Hgt].
    + unfold bind.
      destruct (GetTrajectory_state GetState this vars t s) as [state s1].
      apply IH.
    + reflexivity.
Qed.

(** ** Extraction: times, purity, contact flags *)

(** C3 (the time walk of [TOWR::GetTrajectory]).  The extraction is the
    [while] loop over the operations of [double], started at [0] with the
    statements of the source as its body.  Whatever the arithmetic of
    [double] is taken to be (the reals, binary64), the times of a returned
    trajectory are a walk: the first is [0], each next one is the sum of
    the one before and [dt], every one passes the test [t <= T + 1e-5]
    (the end time is included, with the slack) and the sum after the last
    one fails it.  For [T = 1] and [dt = 0.5] the call returns three
    states, at [0], [0.5] and [1], in that order, and the same three times
    come out when the loop is run in binary64. *)
Theorem GetTrajectory_walks_time {Store : Type}
  (GetState : StateLinXd -> StateAng3d) (this : @TOWR Store)
  (vars : @VariablesComp Store) (dt : R) (s : Store) :
  let T := GetTotalTime (params_ this) in
  (forall fuel,
     GetTrajectory GetState fuel this vars dt s
     = GetTrajectory_while_on real real_1e_5
         (GetTrajectory_state GetState this vars) dt T fuel 0 [] s) /\
  (forall (N : Type) (D : Double N) (lit_1e_5 : N) (A : Type)
          (state_at : N -> Cmd Store A) (time_of : A -> N),
     (forall t s0, time_of (fst (state_at t s0)) = t) ->
     forall dt' T' fuel traj,
       fst (GetTrajectory_while_on D lit_1e_5 state_at dt' T' fuel
                                   (lit_0 D) [] s) = Some traj ->
       walks_on D lit_1e_5 dt' T' (lit_0 D) (map time_of traj)) /\
  (forall t s0,
     t_global_ (fst (GetTrajectory_state GetState this vars t s0)) = t) /\
  (T = 1 -> dt = 1 / 2 ->
   forall fuel, (3 < fuel)%nat ->
     exists traj,
       fst (GetTrajectory GetState fuel this vars dt s) = Some traj /\
       map t_global_ traj = [0; 1 / 2; 1]) /\
  (forall fuel, (3 < fuel)%nat ->
     fst (GetTrajectory_while_on binary64 binary64_1e_5
            (fun t => ret t) 0.5%float 1%float fuel 0%float [] s)
     = Some [0%float; 0.5%float; 1%float]).
Proof.
  intros T.
  assert (Htimes : forall fuel,
             option_map (map t_global_)
               (fst (GetTrajectory GetState fuel this vars dt s))
             = sample_times dt T fuel 0).
  { intros fuel. unfold GetTrajectory, T.
    rewrite GetTrajectory_while_times. simpl.
    destruct (sample_times dt (GetTotalTime (params_ this)) fuel 0);
      reflexivity. }
  split; [| split; [| split; [| split]]].
  - intros fuel. unfold GetTrajectory. apply GetTrajectory_while_is_loop.
  - intros N D lit_1e_5 A state_at time_of Htime dt' T' fuel traj E.
    apply (GetTrajectory_while_on_walks D lit_1e_5 state_at time_of Htime
             dt' T' fuel (lit_0 D) s traj E).
  - intros t s0. apply GetTrajectory_state_t_global.
  - intros HT Hdt2 fuel Hfuel.
    specialize (Htimes fuel).
    rewrite HT, Hdt2, (sample_times_half_second fuel Hfuel) in Htimes.
    rewrite Hdt2.
    destruct (fst (GetTrajectory GetState fuel this vars (1 / 2) s))
      as [traj |]; [| discriminate].
    simpl in Htimes. injection Htimes as Htimes.
    exists traj. split; [reflexivity |].
    rewrite Htimes.
    replace (0 + 1 / 2) with (1 / 2) by lra.
    replace (1 / 2 + 1 / 2) with 1 by lra.
    reflexivity.
  - intros fuel Hfuel.
    destruct fuel as [| [| [| [| fuel]]]]; try lia.
    vm_compute. reflexivity.
Qed.

(** One second at half-second steps: on the robot of [Scenario] over the
    reals, and in binary64. *)
Lemma GetTrajectory_walks_time_witness :
  (exists traj,
     fst (GetTrajectory Scenario.GetState0 4 Scenario.towr0 Scenario.vars0
            (1 / 2) 7) = Some traj /\
     map t_global_ traj = [0; 1 / 2; 1]) /\
  walks_on binary64 binary64_1e_5 0.5%float 1%float 0%float
           [0%float; 0.5%float; 1%float].
Proof.
  pose proof (GetTrajectory_walks_time Scenario.GetState0 Scenario.towr0
                Scenario.vars0 (1 / 2) 7) as (_ & Hwalk & _ & Hreal & Hrun).
  split.
  - exact (Hreal eq_refl eq_refl 4%nat (Nat.lt_succ_diag_r 3)).
  - exact (Hwalk float binary64 binary64_1e_5 float (fun t => ret t)
             (fun t => t) (fun t s0 => eq_refl) 0.5%float 1%float 4%nat
             [0%float; 0.5%float; 1%float]
             (Hrun 4%nat (Nat.lt_succ_diag_r 3))).
Defined.

(** The robot of [Scenario]: its queries only read, and one second at
    half-second steps is three samples. *)
Lemma Scenario_const_queries : const_queries Scenario.vars0.
Proof.
  unfold const_queries, Scenario.vars0, read_only. simpl.
  repeat split.
Qed.

Lemma sample_count_half_second : sample_count (1 / 2) 1 = 3%nat.
Proof.
  unfold sample_count.
  rewrite <- (tech_up ((1 + 1 / 100000) / (1 / 2)) 3); [reflexivity | lra | lra].
Qed.

(** C9 (extraction is pure and repeatable).  When the queries made through
    [vars] are reading methods, a call of [GetTrajectory] leaves the objects
    behind [vars] as they were, and a second call with the same [vars] and
    [dt] returns the same sequence of states; with a positive step and
    enough fuel that sequence exists. *)
Theorem GetTrajectory_pure {Store : Type}
  (GetState : StateLinXd -> StateAng3d) (this : @TOWR Store)
  (vars : @VariablesComp Store) (dt : R) (fuel : nat) (s : Store) :
  const_queries vars ->
  let first  := GetTrajectory GetState fuel this vars dt s in
  let second := GetTrajectory GetState fuel this vars dt (snd first) in
  snd first = s /\
  fst second = fst first /\
  snd second = s /\
  (0 < dt ->
   (sample_count dt (GetTotalTime (params_ this)) < fuel)%nat ->
   exists traj, fst first = Some traj).
Proof.
  intros Hconst first second.
  assert (H1 : snd first = s)
    by apply (GetTrajectory_read_only GetState this vars Hconst).
  unfold second. rewrite H1. fold first.
  repeat split; try assumption.
  intros Hdt Hfuel.
  destruct (GetTrajectory_returns GetState this vars Hconst fuel dt s Hdt Hfuel)
    as (traj & Htraj & _).
  exists traj. unfold first. rewrite Htraj. reflexivity.
Qed.

Lemma GetTrajectory_pure_witness :
  const_queries Scenario.vars0 /\
  snd (GetTrajectory Scenario.GetState0 4 Scenario.towr0 Scenario.vars0
         (1 / 2) 7) = 7 /\
  fst (GetTrajectory Scenario.GetState0 4 Scenario.towr0 Scenario.vars0 (1 / 2)
         (snd (GetTrajectory Scenario.GetState0 4 Scenario.towr0
                 Scenario.vars0 (1 / 2) 7)))
  = fst (GetTrajectory Scenario.GetState0 4 Scenario.towr0 Scenario.vars0
           (1 / 2) 7).
Proof.
  split; [exact Scenario_const_queries |].
  pose proof (GetTrajectory_pure Scenario.GetState0 Scenario.towr0
                Scenario.vars0 (1 / 2) 4 7 Scenario_const_queries) as H.
  cbv zeta in H.
  split; [exact (proj1 H) | exact (proj1 (proj2 H))].
Defined.

(** The loop never looks at the contact schedules. *)
Lemma GetTrajectory_while_with_schedule {Store : Type}
  (GetState : StateLinXd -> StateAng3d) (this : @TOWR Store)
  (vars : @VariablesComp Store)
  (schedule : EndeffectorID -> @ContactSchedule Store) (dt T : R) :
  forall (fuel : nat) (t : R) (acc : RobotStateVec) (s : Store),
    GetTrajectory_while GetState this (with_schedule vars schedule) dt T
                        fuel t acc s
    = GetTrajectory_while GetState this vars dt T fuel t acc s.
Proof.
  induction fuel as [| fuel IH]; intros t acc s; simpl.
  - reflexivity.
  - destruct (Rle_dec t (T + 1 / 100000)) as [Hle | Hgt]; [| reflexivity].
    unfold bind at 1.
    match goal with
    | |- _ = bind ?m ?k s => unfold bind at 1
    end.
    change (GetTrajectory_state GetState this (with_schedule vars schedule) t s)
      with (GetTrajectory_state GetState this vars t s).
    destruct (GetTrajectory_state GetState this vars t s) as [state s1].
    apply IH.
Qed.

(** C10 (the contact flag is the constant-phase predicate of the motion
    spline).  In every state returned by [GetTrajectory], the contact flag
    of each leg is what [IsConstantPhase] of that leg's motion component
    answers at the time of the state; the contact schedules registered in
    [vars] play no part: replacing them changes nothing. *)
Theorem GetTrajectory_contact_is_constant_phase {Store : Type}
  (GetState : StateLinXd -> StateAng3d) (this : @TOWR Store)
  (vars : @VariablesComp Store) (dt : R) (fuel : nat) (s : Store)
  (traj : RobotStateVec) :
  const_queries vars ->
  fst (GetTrajectory GetState fuel this vars dt s) = Some traj ->
  (forall state ee d,
     In state traj ->
     (ee < GetEECount (initial_ee_W_ this))%nat ->
     nth ee (ee_contact_ state) d
     = fst (IsConstantPhase (comp_ee_motion vars ee) (t_global_ state) s)) /\
  (forall schedule,
     GetTrajectory GetState fuel this (with_schedule vars schedule) dt s
     = GetTrajectory GetState fuel this vars dt s).
Proof.
  intros Hconst Htraj. split.
  - intros state ee d Hin Hee.
    rewrite (GetTrajectory_In GetState this vars Hconst fuel dt s traj state
               Htraj Hin) at 1.
    apply (GetTrajectory_state_legs GetState this vars Hconst
             (t_global_ state) s ee Hee).
  - intros schedule. unfold GetTrajectory.
    apply GetTrajectory_while_with_schedule.
Qed.

Lemma GetTrajectory_contact_is_constant_phase_witness :
  const_queries Scenario.vars0 /\
  exists traj,
    fst (GetTrajectory Scenario.GetState0 4 Scenario.towr0 Scenario.vars0
           (1 / 2) 7) = Some traj /\
    forall state ee d,
      In state traj -> (ee < 2)%nat ->
      nth ee (ee_contact_ state) d
      = fst (Scenario.stance_first_half (t_global_ state) 7).
Proof.
  split; [exact Scenario_const_queries |].
  destruct (GetTrajectory_returns Scenario.GetState0 Scenario.towr0
              Scenario.vars0 Scenario_const_queries 4 (1 / 2) 7)
    as (traj & Htraj & _).
  - lra.
  - simpl. rewrite sample_count_half_second. lia.
  - exists traj. split; [rewrite Htraj; reflexivity |].
    exact (proj1 (GetTrajectory_contact_is_constant_phase Scenario.GetState0
                    Scenario.towr0 Scenario.vars0 (1 / 2) 4 7 traj
                    Scenario_const_queries
                    (f_equal fst Htraj))).
Defined.

(** ** One trajectory per iteration *)

Lemma iterations_length (count : Z) :
  length (iterations count) = Z.to_nat count.
Proof. unfold iterations. rewrite length_map, length_seq. reflexivity. Qed.

Lemma nth_map_iterations {A : Type} (f : Z -> A) (d : A) (count : Z) (i : nat) :
  (i < Z.to_nat count)%nat ->
  nth i (map f (iterations count)) d = f (Z.of_nat i).
Proof.
  intros Hi. unfold iterations. rewrite map_map.
  rewrite (nth_indep _ d (f (Z.of_nat 0)))
    by (rewrite length_map, length_seq; exact Hi).
  rewrite (map_nth (fun x => f (Z.of_nat x))).
  rewrite seq_nth by exact Hi. reflexivity.
Qed.

Section IntermediateSolutions.

Context {Store : Type}.
Variable GetState : StateLinXd -> StateAng3d.
Variable this : @TOWR Store.
Variables (dt : R) (fuel : nat) (s : Store).

Lemma GetIntermediateSolutions_loop (iters : list Z) :
  0 < dt ->
  (sample_count dt (GetTotalTime (params_ this)) < fuel)%nat ->
  (forall iter, In iter iters ->
                const_queries (GetOptVariables_iter (nlp_ this) iter)) ->
  forall trajs,
    for_each iters (GetIntermediateSolutions_iter GetState fuel this dt)
             (Some trajs) s
    = (Some (trajs ++ map (extracted GetState fuel this dt s) iters), s).
Proof.
  intros Hdt Hfuel. induction iters as [| iter iters IH]; intros Hconst trajs.
  - simpl. rewrite app_nil_r. reflexivity.
  - cbn [for_each map]. unfold bind at 1.
    cbn [GetIntermediateSolutions_iter].
    destruct (GetTrajectory_returns GetState this
                (GetOptVariables_iter (nlp_ this) iter)
                (Hconst iter (or_introl eq_refl)) fuel dt s Hdt Hfuel)
      as (traj & Htraj & _).
    unfold bind at 1.
    assert (E : extracted GetState fuel this dt s iter = traj)
      by (unfold extracted; rewrite Htraj; reflexivity).
    rewrite Htraj. cbn [ret].
    rewrite IH by (intros i Hi; apply Hconst; right; exact Hi).
    rewrite <- app_assoc, E. reflexivity.
Qed.

End IntermediateSolutions.

(** C8 (one extracted trajectory per solver iteration, in order).  With a
    positive step, enough fuel and reading queries, the call returns a list
    as long as the iteration count, whose entry [i] is the trajectory that
    [GetTrajectory] extracts from the variables of iteration [i]; the
    objects behind the variables are left as they were. *)
Theorem GetIntermediateSolutions_one_per_iteration {Store : Type}
  (GetState : StateLinXd -> StateAng3d) (this : @TOWR Store) (dt : R)
  (fuel : nat) (s : Store) :
  0 < dt ->
  (sample_count dt (GetTotalTime (params_ this)) < fuel)%nat ->
  (forall iter, (0 <= iter < GetIterationCount (nlp_ this))%Z ->
                const_queries (GetOptVariables_iter (nlp_ this) iter)) ->
  exists trajs,
    GetIntermediateSolutions GetState fuel this dt s = (Some trajs, s) /\
    length trajs = Z.to_nat (GetIterationCount (nlp_ this)) /\
    forall i, (i < length trajs)%nat ->
      fst (GetTrajectory GetState fuel this
             (GetOptVariables_iter (nlp_ this) (Z.of_nat i)) dt s)
      = Some (nth i trajs []).
Proof.
  intros Hdt Hfuel Hconst.
  set (count := GetIterationCount (nlp_ this)) in *.
  assert (Hin : forall iter, In iter (iterations count) ->
                             (0 <= iter < count)%Z).
  { unfold iterations. intros iter H. apply in_map_iff in H.
    destruct H as (i & E & Hi). apply in_seq in Hi. lia. }
  unfold GetIntermediateSolutions. fold count.
  rewrite (GetIntermediateSolutions_loop GetState this dt fuel s
             (iterations count) Hdt Hfuel)
    by (intros iter H; apply Hconst, Hin, H).
  simpl. eexists. split; [reflexivity |].
  rewrite length_map, iterations_length.
  split; [reflexivity |].
  intros i Hi.
  rewrite nth_map_iterations by exact Hi.
  destruct (GetTrajectory_returns GetState this
              (GetOptVariables_iter (nlp_ this) (Z.of_nat i))
              (Hconst (Z.of_nat i) ltac:(lia)) fuel dt s Hdt Hfuel)
    as (traj & Htraj & _).
  unfold extracted. rewrite Htraj. reflexivity.
Qed.

Lemma GetIntermediateSolutions_one_per_iteration_witness :
  0 < 1 / 2 /\
  exists trajs,
    GetIntermediateSolutions Scenario.GetState0 4 Scenario.towr0 (1 / 2) 7
    = (Some trajs, 7) /\
    length trajs = 2%nat.
Proof.
  assert (Hdt : 0 < 1 / 2) by lra.
  split; [exact Hdt |].
  destruct (GetIntermediateSolutions_one_per_iteration Scenario.GetState0
              Scenario.towr0 (1 / 2) 4 7 Hdt)
    as (trajs & Hrun & Hlen & _).
  - simpl. rewrite sample_count_half_second. lia.
  - intros iter _. exact Scenario_const_queries.
  - exists trajs. split; [exact Hrun | exact Hlen].
Defined.

(** ** The terrain *)



Lemma heap_put_same (h : Heap) (p : Ptr) (m : HeightMap) :
  heap_put h p m p = Some m.
Proof. unfold heap_put. rewrite Nat.eqb_refl. reflexivity. Qed.


(** The feet that [SetInitialState] stores are those whose mean height
    [SetParameters] then writes into the terrain. *)
Lemma SetInitialState_footholds {Store : Type}
  (GetEulerZYXAngles : Quaterniond -> Vector3d) (this : @TOWR Store)
  (curr_state : RobotStateCartesian) :
  initial_ee_W_ (SetInitialState GetEulerZYXAngles this curr_state)
  = map p_ (ee_motion_ curr_state) /\
  p_ (ang_e (inital_base_ (SetInitialState GetEulerZYXAngles this curr_state)))
  = Attitude.GetUnique (GetEulerZYXAngles (q (ang (base_ curr_state)))).
Proof. split; reflexivity. Qed.





(** ** Vectors *)


Lemma vec_add_length (a b : VectorXd) :
  length a = length b -> length (vec_add a b) = length a.
Proof.
  revert b. induction a as [| x a IH]; intros [| y b] H; simpl in *;
    try reflexivity; try discriminate.
  f_equal. apply IH. lia.
Qed.






(** ** The quadratic cost *)

Module QuadraticPolynomialCostFacts.
Import QuadraticPolynomialCost.



End QuadraticPolynomialCostFacts.

Import QuadraticPolynomialCost QuadraticPolynomialCostFacts.



(** ** The convexity constraint *)

Import ConvexityConstraint.

(** In a sum of numbers that are not negative, no term is above the
    sum. *)
Lemma term_le_sum (a : VectorXd) :
  Forall (fun x => 0 <= x) a ->
  0 <= fold_right Rplus 0 a /\
  Forall (fun x => x <= fold_right Rplus 0 a) a.
Proof.
  induction 1 as [| x a Hx Ha [IH0 IH]]; cbn [fold_right].
  - split; [lra | constructor].
  - split; [lra |]. constructor; [lra |].
    apply (Forall_impl _ (P := fun y => y <= fold_right Rplus 0 a));
      [intros y Hy; lra | exact IH].
Qed.

(** C7 (rows and bounds of the convexity constraint).  For every sampled
    time [k], the row [k] is the sum of the load fractions of all legs at
    that time (for four legs, [lf + rf + lh + rh]), and its bound has lower
    and upper limit [1]; there is one row and one bound per sampled time.
    Hence the row meets its bound exactly when the fractions of that time
    add up to [1], and then fractions that are not negative are weights of
    a convex combination: none of them is above [1]. *)
Theorem ConvexityConstraint_rows_and_bounds (c : ConvexityConstraint.t)
  (k : nat) (d : Bound) :
  (k < GetNumberOfSegments (ee_load_ c))%nat ->
  let loads := GetLoadValuesIdx (ee_load_ c) k in
  let row := nth k (g_ (UpdateConstraintValues c)) 0 in
  let bound := nth k (bounds_ (UpdateBounds c)) d in
  row = fold_right Rplus 0 loads /\
  (forall lf rf lh rh, loads = [lf; rf; lh; rh] -> row = lf + rf + lh + rh) /\
  bound = mkBound 1 1 /\
  lower_ bound = 1 /\
  upper_ bound = 1 /\
  (lower_ bound <= row <= upper_ bound <-> fold_right Rplus 0 loads = 1) /\
  (lower_ bound <= row <= upper_ bound ->
   Forall (fun l => 0 <= l) loads -> Forall (fun l => l <= 1) loads) /\
  length (g_ (UpdateConstraintValues c)) = GetNumberOfSegments (ee_load_ c) /\
  length (bounds_ (UpdateBounds c)) = GetNumberOfSegments (ee_load_ c).
Proof.
  intros Hk loads row bound.
  assert (Hb : bound = mkBound 1 1).
  { unfold bound, UpdateBounds. cbn [bounds_].
    rewrite (nth_indep _ d (mkBound 1 1))
      by (rewrite repeat_length; exact Hk).
    apply nth_repeat. }
  assert (Hr : row = fold_right Rplus 0 loads).
  { unfold row, loads, UpdateConstraintValues. cbn [g_].
    rewrite (nth_indep _ 0
               ((fun j => vec_sum (GetLoadValuesIdx (ee_load_ c) j)) 0%nat))
      by (rewrite length_map, length_seq; exact Hk).
    rewrite (map_nth (fun j => vec_sum (GetLoadValuesIdx (ee_load_ c) j))).
    rewrite seq_nth by exact Hk. reflexivity. }
  split; [exact Hr |].
  split.
  { intros lf rf lh rh E. rewrite Hr, E. cbn [fold_right]. lra. }
  split; [exact Hb |].
  rewrite Hb. cbn [lower_ upper_].
  split; [reflexivity |]. split; [reflexivity |].
  split; [rewrite Hr; split; intros H; lra |].
  split.
  { intros Hrow Hpos. destruct (term_le_sum loads Hpos) as [_ Hle].
    apply (Forall_impl _ (P := fun y => y <= fold_right Rplus 0 loads));
      [| exact Hle].
    intros y Hy. rewrite Hr in Hrow. lra. }
  split.
  - unfold UpdateConstraintValues. cbn [g_].
    rewrite length_map, length_seq. reflexivity.
  - unfold UpdateBounds. cbn [bounds_]. apply repeat_length.
Qed.

(** The second sampled time of the four-legged scenario: the row of four
    quarters is [1], which meets its bound. *)
Lemma ConvexityConstraint_rows_and_bounds_witness :
  (1 < GetNumberOfSegments (ee_load_ Scenario.convexity0))%nat /\
  nth 1 (g_ (UpdateConstraintValues Scenario.convexity0)) 0 = 1 /\
  nth 1 (bounds_ (UpdateBounds Scenario.convexity0)) (mkBound 0 0)
  = mkBound 1 1.
Proof.
  assert (H : (1 < GetNumberOfSegments (ee_load_ Scenario.convexity0))%nat)
    by (simpl; lia).
  split; [exact H |].
  pose proof (ConvexityConstraint_rows_and_bounds Scenario.convexity0 1
                (mkBound 0 0) H) as (_ & Hg & Hb & _).
  split; [| exact Hb].
  rewrite (Hg (1 / 4) (1 / 4) (1 / 4) (1 / 4) eq_refl). lra.
Defined.

(** ** Replay ([towr_ros.cc]) *)

Lemma at_put_in_range {A : Type} (c : list A) (i : nat) (a : A) :
  (i < length c)%nat -> at_put c i a = Some (set_at c i a).
Proof.
  intros H. unfold at_put.
  destruct (Nat.ltb_spec i (length c)); [reflexivity | lia].
Qed.

Lemma nth_error_in_range {A : Type} (c : list A) (i : nat) :
  (i < length c)%nat -> exists a, nth_error c i = Some a.
Proof.
  intros H. destruct (nth_error c i) as [a |] eqn:E.
  - exists a. reflexivity.
  - apply nth_error_None in E. lia.
Qed.

Section RosFacts.

Context {Store : Type}.
Variable ToXpp : StateLinXd -> StateLinXd.
Variable ToXppEndeffector : nat -> nat -> nat * string.
Variable GetQuaternionBaseToWorld :
  @SplineHolder.NodeSpline Store -> R -> Cmd Store Quaterniond.
Variable GetAngularVelocityInWorld :
  @SplineHolder.NodeSpline Store -> R -> Cmd Store Vector3d.
Variable GetAngularAccelerationInWorld :
  @SplineHolder.NodeSpline Store -> R -> Cmd Store Vector3d.

Variable solution : @SplineHolder.t Store.

Let n_ee : nat := length (SplineHolder.ee_motion_ solution).

Let sized := TowrRos.sized n_ee.

Hypothesis Hwf : TowrRos.well_formed ToXppEndeffector solution.

Lemma ros_ee_returns (t : R) (state : RobotStateCartesian) (ee_towr : nat)
  (s : Store) :
  (ee_towr < n_ee)%nat -> sized state ->
  exists state' s',
    TowrRos.GetTrajectory_ee ToXpp ToXppEndeffector solution n_ee t state
                             ee_towr s = (Some state', s') /\
    sized state' /\ t_global_ state' = t_global_ state.
Proof.
  intros Hee (Hm & Hf & Hc).
  destruct Hwf as (Hlf & Hld & Hmap). fold n_ee in Hlf, Hld, Hmap.
  specialize (Hmap ee_towr Hee).
  destruct (nth_error_in_range (SplineHolder.phase_durations_ solution) ee_towr)
    as [durations Hd]; [lia |].
  destruct (nth_error_in_range (SplineHolder.ee_motion_ solution) ee_towr)
    as [motion Hmo]; [fold n_ee; lia |].
  destruct (nth_error_in_range (SplineHolder.ee_force_ solution) ee_towr)
    as [force Hfo]; [lia |].
  unfold TowrRos.GetTrajectory_ee, bind_throw, lift, bind, ret.
  rewrite Hd, Hmo, Hfo.
  destruct (SplineHolder.IsContactPhase durations t s) as [contact s1].
  rewrite at_put_in_range by lia.
  destruct (SplineHolder.GetPoint motion t s1) as [point s2].
  rewrite at_put_in_range by lia.
  destruct (SplineHolder.GetPoint force t s2) as [load s3].
  rewrite at_put_in_range by lia.
  eexists. eexists. split; [reflexivity |].
  unfold sized, TowrRos.sized.
  cbn [ee_motion_ ee_forces_ ee_contact_ t_global_].
  rewrite !set_at_length. repeat split; assumption.
Qed.

Lemma ros_ees_return (t : R) (ees : list nat) :
  (forall ee_towr, In ee_towr ees -> (ee_towr < n_ee)%nat) ->
  forall (state : RobotStateCartesian) (s : Store),
    sized state ->
    exists state' s',
      TowrRos.GetTrajectory_ees ToXpp ToXppEndeffector solution n_ee t ees
                                state s = (Some state', s') /\
      sized state' /\ t_global_ state' = t_global_ state.
Proof.
  induction ees as [| ee_towr ees IH]; intros Hees state s Hsized.
  - exists state, s. repeat split; try apply Hsized.
  - destruct (ros_ee_returns t state ee_towr s) as (st1 & s1 & E1 & Hs1 & Ht1);
      [apply Hees; left; reflexivity | exact Hsized |].
    destruct (IH (fun e H => Hees e (or_intror H)) st1 s1 Hs1)
      as (st2 & s2 & E2 & Hs2 & Ht2).
    exists st2, s2. split; [| split; [exact Hs2 | congruence]].
    cbn [TowrRos.GetTrajectory_ees]. unfold bind_throw at 1, bind at 1.
    rewrite E1. exact E2.
Qed.

(** No statement of the loop body throws, and the state carries the time
    it was read at. *)
Lemma ros_state_returns (t : R) (s : Store) :
  exists state s',
    TowrRos.GetTrajectory_state ToXpp ToXppEndeffector
      GetQuaternionBaseToWorld GetAngularVelocityInWorld
      GetAngularAccelerationInWorld solution t s = (Some state, s') /\
    t_global_ state = t.
Proof.
  unfold TowrRos.GetTrajectory_state. fold n_ee.
  unfold bind at 1.
  destruct (SplineHolder.GetPoint (SplineHolder.base_linear_ solution) t s)
    as [base_lin s1].
  unfold bind at 1.
  destruct (GetQuaternionBaseToWorld (SplineHolder.base_angular_ solution) t s1)
    as [q' s2].
  unfold bind at 1.
  destruct (GetAngularVelocityInWorld (SplineHolder.base_angular_ solution) t s2)
    as [w' s3].
  unfold bind at 1.
  destruct (GetAngularAccelerationInWorld (SplineHolder.base_angular_ solution)
              t s3) as [wd' s4].
  match goal with
  | |- context [TowrRos.GetTrajectory_ees _ _ _ _ _ _ ?st] =>
      destruct (ros_ees_return t (seq 0 n_ee)
                  (fun e H => proj2 (proj1 (in_seq _ _ _) H)) st s4)
        as (state & s5 & E & _ & _)
  end.
  - unfold sized, TowrRos.sized.
    cbn [ee_motion_ ee_forces_ ee_contact_ RobotStateCartesian_new].
    rewrite !repeat_length. repeat split.
  - unfold bind_throw, bind. rewrite E.
    eexists. eexists. split; reflexivity.
Qed.

(** The replay walks the same times as the extraction of [towr.cc]. *)
Lemma ros_while_times (dt T : R) :
  forall (fuel : nat) (t : R) (acc : RobotStateVec) (s : Store),
    match sample_times dt T fuel t with
    | Some ts =>
        exists traj,
          fst (TowrRos.GetTrajectory_while ToXpp ToXppEndeffector
                 GetQuaternionBaseToWorld GetAngularVelocityInWorld
                 GetAngularAccelerationInWorld solution dt T fuel t acc s)
          = Returned traj /\
          map t_global_ traj = map t_global_ acc ++ ts
    | None =>
        fst (TowrRos.GetTrajectory_while ToXpp ToXppEndeffector
               GetQuaternionBaseToWorld GetAngularVelocityInWorld
               GetAngularAccelerationInWorld solution dt T fuel t acc s)
        = OutOfFuel
    end.
Proof.
  induction fuel as [| fuel IH]; intros t acc s; cbn [sample_times].
  - reflexivity.
  - cbn [TowrRos.GetTrajectory_while].
    destruct (Rle_dec t (T + 1 / 100000)) as [Hle | Hgt].
    + destruct (ros_state_returns t s) as (state & s1 & E & Ht).
      unfold bind at 1. unfold bind at 1. rewrite E.
      specialize (IH (t + dt) (acc ++ [state]) s1).
      destruct (sample_times dt T fuel (t + dt)) as [ts |].
      * destruct IH as (traj & Hr & Hts). exists traj.
        split; [exact Hr |].
        rewrite Hts, map_app, <- app_assoc. simpl. rewrite Ht. reflexivity.
      * exact IH.
    + exists acc. split; [reflexivity | rewrite app_nil_r; reflexivity].
Qed.

End RosFacts.

Section RosIterations.

Context {Store : Type}.
Variable ToXpp : StateLinXd -> StateLinXd.
Variable ToXppEndeffector : nat -> nat -> nat * string.
Variable GetQuaternionBaseToWorld :
  @SplineHolder.NodeSpline Store -> R -> Cmd Store Quaterniond.
Variable GetAngularVelocityInWorld :
  @SplineHolder.NodeSpline Store -> R -> Cmd Store Vector3d.
Variable GetAngularAccelerationInWorld :
  @SplineHolder.NodeSpline Store -> R -> Cmd Store Vector3d.
Variable this : @TowrRos.t Store.
Variable fuel : nat.

Let GetTrajectory :=
  TowrRos.GetTrajectory ToXpp ToXppEndeffector GetQuaternionBaseToWorld
    GetAngularVelocityInWorld GetAngularAccelerationInWorld fuel this.

Let body :=
  TowrRos.GetIntermediateSolutions_iter ToXpp ToXppEndeffector
    GetQuaternionBaseToWorld GetAngularVelocityInWorld
    GetAngularAccelerationInWorld fuel this.

Let Replay :=
  TowrRos.Replay ToXpp ToXppEndeffector GetQuaternionBaseToWorld
    GetAngularVelocityInWorld GetAngularAccelerationInWorld fuel this.

(** With the step of the constructor, the replay of a well-formed
    solution returns, with one state per multiple of the step up to the
    total time read from the base spline. *)
Lemma TowrRos_GetTrajectory_walks_time (s : Store) :
  let solution := TowrRos.GetSolution (TowrRos.towr_ this) in
  let dt := TowrRos.visualization_dt_ this in
  let T := fst (SplineHolder.GetTotalTime
                  (SplineHolder.base_linear_ solution) s) in
  TowrRos.well_formed ToXppEndeffector solution ->
  0 < dt ->
  (sample_count dt T < fuel)%nat ->
  exists traj,
    fst (GetTrajectory s) = Returned traj /\
    length traj = sample_count dt T /\
    forall k d, (k < sample_count dt T)%nat ->
                t_global_ (nth k traj d) = INR k * dt.
Proof.
  intros solution dt T Hwf Hdt Hfuel.
  unfold GetTrajectory, TowrRos.GetTrajectory. fold solution. fold dt.
  unfold bind. subst T.
  destruct (SplineHolder.GetTotalTime (SplineHolder.base_linear_ solution) s)
    as [T s1].
  cbn [fst] in *.
  destruct (sample_times_total dt T fuel Hdt Hfuel) as (ts & Hts & Hlen & Hnth).
  pose proof (ros_while_times ToXpp ToXppEndeffector GetQuaternionBaseToWorld
                GetAngularVelocityInWorld GetAngularAccelerationInWorld
                solution Hwf dt T fuel 0 [] s1) as H.
  rewrite Hts in H. destruct H as (traj & Hr & Htimes). simpl in Htimes.
  exists traj. split; [exact Hr |].
  assert (Hl : length traj = sample_count dt T)
    by (rewrite <- Hlen, <- Htimes, length_map; reflexivity).
  split; [exact Hl |].
  intros k d Hk.
  rewrite <- (map_nth t_global_), Htimes.
  rewrite (nth_indep ts (t_global_ d) 0) by lia.
  apply Hnth. exact Hk.
Qed.

(** The step set by the constructor is positive. *)
Lemma TowrRos_new_step (towr : @TowrRos.TOWR Store) :
  0 < TowrRos.visualization_dt_ (TowrRos.TowrRos_new towr).
Proof. simpl. lra. Qed.

Lemma ros_for_each_Thrown (iters : list Z) (s : Store) :
  fst (for_each iters body Thrown s) = Thrown.
Proof. induction iters as [| iter iters IH]; simpl; [reflexivity | apply IH]. Qed.

Lemma ros_for_each_OutOfFuel (iters : list Z) (s : Store) :
  fst (for_each iters body OutOfFuel s) = OutOfFuel.
Proof. induction iters as [| iter iters IH]; simpl; [reflexivity | apply IH]. Qed.

Lemma ros_for_each_replay (iters : list Z) :
  forall (acc trajs : list RobotStateVec) (s s' : Store),
    for_each iters body (Returned acc) s = (Returned trajs, s') ->
    exists new, trajs = acc ++ new /\ Replay iters s new s'.
Proof.
  induction iters as [| iter iters IH]; intros acc trajs s s' H.
  - simpl in H. injection H as H1 H2. subst.
    exists []. split; [rewrite app_nil_r; reflexivity | constructor].
  - cbn [for_each] in H. unfold bind at 1 in H.
    unfold body at 1 in H. cbn [TowrRos.GetIntermediateSolutions_iter] in H.
    unfold bind at 1 in H.
    destruct (TowrRos.SetSolution (TowrRos.towr_ this) iter s) as [u s1] eqn:E1.
    unfold bind at 1 in H. fold GetTrajectory in H.
    destruct (GetTrajectory s1) as [r s2] eqn:E2.
    cbn [ret] in H.
    destruct r as [trajectory | |].
    + fold body in H. apply IH in H. destruct H as (new & Hn & Hr).
      exists (trajectory :: new). split.
      * rewrite Hn, <- app_assoc. reflexivity.
      * apply (TowrRos.Replay_iter _ _ _ _ _ _ _ iter iters s s1 s2 s' trajectory new).
        -- rewrite E1. reflexivity.
        -- exact E2.
        -- exact Hr.
    + fold body in H. pose proof (ros_for_each_Thrown iters s2) as F.
      rewrite H in F. discriminate.
    + fold body in H. pose proof (ros_for_each_OutOfFuel iters s2) as F.
      rewrite H in F. discriminate.
Qed.

Lemma ros_replay_for_each (iters : list Z) (s s' : Store)
  (new : list RobotStateVec) :
  Replay iters s new s' ->
  forall acc, for_each iters body (Returned acc) s = (Returned (acc ++ new), s').
Proof.
  induction 1 as [s | iter iters s s1 s2 s3 trajectory trajs E1 E2 _ IH];
    intros acc.
  - simpl. rewrite app_nil_r. reflexivity.
  - cbn [for_each]. unfold bind at 1.
    unfold body at 1. cbn [TowrRos.GetIntermediateSolutions_iter].
    unfold bind at 1.
    destruct (TowrRos.SetSolution (TowrRos.towr_ this) iter s) as [u s1'].
    simpl in E1. subst s1'.
    unfold bind at 1. rewrite E2. cbn [ret].
    fold body. rewrite IH, <- app_assoc. reflexivity.
Qed.

(** With a positive step, a well-formed solution and enough fuel for the
    total time of every iteration, the replay of all iterations returns. *)
Lemma TowrRos_GetIntermediateSolutions_returns (s : Store) :
  let solution := TowrRos.GetSolution (TowrRos.towr_ this) in
  let dt := TowrRos.visualization_dt_ this in
  TowrRos.well_formed ToXppEndeffector solution ->
  0 < dt ->
  (forall s0,
      (sample_count dt
         (fst (SplineHolder.GetTotalTime
                 (SplineHolder.base_linear_ solution) s0)) < fuel)%nat) ->
  forall iters acc, exists trajs s',
    for_each iters body (Returned acc) s = (Returned trajs, s').
Proof.
  intros solution dt Hwf Hdt Hfuel iters. revert s.
  induction iters as [| iter iters IH]; intros s acc.
  - exists acc, s. reflexivity.
  - cbn [for_each]. unfold bind at 1.
    unfold body at 1. cbn [TowrRos.GetIntermediateSolutions_iter].
    unfold bind at 1.
    destruct (TowrRos.SetSolution (TowrRos.towr_ this) iter s) as [u s1].
    unfold bind at 1.
    destruct (TowrRos_GetTrajectory_walks_time s1 Hwf Hdt (Hfuel s1))
      as (traj & Hr & _).
    fold GetTrajectory.
    destruct (GetTrajectory s1) as [r s2]. simpl in Hr. subst r.
    cbn [ret]. fold body. apply IH.
Qed.

Lemma ros_replay_length (iters : list Z) (s s' : Store)
  (trajs : list RobotStateVec) :
  Replay iters s trajs s' -> length trajs = length iters.
Proof. induction 1; simpl; congruence. Qed.

(** [TowrRos::GetIntermediateSolutions]: when it returns, it returns one
    trajectory per iteration, in order, each extracted right after the
    variables of its iteration were written. *)
Lemma TowrRos_GetIntermediateSolutions_one_per_iteration (s s' : Store)
  (trajs : list RobotStateVec) :
  let count := TowrRos.GetIterationCount (TowrRos.towr_ this) in
  (TowrRos.GetIntermediateSolutions ToXpp ToXppEndeffector
     GetQuaternionBaseToWorld GetAngularVelocityInWorld
     GetAngularAccelerationInWorld fuel this s = (Returned trajs, s')
   <-> Replay (iterations count) s trajs s') /\
  (Replay (iterations count) s trajs s' -> length trajs = Z.to_nat count).
Proof.
  intros count. split; [split |].
  - intros H. apply ros_for_each_replay in H.
    destruct H as (new & Hn & Hr). simpl in Hn. subst new. exact Hr.
  - intros H. apply (ros_replay_for_each _ _ _ _ H []).
  - intros H. rewrite (ros_replay_length _ _ _ _ H). apply iterations_length.
Qed.

End RosIterations.

(** * Further properties of the code *)

(** ** Attitude normalization *)

(** X1: a second call of [GetUnique] changes nothing when the pitch is
    less than three quarter turns away from zero (up to the tolerance):
    one fold of the pitch is enough there. *)
Theorem GetUnique_idempotent_within_one_fold (zyx : Vector3d) :
  - 3 * PI / 2 + tol < vy zyx < 3 * PI / 2 - tol ->
  GetUnique (GetUnique zyx) = GetUnique zyx.
Proof.
  exact (GetUnique_idempotent_one_fold zyx).
Qed.

Lemma GetUnique_idempotent_within_one_fold_witness :
  - 3 * PI / 2 + tol < 2 < 3 * PI / 2 - tol /\
  GetUnique (GetUnique (mkVector3d 1 2 (-1))) = GetUnique (mkVector3d 1 2 (-1)).
Proof.
  assert (H : - 3 * PI / 2 + tol < 2 < 3 * PI / 2 - tol).
  { rewrite tol_value. pose proof PI_bounds. lra. }
  split; [exact H |].
  exact (GetUnique_idempotent_within_one_fold (mkVector3d 1 2 (-1)) H).
Defined.




Lemma sin_flip (a : R) : sin (flip a) = - sin a.
Proof.
  rewrite flip_value. destruct (Rlt_dec a 0).
  - apply neg_sin.
  - rewrite sin_minus, sin_PI, cos_PI. ring.
Qed.

Lemma cos_flip (a : R) : cos (flip a) = - cos a.
Proof.
  rewrite flip_value. destruct (Rlt_dec a 0).
  - apply neg_cos.
  - rewrite cos_minus, sin_PI, cos_PI. ring.
Qed.

(** X4: outside the two tolerance bands the returned triple stands for the
    same rotation as the given one, whatever the given angles are: the fold
    of the pitch and the half turns of the outer angles cancel in every
    entry of the matrix. *)
Theorem GetUnique_same_rotation (zyx : Vector3d) :
  ~ in_lower_band (vy zyx) -> ~ in_upper_band (vy zyx) ->
  RotationZYX (GetUnique zyx) = RotationZYX zyx.
Proof.
  intros Hl Hu.
  destruct (pitch_cases (vy zyx)) as [H | [H | [H | [H | H]]]];
    try contradiction.
  - rewrite (GetUnique_below zyx H). destruct zyx as [x y z].
    unfold mkVector3d, RotationZYX. cbn [vx vy vz].
    rewrite !sin_flip, !cos_flip, sin_neg, cos_neg, neg_sin, neg_cos.
    repeat (f_equal; try ring).
  - rewrite (GetUnique_inside zyx H). reflexivity.
  - rewrite (GetUnique_above zyx H). destruct zyx as [x y z].
    unfold mkVector3d, RotationZYX. cbn [vx vy vz].
    rewrite !sin_flip, !cos_flip, sin_neg, cos_neg.
    rewrite sin_minus, cos_minus, sin_PI, cos_PI.
    repeat (f_equal; try ring).
Qed.

Lemma GetUnique_same_rotation_witness :
  ~ in_lower_band 2 /\ ~ in_upper_band 2 /\
  RotationZYX (GetUnique (mkVector3d 1 2 (-1)))
  = RotationZYX (mkVector3d 1 2 (-1)).
Proof.
  pose proof PI_bounds as [Hlo Hhi].
  assert (Hl : ~ in_lower_band 2)
    by (unfold in_lower_band; rewrite tol_value; lra).
  assert (Hu : ~ in_upper_band 2)
    by (unfold in_upper_band; rewrite tol_value; lra).
  split; [exact Hl |]. split; [exact Hu |].
  exact (GetUnique_same_rotation (mkVector3d 1 2 (-1)) Hl Hu).
Defined.

(** X5: run in binary64, a pitch that is not a number fails every
    comparison and takes the last branch: the returned pitch is not a
    number either, and both outer angles get the half turn.  An infinite
    pitch comes back as the opposite infinity.  Nothing is signalled. *)
Theorem GetUnique_binary64_non_finite_pitch (x z : float) :
  GetUnique_binary64 (mkVector3 x nan z)
  = mkVector3 (flip_on binary64 x) nan (flip_on binary64 z) /\
  GetUnique_binary64 (mkVector3 x infinity z)
  = mkVector3 (flip_on binary64 x) neg_infinity (flip_on binary64 z) /\
  GetUnique_binary64 (mkVector3 x neg_infinity z)
  = mkVector3 (flip_on binary64 x) infinity (flip_on binary64 z).
Proof. repeat split. Qed.

(** ** Terrain height from the footholds *)

(** X7: with no initial foothold (no call of [SetInitialState] yet, or a
    robot state without endeffectors) the loop over the footholds does not
    run and [SetParameters] puts the ground at height [0], whatever the
    terrain held before. *)
Theorem SetParameters_no_footholds {Store : Type}
  (this : @TOWR Store) (final_base : State3dEuler) (total_time : R)
  (model : RobotModel) (terrain : Ptr) (h : Heap) (m : HeightMap) :
  h terrain = Some m ->
  initial_ee_W_ this = [] ->
  exists this' h',
    SetParameters this final_base total_time model terrain h = Some (this', h') /\
    h' terrain
    = Some (mkHeightMap 0 (friction_coeff_ m) (surface_normal_ m)).
Proof.
  intros Hm He.
  unfold SetParameters, SetTerrainHeightFromAvgFootholdHeight.
  cbn [initial_ee_W_]. rewrite Hm, He.
  eexists. eexists. split; [reflexivity |].
  rewrite heap_put_same. reflexivity.
Qed.

Lemma SetParameters_no_footholds_witness :
  exists this' h',
    SetParameters
      (mkTOWR (inital_base_ Scenario.towr0) (final_base_ Scenario.towr0) []
              (params_ Scenario.towr0) (model_ Scenario.towr0) None
              (nlp_ Scenario.towr0))
      (mkState3dEuler StateLinXd_Zero StateLinXd_Zero) 1
      (mkRobotModel [] Vector3d_Zero 1) 0%nat
      (heap_put Scenario.heap0 0%nat (mkHeightMap 5 1 Vector3d_Zero))
    = Some (this', h') /\
    h' 0%nat = Some (mkHeightMap 0 1 Vector3d_Zero).
Proof.
  apply (SetParameters_no_footholds
           (mkTOWR (inital_base_ Scenario.towr0) (final_base_ Scenario.towr0) []
                   (params_ Scenario.towr0) (model_ Scenario.towr0) None
                   (nlp_ Scenario.towr0))
           (mkState3dEuler StateLinXd_Zero StateLinXd_Zero) 1
           (mkRobotModel [] Vector3d_Zero 1) 0%nat
           (heap_put Scenario.heap0 0%nat (mkHeightMap 5 1 Vector3d_Zero))
           (mkHeightMap 5 1 Vector3d_Zero)).
  - apply heap_put_same.
  - reflexivity.
Defined.



(** X9: [SetParameters] is idempotent: a second call with the same
    arguments, on the object and the terrains the first call left, changes
    neither. *)
Theorem SetParameters_idempotent {Store : Type}
  (this this1 : @TOWR Store) (final_base : State3dEuler) (total_time : R)
  (model : RobotModel) (terrain : Ptr) (h h1 : Heap) :
  SetParameters this final_base total_time model terrain h = Some (this1, h1) ->
  exists h2,
    SetParameters this1 final_base total_time model terrain h1
    = Some (this1, h2) /\
    forall p, h2 p = h1 p.
Proof.
  unfold SetParameters, SetTerrainHeightFromAvgFootholdHeight.
  cbn [initial_ee_W_].
  destruct (h terrain) as [m |] eqn:Hm; [| discriminate].
  intros E. injection E as E1 E2. subst this1 h1.
  cbn [initial_ee_W_ inital_base_ nlp_ params_].
  rewrite heap_put_same.
  eexists. split; [reflexivity |].
  intros p. unfold heap_put.
  destruct (Nat.eqb p terrain); reflexivity.
Qed.

Lemma SetParameters_idempotent_witness :
  exists this1 h1 h2,
    SetParameters Scenario.towr0
                  (mkState3dEuler StateLinXd_Zero StateLinXd_Zero) 1
                  (mkRobotModel [] Vector3d_Zero 1) 0%nat Scenario.heap0
    = Some (this1, h1) /\
    SetParameters this1
                  (mkState3dEuler StateLinXd_Zero StateLinXd_Zero) 1
                  (mkRobotModel [] Vector3d_Zero 1) 0%nat h1
    = Some (this1, h2) /\
    forall p, h2 p = h1 p.
Proof.
  assert (H : exists this1 h1,
             SetParameters Scenario.towr0
               (mkState3dEuler StateLinXd_Zero StateLinXd_Zero) 1
               (mkRobotModel [] Vector3d_Zero 1) 0%nat Scenario.heap0
             = Some (this1, h1))
    by (eexists; eexists; reflexivity).
  destruct H as (this1 & h1 & Hrun).
  destruct (SetParameters_idempotent Scenario.towr0 this1
              (mkState3dEuler StateLinXd_Zero StateLinXd_Zero) 1
              (mkRobotModel [] Vector3d_Zero 1) 0%nat Scenario.heap0 h1 Hrun)
    as (h2 & Hrun2 & Heq).
  exists this1, h1, h2. split; [exact Hrun |]. split; [exact Hrun2 | exact Heq].
Defined.

(** ** Extraction, whatever the queries do *)

Lemma for_each_invariant {Store A B : Type} (P : B -> Prop) (l : list A)
  (body : B -> A -> Cmd Store B) :
  (forall b a s, P b -> P (fst (body b a s))) ->
  forall b s, P b -> P (fst (for_each l body b s)).
Proof.
  intros Hbody. induction l as [| a l IH]; intros b s Hb.
  - exact Hb.
  - cbn [for_each]. unfold bind.
    specialize (Hbody b a s Hb).
    destruct (body b a s) as [b' s']. apply IH. exact Hbody.
Qed.

Lemma sample_times_never (dt T : R) :
  dt <= 0 ->
  forall (fuel : nat) (t : R),
    t <= T + 1 / 100000 -> sample_times dt T fuel t = None.
Proof.
  intros Hdt. induction fuel as [| fuel IH]; intros t Ht; simpl.
  - reflexivity.
  - destruct (Rle_dec t (T + 1 / 100000)) as [Hle | Hgt]; [| lra].
    rewrite IH by lra. reflexivity.
Qed.

Section ExtractionAlways.

Context {Store : Type}.
Variable GetState : StateLinXd -> StateAng3d.
Variable this : @TOWR Store.
Variable vars : @VariablesComp Store.

Lemma GetTrajectory_ee_sized (n : nat) (t : R) (state : RobotStateCartesian)
  (ee : EndeffectorID) (s : Store) :
  TowrRos.sized n state ->
  TowrRos.sized n (fst (GetTrajectory_ee vars t state ee s)).
Proof.
  intros (Hm & Hf & Hc). unfold GetTrajectory_ee, bind.
  destruct (IsConstantPhase (comp_ee_motion vars ee) t s) as [contact s1].
  destruct (GetPoint (as_Spline (comp_ee_motion vars ee)) t s1) as [motion s2].
  destruct (GetPoint (comp_ee_force vars ee) t s2) as [force s3].
  unfold TowrRos.sized. cbn [fst ret ee_motion_ ee_forces_ ee_contact_].
  rewrite !set_at_length. repeat split; assumption.
Qed.

Lemma GetTrajectory_state_sized (t : R) (s : Store) :
  TowrRos.sized (GetEECount (initial_ee_W_ this))
                (fst (GetTrajectory_state GetState this vars t s)).
Proof.
  unfold GetTrajectory_state, bind.
  destruct (GetPoint (comp_base_linear vars) t s) as [base_lin s1].
  destruct (GetPoint (comp_base_angular vars) t s1) as [base_ang s2].
  match goal with
  | |- context [for_each ?l ?body ?b s2] =>
      pose proof (for_each_invariant
                    (TowrRos.sized (GetEECount (initial_ee_W_ this)))
                    l body
                    (fun st i s0 => GetTrajectory_ee_sized _ t st i s0)
                    b s2) as H;
      destruct (for_each l body b s2) as [state s3]
  end.
  cbn [fst ret] in *. unfold TowrRos.sized in *.
  cbn [ee_motion_ ee_forces_ ee_contact_ RobotStateCartesian_new] in *.
  apply H. rewrite !repeat_length. repeat split.
Qed.

Lemma GetTrajectory_while_Forall (P : RobotStateCartesian -> Prop) (dt T : R) :
  (forall t s, P (fst (GetTrajectory_state GetState this vars t s))) ->
  forall (fuel : nat) (t : R) (acc : RobotStateVec) (s : Store)
         (traj : RobotStateVec),
    Forall P acc ->
    fst (GetTrajectory_while GetState this vars dt T fuel t acc s) = Some traj ->
    Forall P traj.
Proof.
  intros HP. induction fuel as [| fuel IH]; intros t acc s traj Hacc; simpl.
  - discriminate.
  - destruct (Rle_dec t (T + 1 / 100000)) as [Hle | Hgt].
    + unfold bind at 1. specialize (HP t s).
      destruct (GetTrajectory_state GetState this vars t s) as [state s1].
      apply IH. apply Forall_app. split; [exact Hacc |].
      constructor; [exact HP | constructor].
    + simpl. intros E. injection E as E. subst traj. exact Hacc.
Qed.

(** The times of a returned trajectory are those of the walk. *)
Lemma GetTrajectory_times (fuel : nat) (dt : R) (s : Store)
  (traj : RobotStateVec) :
  fst (GetTrajectory GetState fuel this vars dt s) = Some traj ->
  sample_times dt (GetTotalTime (params_ this)) fuel 0
  = Some (map t_global_ traj).
Proof.
  intros E.
  pose proof (GetTrajectory_while_times GetState this vars dt
                (GetTotalTime (params_ this)) fuel 0 [] s) as H.
  unfold GetTrajectory in E. rewrite E in H. simpl in H.
  destruct (sample_times dt (GetTotalTime (params_ this)) fuel 0) as [ts |];
    simpl in H; [| discriminate].
  injection H as H. subst ts. reflexivity.
Qed.

Lemma GetTrajectory_no_times (fuel : nat) (dt : R) (s : Store) :
  sample_times dt (GetTotalTime (params_ this)) fuel 0 = None ->
  fst (GetTrajectory GetState fuel this vars dt s) = None.
Proof.
  intros E.
  pose proof (GetTrajectory_while_times GetState this vars dt
                (GetTotalTime (params_ this)) fuel 0 [] s) as H.
  unfold GetTrajectory. rewrite E in H.
  destruct (fst (GetTrajectory_while GetState this vars dt
                   (GetTotalTime (params_ this)) fuel 0 [] s));
    [discriminate | reflexivity].
Qed.

End ExtractionAlways.

(** X10: every state that [GetTrajectory] returns has exactly as many
    motion, force and contact entries as there are initial footholds,
    whatever the queries through [vars] do. *)
Theorem GetTrajectory_states_sized {Store : Type}
  (GetState : StateLinXd -> StateAng3d) (this : @TOWR Store)
  (vars : @VariablesComp Store) (dt : R) (fuel : nat) (s : Store)
  (traj : RobotStateVec) (state : RobotStateCartesian) :
  fst (GetTrajectory GetState fuel this vars dt s) = Some traj ->
  In state traj ->
  length (ee_motion_ state) = GetEECount (initial_ee_W_ this) /\
  length (ee_forces_ state) = GetEECount (initial_ee_W_ this) /\
  length (ee_contact_ state) = GetEECount (initial_ee_W_ this).
Proof.
  intros E Hin.
  pose proof (GetTrajectory_while_Forall GetState this vars
                (TowrRos.sized (GetEECount (initial_ee_W_ this)))
                dt (GetTotalTime (params_ this))
                (GetTrajectory_state_sized GetState this vars)
                fuel 0 [] s traj (Forall_nil _) E) as H.
  rewrite Forall_forall in H. exact (H state Hin).
Qed.

(** X11: a step that is not positive never ends the loop when the total
    time is not negative (up to the slack): whatever the fuel, the model
    has no result, that is [GetTrajectory] does not return. *)
Theorem GetTrajectory_never_returns {Store : Type}
  (GetState : StateLinXd -> StateAng3d) (this : @TOWR Store)
  (vars : @VariablesComp Store) (dt : R) (fuel : nat) (s : Store) :
  dt <= 0 ->
  0 <= GetTotalTime (params_ this) + 1 / 100000 ->
  fst (GetTrajectory GetState fuel this vars dt s) = None.
Proof.
  intros Hdt HT. apply GetTrajectory_no_times.
  apply sample_times_never; assumption.
Qed.

(** X12: whatever the arithmetic of [double] is taken to be, the loop
    returns the empty trajectory exactly when the total time fails the
    first test, [0 <= T + 1e-5] computed with the operations of the code;
    then no statement of the body runs and the objects behind the
    variables are untouched, for any step.  ([TOWR::GetTrajectory] is the
    loop over the reals with its own body,
    [GetTrajectory_while_is_loop].) *)
Theorem GetTrajectory_empty_iff_first_test_fails {N : Type} (D : Double N)
  (lit_1e_5 : N) {Store A : Type} (state_at : N -> Cmd Store A) (dt T : N)
  (fuel : nat) (s : Store) :
  (fst (GetTrajectory_while_on D lit_1e_5 state_at dt T (S fuel) (lit_0 D) [] s)
   = Some []
   <-> le D (lit_0 D) (add D T lit_1e_5) = false) /\
  (le D (lit_0 D) (add D T lit_1e_5) = false ->
   GetTrajectory_while_on D lit_1e_5 state_at dt T (S fuel) (lit_0 D) [] s
   = (Some [], s)).
Proof.
  assert (Hempty : le D (lit_0 D) (add D T lit_1e_5) = false ->
                   GetTrajectory_while_on D lit_1e_5 state_at dt T (S fuel)
                                          (lit_0 D) [] s = (Some [], s)).
  { intros H. cbn [GetTrajectory_while_on]. rewrite H. reflexivity. }
  split; [| exact Hempty].
  split.
  - intros E.
    destruct (le D (lit_0 D) (add D T lit_1e_5)) eqn:Hle; [| reflexivity].
    rewrite (GetTrajectory_while_on_step D lit_1e_5 state_at dt T fuel
               (lit_0 D) s Hle) in E.
    destruct (fst (GetTrajectory_while_on D lit_1e_5 state_at dt T fuel
                     (add D (lit_0 D) dt) [] (snd (state_at (lit_0 D) s))));
      discriminate.
  - intros H. rewrite (Hempty H). reflexivity.
Qed.

Lemma GetTrajectory_states_sized_witness :
  exists traj,
    fst (GetTrajectory Scenario.GetState0 4 Scenario.towr0 Scenario.vars0
           (1 / 2) 7) = Some traj /\
    forall state, In state traj ->
      length (ee_motion_ state) = 2%nat /\
      length (ee_forces_ state) = 2%nat /\
      length (ee_contact_ state) = 2%nat.
Proof.
  destruct (GetTrajectory_returns Scenario.GetState0 Scenario.towr0
              Scenario.vars0 Scenario_const_queries 4 (1 / 2) 7)
    as (traj & Htraj & _).
  - lra.
  - simpl. rewrite sample_count_half_second. lia.
  - exists traj. split; [rewrite Htraj; reflexivity |].
    intros state Hin.
    exact (GetTrajectory_states_sized Scenario.GetState0 Scenario.towr0
             Scenario.vars0 (1 / 2) 4 7 traj state (f_equal fst Htraj) Hin).
Defined.

Lemma GetTrajectory_never_returns_witness :
  0 <= 0 /\
  fst (GetTrajectory Scenario.GetState0 1000 Scenario.towr0 Scenario.vars0
         0 7) = None.
Proof.
  split; [lra |].
  apply (GetTrajectory_never_returns Scenario.GetState0 Scenario.towr0
           Scenario.vars0 0 1000 7); simpl; lra.
Defined.

(** In binary64: a total time of minus a thousandth gives no state; the
    binary64 number nearest to [-1e-5] passes the first test (the sum with
    [1e-5] is [0]) and gives one. *)
Lemma GetTrajectory_empty_iff_first_test_fails_witness :
  GetTrajectory_while_on binary64 binary64_1e_5 (fun t => ret t) 0.5%float
    (-0x1.0624dd2f1a9fcp-10)%float 1 0%float [] tt = (Some [], tt) /\
  fst (GetTrajectory_while_on binary64 binary64_1e_5 (fun t => ret t)
         0.5%float (-0x1.4f8b588e368f1p-17)%float 2 0%float [] tt)
  = Some [0%float].
Proof.
  split.
  - apply (proj2 (GetTrajectory_empty_iff_first_test_fails binary64
                    binary64_1e_5 (fun t => @ret unit float t) 0.5%float
                    (-0x1.0624dd2f1a9fcp-10)%float 0 tt)).
    vm_compute. reflexivity.
  - vm_compute. reflexivity.
Defined.

(** ** Extraction with reading queries: what a state holds *)

Section ExtractionFields.

Context {Store : Type}.
Variable GetState : StateLinXd -> StateAng3d.
Variable this : @TOWR Store.
Variable vars : @VariablesComp Store.
Hypothesis Hconst : const_queries vars.

Lemma GetTrajectory_state_base (t : R) (s : Store) :
  base_ (fst (GetTrajectory_state GetState this vars t s))
  = mkState3d (fst (GetPoint (comp_base_linear vars) t s))
              (GetState (fst (GetPoint (comp_base_angular vars) t s))).
Proof.
  destruct Hconst as (Hl & Ha & _).
  unfold GetTrajectory_state.
  rewrite bind_read_only_run by apply Hl.
  rewrite bind_read_only_run by apply Ha.
  unfold bind.
  match goal with
  | |- context [for_each ?l ?body ?b s] =>
      pose proof (for_each_invariant (fun st => base_ st = base_ b) l body) as H;
      specialize (H (fun st i s0 (E : base_ st = base_ b) =>
                       eq_trans (f_equal base_
                                   (f_equal fst
                                      (GetTrajectory_ee_run vars Hconst t st i s0)))
                                E)
                    b s eq_refl);
      destruct (for_each l body b s) as [state s3]
  end.
  cbn [fst ret base_] in *. exact H.
Qed.

End ExtractionFields.

(** X13: with reading queries, each returned state holds what the splines
    give at the time of the state: the linear base state is the point of
    the base-linear spline, the angular base state is the conversion of the
    point of the base-angular spline, and for every leg the motion is the
    point of its motion spline and the force is the position part of the
    point of its force spline. *)
Theorem GetTrajectory_state_fields {Store : Type}
  (GetState : StateLinXd -> StateAng3d) (this : @TOWR Store)
  (vars : @VariablesComp Store) (dt : R) (fuel : nat) (s : Store)
  (traj : RobotStateVec) (state : RobotStateCartesian) :
  const_queries vars ->
  fst (GetTrajectory GetState fuel this vars dt s) = Some traj ->
  In state traj ->
  let t := t_global_ state in
  lin (base_ state) = fst (GetPoint (comp_base_linear vars) t s) /\
  ang (base_ state) = GetState (fst (GetPoint (comp_base_angular vars) t s)) /\
  forall ee d1 d2,
    (ee < GetEECount (initial_ee_W_ this))%nat ->
    nth ee (ee_motion_ state) d1
    = fst (GetPoint (as_Spline (comp_ee_motion vars ee)) t s) /\
    nth ee (ee_forces_ state) d2
    = p_ (fst (GetPoint (comp_ee_force vars ee) t s)).
Proof.
  intros Hconst Htraj Hin t.
  pose proof (GetTrajectory_In GetState this vars Hconst fuel dt s traj state
                Htraj Hin) as E.
  fold t in E.
  split; [| split].
  - rewrite E at 1. rewrite GetTrajectory_state_base by exact Hconst.
    reflexivity.
  - rewrite E at 1. rewrite GetTrajectory_state_base by exact Hconst.
    reflexivity.
  - intros ee d1 d2 Hee.
    destruct (GetTrajectory_state_legs GetState this vars Hconst t s ee Hee)
      as (_ & Hm & Hf).
    split.
    + rewrite E at 1. apply Hm.
    + rewrite E at 1. apply Hf.
Qed.

Lemma GetTrajectory_state_fields_witness :
  const_queries Scenario.vars0 /\
  exists traj,
    fst (GetTrajectory Scenario.GetState0 4 Scenario.towr0 Scenario.vars0
           (1 / 2) 7) = Some traj /\
    forall state, In state traj ->
      lin (base_ state) = fst (Scenario.line (t_global_ state) 7).
Proof.
  split; [exact Scenario_const_queries |].
  destruct (GetTrajectory_returns Scenario.GetState0 Scenario.towr0
              Scenario.vars0 Scenario_const_queries 4 (1 / 2) 7)
    as (traj & Htraj & _).
  - lra.
  - simpl. rewrite sample_count_half_second. lia.
  - exists traj. split; [rewrite Htraj; reflexivity |].
    intros state Hin.
    exact (proj1 (GetTrajectory_state_fields Scenario.GetState0 Scenario.towr0
                    Scenario.vars0 (1 / 2) 4 7 traj state
                    Scenario_const_queries (f_equal fst Htraj) Hin)).
Defined.

(** ** The ends of the walk *)

Lemma last_map {A B : Type} (f : A -> B) (d : A) (l : list A) :
  last (map f l) (f d) = f (last l d).
Proof.
  induction l as [| a l IH]; [reflexivity |].
  destruct l as [| b l]; [reflexivity |].
  change (last (map f (a :: b :: l)) (f d)) with (last (map f (b :: l)) (f d)).
  change (last (a :: b :: l) d) with (last (b :: l) d).
  exact IH.
Qed.

(** X14: whatever the arithmetic of [double] is taken to be, when the
    total time passes the first test and the loop returns, the trajectory
    is not empty, its first state is at time [0], its last state is at a
    time that passes the test [t <= T + 1e-5], and that time plus [dt]
    fails it: the walk stops at the last step that fits, all computed
    with the operations of the code.  ([TOWR::GetTrajectory] is the loop
    over the reals with its own body, [GetTrajectory_while_is_loop].) *)
Theorem GetTrajectory_first_and_last {N : Type} (D : Double N)
  (lit_1e_5 : N) {Store A : Type} (state_at : N -> Cmd Store A)
  (time_of : A -> N) (dt T : N) (fuel : nat) (s : Store) (traj : list A)
  (d : A) :
  (forall t s0, time_of (fst (state_at t s0)) = t) ->
  le D (lit_0 D) (add D T lit_1e_5) = true ->
  fst (GetTrajectory_while_on D lit_1e_5 state_at dt T fuel (lit_0 D) [] s)
  = Some traj ->
  traj <> [] /\
  time_of (hd d traj) = lit_0 D /\
  le D (time_of (last traj d)) (add D T lit_1e_5) = true /\
  le D (add D (time_of (last traj d)) dt) (add D T lit_1e_5) = false.
Proof.
  intros Htime Hle E.
  pose proof (GetTrajectory_while_on_walks D lit_1e_5 state_at time_of Htime
                dt T fuel (lit_0 D) s traj E) as Hw.
  assert (Hne : traj <> []).
  { intros E0. subst traj. cbn [map walks_on] in Hw. congruence. }
  split; [exact Hne |].
  destruct (walks_on_ends D lit_1e_5 dt T (time_of d) (map time_of traj)
              (lit_0 D) Hw) as (Hhd & Hl1 & Hl2).
  { destruct traj; [contradiction | discriminate]. }
  rewrite last_map in Hl1, Hl2.
  split; [| split; [exact Hl1 | exact Hl2]].
  destruct traj as [| state traj]; [contradiction | exact Hhd].
Qed.

(** In binary64, with [dt = 1] and the binary64 number nearest to
    [1.99999] as total time: the sum [T + 1e-5] is [2], and the walk is
    [0], [1], [2]. *)
Lemma GetTrajectory_first_and_last_witness :
  fst (GetTrajectory_while_on binary64 binary64_1e_5 (fun t => ret t)
         1%float 0x1.ffff583a53b8ep+0%float 4 0%float [] tt)
  = Some [0%float; 1%float; 2%float] /\
  PrimFloat.leb 2%float
    (PrimFloat.add 0x1.ffff583a53b8ep+0%float binary64_1e_5) = true /\
  PrimFloat.leb (PrimFloat.add 2%float 1%float)
    (PrimFloat.add 0x1.ffff583a53b8ep+0%float binary64_1e_5) = false.
Proof.
  assert (E : fst (GetTrajectory_while_on binary64 binary64_1e_5
                     (fun t => @ret unit float t) 1%float
                     0x1.ffff583a53b8ep+0%float 4 0%float [] tt)
              = Some [0%float; 1%float; 2%float])
    by (vm_compute; reflexivity).
  split; [exact E |].
  destruct (GetTrajectory_first_and_last binary64 binary64_1e_5
              (fun t => @ret unit float t) (fun t => t) 1%float
              0x1.ffff583a53b8ep+0%float 4 tt
              [0%float; 1%float; 2%float] 0%float
              (fun t s0 => eq_refl) eq_refl E) as (_ & _ & H1 & H2).
  split; [exact H1 | exact H2].
Defined.

(** ** Intermediate solutions, whatever the queries do *)

Section IntermediateAlways.

Context {Store : Type}.
Variable GetState : StateLinXd -> StateAng3d.
Variable this : @TOWR Store.
Variables (dt : R) (fuel : nat).

Lemma GetIntermediateSolutions_None (iters : list Z) (s : Store) :
  fst (for_each iters (GetIntermediateSolutions_iter GetState fuel this dt)
                None s) = None.
Proof.
  revert s. induction iters as [| iter iters IH]; intros s; simpl;
    [reflexivity | apply IH].
Qed.

Lemma GetIntermediateSolutions_pushes (P : RobotStateVec -> Prop)
  (iters : list Z) :
  (forall vars s traj,
      fst (GetTrajectory GetState fuel this vars dt s) = Some traj -> P traj) ->
  forall (acc trajs : list RobotStateVec) (s s' : Store),
    for_each iters (GetIntermediateSolutions_iter GetState fuel this dt)
             (Some acc) s = (Some trajs, s') ->
    exists new,
      trajs = acc ++ new /\ length new = length iters /\ Forall P new.
Proof.
  intros HP. induction iters as [| iter iters IH]; intros acc trajs s s' H.
  - simpl in H. injection H as H _. subst trajs.
    exists []. rewrite app_nil_r. repeat split. constructor.
  - cbn [for_each] in H. unfold bind at 1 in H.
    cbn [GetIntermediateSolutions_iter] in H. unfold bind at 1 in H.
    specialize (HP (GetOptVariables_iter (nlp_ this) iter) s).
    destruct (GetTrajectory GetState fuel this
                (GetOptVariables_iter (nlp_ this) iter) dt s) as [r s1].
    cbn [ret] in H. destruct r as [traj |].
    + apply IH in H. destruct H as (new & E & Hlen & Hall).
      exists (traj :: new). split; [| split].
      * rewrite E, <- app_assoc. reflexivity.
      * simpl. lia.
      * constructor; [apply HP; reflexivity | exact Hall].
    + pose proof (GetIntermediateSolutions_None iters s1) as F.
      rewrite H in F. discriminate.
Qed.

End IntermediateAlways.

(** X15: an iteration count that is not positive gives the empty list: no
    variables are fetched, no extraction is made and the objects behind
    the variables are untouched, whatever the step and the fuel. *)
Theorem GetIntermediateSolutions_no_iteration {Store : Type}
  (GetState : StateLinXd -> StateAng3d) (this : @TOWR Store) (dt : R)
  (fuel : nat) (s : Store) :
  (GetIterationCount (nlp_ this) <= 0)%Z ->
  GetIntermediateSolutions GetState fuel this dt s = (Some [], s).
Proof.
  intros H. unfold GetIntermediateSolutions, iterations.
  replace (Z.to_nat (GetIterationCount (nlp_ this))) with 0%nat by lia.
  reflexivity.
Qed.

Lemma GetIntermediateSolutions_no_iteration_witness :
  GetIntermediateSolutions Scenario.GetState0 0
    (mkTOWR (inital_base_ Scenario.towr0) (final_base_ Scenario.towr0)
            (initial_ee_W_ Scenario.towr0) (params_ Scenario.towr0)
            (model_ Scenario.towr0) None
            (mkProblem (-3) (fun _ => Scenario.vars0) Scenario.vars0))
    0 7
  = (Some [], 7).
Proof.
  apply (GetIntermediateSolutions_no_iteration Scenario.GetState0
           (mkTOWR (inital_base_ Scenario.towr0) (final_base_ Scenario.towr0)
                   (initial_ee_W_ Scenario.towr0) (params_ Scenario.towr0)
                   (model_ Scenario.towr0) None
                   (mkProblem (-3) (fun _ => Scenario.vars0) Scenario.vars0))
           0 0 7).
  simpl. lia.
Defined.

(** X16: whenever [GetIntermediateSolutions] returns, whatever the queries
    do, it returns as many trajectories as the iteration count says, and
    all of them have the same number of states at the same times: the walk
    depends on the step and the total time only. *)
Theorem GetIntermediateSolutions_same_walk {Store : Type}
  (GetState : StateLinXd -> StateAng3d) (this : @TOWR Store) (dt : R)
  (fuel : nat) (s s' : Store) (trajs : list RobotStateVec) :
  GetIntermediateSolutions GetState fuel this dt s = (Some trajs, s') ->
  length trajs = Z.to_nat (GetIterationCount (nlp_ this)) /\
  forall traj1 traj2,
    In traj1 trajs -> In traj2 trajs ->
    map t_global_ traj1 = map t_global_ traj2.
Proof.
  intros H. unfold GetIntermediateSolutions in H.
  apply (GetIntermediateSolutions_pushes GetState this dt fuel
           (fun traj => sample_times dt (GetTotalTime (params_ this)) fuel 0
                        = Some (map t_global_ traj))) in H.
  - destruct H as (new & E & Hlen & Hall). simpl in E. subst new.
    split; [rewrite Hlen; apply iterations_length |].
    rewrite Forall_forall in Hall.
    intros traj1 traj2 H1 H2.
    pose proof (Hall traj1 H1) as E1. pose proof (Hall traj2 H2) as E2.
    congruence.
  - intros vars s0 traj E. apply (GetTrajectory_times GetState this vars fuel dt s0).
    exact E.
Qed.

Lemma GetIntermediateSolutions_same_walk_witness :
  exists trajs,
    GetIntermediateSolutions Scenario.GetState0 4 Scenario.towr0 (1 / 2) 7
    = (Some trajs, 7) /\
    length trajs = 2%nat.
Proof.
  assert (Hdt : 0 < 1 / 2) by lra.
  assert (Hfuel : (sample_count (1 / 2)
                     (GetTotalTime (params_ Scenario.towr0)) < 4)%nat)
    by (simpl; rewrite sample_count_half_second; lia).
  pose proof (GetIntermediateSolutions_loop Scenario.GetState0 Scenario.towr0
                (1 / 2) 4 7 (iterations 2) Hdt Hfuel
                (fun _ _ => Scenario_const_queries) []) as Hrun.
  eexists. split; [exact Hrun |].
  exact (proj1 (GetIntermediateSolutions_same_walk Scenario.GetState0
                  Scenario.towr0 (1 / 2) 4 7 7 _ Hrun)).
Defined.

(** ** The node of [towr_ros.cc] *)

(** *** Loops whose body may fail *)

Lemma option_fold_app {A B : Type} (body : B -> A -> option B)
  (l1 l2 : list A) (b : B) :
  option_fold body (l1 ++ l2) b
  = option_bind (option_fold body l1 b) (option_fold body l2).
Proof.
  revert b. induction l1 as [| a l1 IH]; intros b; simpl.
  - reflexivity.
  - destruct (body b a) as [b' |]; simpl; [apply IH | reflexivity].
Qed.

(** A loop that keeps an invariant under which its body cannot fail does
    not fail, and ends in a state that satisfies the invariant. *)
Lemma option_fold_returns {A B : Type} (body : B -> A -> option B)
  (Inv : B -> Prop) (Q : A -> Prop) :
  (forall b a, Inv b -> Q a -> exists b', body b a = Some b' /\ Inv b') ->
  forall l b, Inv b -> Forall Q l ->
    exists b', option_fold body l b = Some b' /\ Inv b'.
Proof.
  intros Hbody. induction l as [| a l IH]; intros b Hb HQ.
  - exists b. split; [reflexivity | exact Hb].
  - inversion HQ as [| ? ? Ha Hl]; subst.
    destruct (Hbody b a Hb Ha) as (b1 & E1 & Hb1).
    destruct (IH b1 Hb1 Hl) as (b2 & E2 & Hb2).
    exists b2. split; [| exact Hb2].
    simpl. rewrite E1. exact E2.
Qed.

(** *** The decimal name of an iteration *)

Lemma string_append_injective (a x y : string) :
  (a ++ x)%string = (a ++ y)%string -> x = y.
Proof.
  induction a as [| c a IH]; simpl; intros H.
  - exact H.
  - injection H as H. apply IH. exact H.
Qed.

Lemma to_string_injective (i j : nat) : to_string i = to_string j -> i = j.
Proof.
  unfold to_string. intros H.
  assert (E : Nat.to_uint i = Nat.to_uint j).
  { pose proof (NilEmpty.usu (Nat.to_uint i)) as Hi.
    pose proof (NilEmpty.usu (Nat.to_uint j)) as Hj.
    rewrite H in Hi. rewrite Hi in Hj. injection Hj as Hj. exact Hj. }
  rewrite <- (Unsigned.of_to i), <- (Unsigned.of_to j), E. reflexivity.
Qed.

(** X17: the topics under which [SaveOptimizationAsRosbag] saves the
    iterations, [nlp_iterations_name + std::to_string(i)], are pairwise
    different: no two iterations are written to one topic. *)
Theorem iteration_topics_distinct (nlp_iterations_name : string) (i j : nat) :
  (nlp_iterations_name ++ to_string i)%string
  = (nlp_iterations_name ++ to_string j)%string
  <-> i = j.
Proof.
  split.
  - intros H. apply to_string_injective.
    apply (string_append_injective nlp_iterations_name). exact H.
  - intros H. subst j. reflexivity.
Qed.

(** *** [SetInitialFromNominal] *)

(** X18: [SetInitialFromNominal] puts every foot on the ground (height
    [0]) under its nominal position and lifts the base so that the first
    foot hangs at its nominal height below it; the horizontal position of
    the base, its velocities and its orientation are kept.  An empty
    stance is an error. *)
Theorem SetInitialFromNominal_stands {Store : Type} (this : @TowrRos.t Store)
  (nomial_stance_B : list Vector3d) :
  (nomial_stance_B = [] ->
   TowrRos.SetInitialFromNominal this nomial_stance_B = None) /\
  (nomial_stance_B <> [] ->
   exists this',
     TowrRos.SetInitialFromNominal this nomial_stance_B = Some this' /\
     length (TowrRos.initial_ee_pos_ this') = length nomial_stance_B /\
     (forall i d,
        (i < length nomial_stance_B)%nat ->
        nth i (TowrRos.initial_ee_pos_ this') d
        = mkVector3d (vx (nth i nomial_stance_B d))
                     (vy (nth i nomial_stance_B d)) 0) /\
     (forall foot d,
        In foot (TowrRos.initial_ee_pos_ this') ->
        vz foot - vz (p_ (lin_e (TowrRos.initial_base_ this')))
        = vz (hd d nomial_stance_B)) /\
     vx (p_ (lin_e (TowrRos.initial_base_ this')))
     = vx (p_ (lin_e (TowrRos.initial_base_ this))) /\
     vy (p_ (lin_e (TowrRos.initial_base_ this')))
     = vy (p_ (lin_e (TowrRos.initial_base_ this))) /\
     v_ (lin_e (TowrRos.initial_base_ this'))
     = v_ (lin_e (TowrRos.initial_base_ this)) /\
     ang_e (TowrRos.initial_base_ this') = ang_e (TowrRos.initial_base_ this)).
Proof.
  split.
  - intros E. subst. reflexivity.
  - intros Hne. destruct nomial_stance_B as [| front rest]; [contradiction |].
    eexists. split; [reflexivity |].
    cbn [TowrRos.initial_ee_pos_ TowrRos.initial_base_ lin_e ang_e p_ v_].
    split; [apply length_map |].
    split.
    + intros i d Hi.
      rewrite (nth_indep _ d
                 ((fun p => mkVector3d (vx p) (vy p) 0) d))
        by (rewrite length_map; exact Hi).
      apply (map_nth (fun p => mkVector3d (vx p) (vy p) 0)).
    + split; [| repeat split].
      intros foot d Hin. apply in_map_iff in Hin.
      destruct Hin as (p & E & _). subst foot. simpl. lra.
Qed.

Lemma SetInitialFromNominal_stands_witness :
  exists this',
    TowrRos.SetInitialFromNominal
      (TowrRos.TowrRos_new
         (TowrRos.mkTOWR 0 (fun _ => @ret R unit tt)
            (SplineHolder.mkSplineHolder
               (SplineHolder.mkNodeSpline Scenario.line (ret 1))
               (SplineHolder.mkNodeSpline Scenario.line (ret 1)) [] [] [])))
      [mkVector3d 1 1 (-2); mkVector3d (-1) 1 (-2)]
    = Some this' /\
    length (TowrRos.initial_ee_pos_ this') = 2%nat.
Proof.
  destruct (proj2 (SetInitialFromNominal_stands
                     (TowrRos.TowrRos_new
                        (TowrRos.mkTOWR 0 (fun _ => @ret R unit tt)
                           (SplineHolder.mkSplineHolder
                              (SplineHolder.mkNodeSpline Scenario.line (ret 1))
                              (SplineHolder.mkNodeSpline Scenario.line (ret 1))
                              [] [] [])))
                     [mkVector3d 1 1 (-2); mkVector3d (-1) 1 (-2)])
              ltac:(discriminate))
    as (this' & E & Hlen & _).
  exists this'. split; [exact E | exact Hlen].
Defined.

(** *** [BuildRobotParametersMsg] *)

Lemma skipn_nth_error {A : Type} (l : list A) (k : nat) (x : A) :
  nth_error l k = Some x -> skipn k l = x :: skipn (S k) l.
Proof.
  revert k. induction l as [| a l IH]; intros [| k] H; simpl in *;
    try discriminate.
  - injection H as H. subst. reflexivity.
  - apply IH. exact H.
Qed.

Lemma BuildRobotParametersMsg_loop (ToXppEndeffector : nat -> nat -> nat * string)
  (nominal_B : list Vector3d) (n_ee : nat) :
  forall (m k : nat) (acc : RobotParameters),
    (k + m = length nominal_B)%nat ->
    option_fold (TowrRos.BuildRobotParametersMsg_ee ToXppEndeffector
                   nominal_B n_ee) (seq k m) acc
    = Some (mkRobotParameters
              (ee_max_dev acc)
              (nominal_ee_pos acc ++ firstn m (skipn k nominal_B))
              (ee_names acc
               ++ map (fun i => snd (ToXppEndeffector n_ee i)) (seq k m))
              (base_mass acc)).
Proof.
  induction m as [| m IH]; intros k acc Hk.
  - simpl. rewrite !app_nil_r. destruct acc. reflexivity.
  - cbn [seq option_fold].
    destruct (nth_error_in_range nominal_B k) as [pos Hpos]; [lia |].
    unfold TowrRos.BuildRobotParametersMsg_ee at 1. rewrite Hpos.
    cbn [option_bind]. rewrite IH by lia.
    cbn [ee_max_dev nominal_ee_pos ee_names base_mass].
    rewrite (skipn_nth_error nominal_B k pos Hpos).
    cbn [firstn map]. rewrite <- !app_assoc. reflexivity.
Qed.

(** X19: [BuildRobotParametersMsg] never throws; its message carries the
    nominal stance of the model unchanged and in order, and beside each
    position, at the same index, the name that the endeffector map gives
    to that endeffector; the deviation and the mass are those of the
    model. *)
Theorem BuildRobotParametersMsg_aligned
  (ToXppEndeffector : nat -> nat -> nat * string) (model : RobotModel) :
  let n_ee := length (nominal_stance_B model) in
  TowrRos.BuildRobotParametersMsg ToXppEndeffector model
  = Some (mkRobotParameters
            (max_dev_from_nominal model)
            (nominal_stance_B model)
            (map (fun ee_towr => snd (ToXppEndeffector n_ee ee_towr))
                 (seq 0 n_ee))
            (mass model)) /\
  forall msg,
    TowrRos.BuildRobotParametersMsg ToXppEndeffector model = Some msg ->
    length (ee_names msg) = length (nominal_ee_pos msg).
Proof.
  intros n_ee.
  assert (E : TowrRos.BuildRobotParametersMsg ToXppEndeffector model
              = Some (mkRobotParameters
                        (max_dev_from_nominal model)
                        (nominal_stance_B model)
                        (map (fun ee_towr => snd (ToXppEndeffector n_ee ee_towr))
                             (seq 0 n_ee))
                        (mass model))).
  { unfold TowrRos.BuildRobotParametersMsg. fold n_ee.
    rewrite BuildRobotParametersMsg_loop by reflexivity.
    cbn [option_bind ee_max_dev nominal_ee_pos ee_names app skipn].
    unfold n_ee. rewrite firstn_all. reflexivity. }
  split; [exact E |].
  intros msg Hmsg. rewrite E in Hmsg. injection Hmsg as Hmsg. subst msg.
  cbn [ee_names nominal_ee_pos]. rewrite length_map, length_seq. reflexivity.
Qed.

Lemma BuildRobotParametersMsg_aligned_witness :
  exists msg,
    TowrRos.BuildRobotParametersMsg Scenario.ToXppEndeffector0
      (mkRobotModel [mkVector3d 1 1 (-2); mkVector3d (-1) 1 (-2)]
                    Vector3d_Zero 30) = Some msg /\
    length (ee_names msg) = length (nominal_ee_pos msg).
Proof.
  destruct (BuildRobotParametersMsg_aligned Scenario.ToXppEndeffector0
              (mkRobotModel [mkVector3d 1 1 (-2); mkVector3d (-1) 1 (-2)]
                            Vector3d_Zero 30)) as [E H].
  eexists. split; [exact E |]. apply H. exact E.
Defined.

(** *** [PublishInitial] *)

Section PublishInitialFacts.

Context {Store : Type}.
Variable ToXppEndeffector : nat -> nat -> nat * string.
Variable GetQuaternionBaseToWorld_of_angles : Vector3d -> Quaterniond.
Variable this : @TowrRos.t Store.

Let n_ee : nat := length (TowrRos.initial_ee_pos_ this).
Let ee_xpp (ee_towr : nat) : nat := fst (ToXppEndeffector n_ee ee_towr).
Let body := TowrRos.PublishInitial_ee ToXppEndeffector this n_ee.

Lemma PublishInitial_ee_run (xpp : RobotStateCartesian) (ee_towr : nat) :
  TowrRos.sized n_ee xpp ->
  (ee_towr < n_ee)%nat -> (ee_xpp ee_towr < n_ee)%nat ->
  exists motion pos,
    nth_error (ee_motion_ xpp) (ee_xpp ee_towr) = Some motion /\
    nth_error (TowrRos.initial_ee_pos_ this) ee_towr = Some pos /\
    body xpp ee_towr
    = Some (mkRobotState
              (base_ xpp)
              (set_at (ee_motion_ xpp) (ee_xpp ee_towr)
                      (mkStateLin pos (v_ motion) (a_ motion)))
              (set_at (ee_forces_ xpp) (ee_xpp ee_towr) Vector3d_Zero)
              (set_at (ee_contact_ xpp) (ee_xpp ee_towr) true)
              (t_global_ xpp)).
Proof.
  intros (Hm & Hf & Hc) Hee Hx.
  destruct (nth_error_in_range (ee_motion_ xpp) (ee_xpp ee_towr))
    as [motion Hmotion]; [lia |].
  destruct (nth_error_in_range (TowrRos.initial_ee_pos_ this) ee_towr)
    as [pos Hpos]; [exact Hee |].
  exists motion, pos. split; [exact Hmotion |]. split; [exact Hpos |].
  unfold body, TowrRos.PublishInitial_ee. fold n_ee. fold (ee_xpp ee_towr).
  rewrite (at_put_in_range (ee_contact_ xpp)) by lia.
  cbn [option_bind]. rewrite Hmotion. cbn [option_bind]. rewrite Hpos.
  cbn [option_bind].
  rewrite (at_put_in_range (ee_forces_ xpp)) by lia.
  reflexivity.
Qed.

Lemma PublishInitial_loop (l : list nat) :
  (forall ee, In ee l -> (ee < n_ee)%nat /\ (ee_xpp ee < n_ee)%nat) ->
  forall xpp, TowrRos.sized n_ee xpp ->
  exists r,
    option_fold body l xpp = Some r /\
    TowrRos.sized n_ee r /\
    base_ r = base_ xpp /\
    (forall j, ~ In j (map ee_xpp l) ->
       (forall d, nth j (ee_contact_ r) d = nth j (ee_contact_ xpp) d) /\
       (forall d, nth j (ee_motion_ r) d = nth j (ee_motion_ xpp) d) /\
       (forall d, nth j (ee_forces_ r) d = nth j (ee_forces_ xpp) d)) /\
    (forall ee, In ee l ->
       (forall d, nth (ee_xpp ee) (ee_contact_ r) d = true) /\
       (forall d, nth (ee_xpp ee) (ee_forces_ r) d = Vector3d_Zero)) /\
    (NoDup (map ee_xpp l) ->
     forall ee, In ee l ->
       forall d d', p_ (nth (ee_xpp ee) (ee_motion_ r) d)
                    = nth ee (TowrRos.initial_ee_pos_ this) d').
Proof.
  induction l as [| a l IH]; intros Hl xpp Hsized.
  - exists xpp. split; [reflexivity |]. split; [exact Hsized |].
    split; [reflexivity |]. split; [intros; repeat split |].
    split; intros; contradiction.
  - destruct (Hl a (or_introl eq_refl)) as [Ha Hxa].
    destruct (PublishInitial_ee_run xpp a Hsized Ha Hxa)
      as (motion & pos & Hmotion & Hpos & Hrun).
    set (xpp1 := mkRobotState
                   (base_ xpp)
                   (set_at (ee_motion_ xpp) (ee_xpp a)
                           (mkStateLin pos (v_ motion) (a_ motion)))
                   (set_at (ee_forces_ xpp) (ee_xpp a) Vector3d_Zero)
                   (set_at (ee_contact_ xpp) (ee_xpp a) true)
                   (t_global_ xpp)) in *.
    assert (Hs1 : TowrRos.sized n_ee xpp1).
    { destruct Hsized as (Hm & Hf & Hc). unfold TowrRos.sized, xpp1.
      cbn [ee_motion_ ee_forces_ ee_contact_]. rewrite !set_at_length.
      repeat split; assumption. }
    destruct (IH (fun ee H => Hl ee (or_intror H)) xpp1 Hs1)
      as (r & Er & Hsr & Hbase & Hkeep & Hconst & Hinj).
    destruct Hsized as (Hm & Hf & Hc).
    assert (Hhere : ~ In (ee_xpp a) (map ee_xpp l) ->
              (forall d, nth (ee_xpp a) (ee_contact_ r) d = true) /\
              (forall d, nth (ee_xpp a) (ee_forces_ r) d = Vector3d_Zero) /\
              (forall d, nth (ee_xpp a) (ee_motion_ r) d
                         = mkStateLin pos (v_ motion) (a_ motion))).
    { intros Hnin. destruct (Hkeep (ee_xpp a) Hnin) as (Kc & Km & Kf).
      split; [| split]; intros d.
      - rewrite Kc. unfold xpp1. cbn [ee_contact_].
        apply nth_set_at_same. lia.
      - rewrite Kf. unfold xpp1. cbn [ee_forces_].
        apply nth_set_at_same. lia.
      - rewrite Km. unfold xpp1. cbn [ee_motion_].
        apply nth_set_at_same. lia. }
    exists r. split; [cbn [option_fold]; rewrite Hrun; exact Er |].
    split; [exact Hsr |]. split; [rewrite Hbase; reflexivity |].
    split; [| split].
    + intros j Hj. cbn [map] in Hj.
      assert (Hja : j <> ee_xpp a) by (intros E; apply Hj; left; congruence).
      assert (Hjl : ~ In j (map ee_xpp l)) by (intros E; apply Hj; right; exact E).
      destruct (Hkeep j Hjl) as (Kc & Km & Kf).
      split; [| split]; intros d.
      * rewrite Kc. unfold xpp1. cbn [ee_contact_].
        apply nth_set_at_other. exact Hja.
      * rewrite Km. unfold xpp1. cbn [ee_motion_].
        apply nth_set_at_other. exact Hja.
      * rewrite Kf. unfold xpp1. cbn [ee_forces_].
        apply nth_set_at_other. exact Hja.
    + intros ee [E | Hin]; [subst ee | apply Hconst; exact Hin].
      destruct (in_dec Nat.eq_dec (ee_xpp a) (map ee_xpp l)) as [Hi | Hnin].
      * apply in_map_iff in Hi. destruct Hi as (ee' & E' & Hin').
        rewrite <- E'. apply Hconst. exact Hin'.
      * destruct (Hhere Hnin) as (Hc1 & Hf1 & _). split; assumption.
    + intros Hnd ee Hin d d'. cbn [map] in Hnd.
      inversion Hnd as [| ? ? Hnin Hnd']; subst.
      destruct Hin as [E | Hin]; [subst ee | apply Hinj; assumption].
      destruct (Hhere Hnin) as (_ & _ & Hm1). rewrite Hm1. cbn [p_].
      symmetry. apply nth_error_nth. exact Hpos.
Qed.

End PublishInitialFacts.

(** X20: when the endeffector map sends the feet one-to-one into the
    endeffectors of the state, [PublishInitial] does not throw and
    publishes a state with one entry per foot in which every foot is in
    contact, carries no force and stands, at the index the map gives it,
    at its initial position; the base is at the initial base position,
    with the orientation of the initial Euler angles. *)
Theorem PublishInitial_state {Store : Type}
  (ToXppEndeffector : nat -> nat -> nat * string)
  (GetQuaternionBaseToWorld_of_angles : Vector3d -> Quaterniond)
  (this : @TowrRos.t Store) :
  let n_ee := length (TowrRos.initial_ee_pos_ this) in
  let ee_xpp := fun ee_towr => fst (ToXppEndeffector n_ee ee_towr) in
  (forall ee, (ee < n_ee)%nat -> (ee_xpp ee < n_ee)%nat) ->
  (forall ee ee', (ee < n_ee)%nat -> (ee' < n_ee)%nat ->
                  ee_xpp ee = ee_xpp ee' -> ee = ee') ->
  exists xpp,
    TowrRos.PublishInitial ToXppEndeffector GetQuaternionBaseToWorld_of_angles
                           this = Some xpp /\
    length (ee_contact_ xpp) = n_ee /\
    length (ee_motion_ xpp) = n_ee /\
    length (ee_forces_ xpp) = n_ee /\
    p_ (lin (base_ xpp)) = p_ (lin_e (TowrRos.initial_base_ this)) /\
    q (ang (base_ xpp))
    = GetQuaternionBaseToWorld_of_angles
        (p_ (ang_e (TowrRos.initial_base_ this))) /\
    forall ee_towr d1 d2 d3 d4,
      (ee_towr < n_ee)%nat ->
      nth (ee_xpp ee_towr) (ee_contact_ xpp) d1 = true /\
      p_ (nth (ee_xpp ee_towr) (ee_motion_ xpp) d2)
      = nth ee_towr (TowrRos.initial_ee_pos_ this) d3 /\
      nth (ee_xpp ee_towr) (ee_forces_ xpp) d4 = Vector3d_Zero.
Proof.
  intros n_ee ee_xpp Hrange Hinj.
  unfold TowrRos.PublishInitial. fold n_ee.
  match goal with
  | |- context [option_fold _ _ ?b] => set (xpp0 := b)
  end.
  assert (Hs0 : TowrRos.sized n_ee xpp0).
  { unfold TowrRos.sized, xpp0.
    cbn [ee_motion_ ee_forces_ ee_contact_ RobotStateCartesian_new].
    rewrite !repeat_length. repeat split. }
  destruct (PublishInitial_loop ToXppEndeffector this (seq 0 n_ee)
              (fun ee H => conj (proj2 (proj1 (in_seq _ _ _) H))
                                (Hrange ee (proj2 (proj1 (in_seq _ _ _) H))))
              xpp0 Hs0)
    as (r & Er & (Hm & Hf & Hc) & Hbase & _ & Hconst & Hpos).
  exists r. split; [exact Er |].
  split; [exact Hc |]. split; [exact Hm |]. split; [exact Hf |].
  rewrite Hbase. unfold xpp0. cbn [base_ lin ang p_ q].
  split; [reflexivity |]. split; [reflexivity |].
  intros ee_towr d1 d2 d3 d4 Hee.
  assert (Hin : In ee_towr (seq 0 n_ee)) by (apply in_seq; lia).
  destruct (Hconst ee_towr Hin) as (Hc1 & Hf1).
  split; [apply Hc1 |]. split; [| apply Hf1].
  apply Hpos; [| exact Hin].
  apply NoDup_map_NoDup_ForallPairs; [| apply seq_NoDup].
  intros a b Ha Hb E. apply in_seq in Ha. apply in_seq in Hb.
  apply Hinj; [lia | lia | exact E].
Qed.

Lemma PublishInitial_state_witness :
  exists xpp,
    TowrRos.PublishInitial Scenario.ToXppEndeffector0
      (fun _ => mkQuat 1 0 0 0) Scenario.ros0 = Some xpp /\
    length (ee_contact_ xpp) = 2%nat.
Proof.
  destruct (PublishInitial_state Scenario.ToXppEndeffector0
              (fun _ => mkQuat 1 0 0 0) Scenario.ros0)
    as (xpp & E & Hlen & _).
  - unfold Scenario.ToXppEndeffector0.
    cbn [fst length TowrRos.initial_ee_pos_ Scenario.ros0].
    intros ee Hee. lia.
  - unfold Scenario.ToXppEndeffector0.
    cbn [fst length TowrRos.initial_ee_pos_ Scenario.ros0].
    intros ee ee' H1 H2 E. lia.
  - exists xpp. split; [exact E | exact Hlen].
Defined.

(** *** Replay: [TowrRos::GetTrajectory] *)

Lemma sample_count_fiftieth : sample_count (2 / 100) 1 = 51%nat.
Proof.
  unfold sample_count.
  replace ((1 + 1 / 100000) / (2 / 100)) with (50 + 1 / 2000) by field.
  rewrite <- (tech_up (50 + 1 / 2000) 51); [reflexivity | lra | lra].
Qed.

Lemma Scenario_well_formed :
  TowrRos.well_formed Scenario.ToXppEndeffector0 Scenario.solution0.
Proof.
  unfold TowrRos.well_formed, Scenario.ToXppEndeffector0, Scenario.solution0.
  cbn [fst length SplineHolder.ee_motion_ SplineHolder.ee_force_
       SplineHolder.phase_durations_].
  repeat split. intros ee Hee. lia.
Qed.

(** X21: on a solution whose vectors have one entry per endeffector and
    with an endeffector map that stays within the endeffectors, the replay
    never throws: no [at] is out of range in any turn of the loop,
    whatever the step, the total time and the queries are. *)
Theorem TowrRos_GetTrajectory_never_throws {Store : Type}
  (ToXpp : StateLinXd -> StateLinXd)
  (ToXppEndeffector : nat -> nat -> nat * string)
  (GetQuaternionBaseToWorld :
     @SplineHolder.NodeSpline Store -> R -> Cmd Store Quaterniond)
  (GetAngularVelocityInWorld GetAngularAccelerationInWorld :
     @SplineHolder.NodeSpline Store -> R -> Cmd Store Vector3d)
  (this : @TowrRos.t Store) (fuel : nat) (s : Store) :
  TowrRos.well_formed ToXppEndeffector
    (TowrRos.GetSolution (TowrRos.towr_ this)) ->
  fst (TowrRos.GetTrajectory ToXpp ToXppEndeffector GetQuaternionBaseToWorld
         GetAngularVelocityInWorld GetAngularAccelerationInWorld fuel this s)
  <> Thrown.
Proof.
  intros Hwf. unfold TowrRos.GetTrajectory. unfold bind at 1.
  destruct (SplineHolder.GetTotalTime _ s) as [T s1].
  pose proof (ros_while_times ToXpp ToXppEndeffector GetQuaternionBaseToWorld
                GetAngularVelocityInWorld GetAngularAccelerationInWorld
                _ Hwf (TowrRos.visualization_dt_ this) T fuel 0 [] s1) as H.
  destruct (sample_times (TowrRos.visualization_dt_ this) T fuel 0).
  - destruct H as (traj & Hr & _). rewrite Hr. discriminate.
  - rewrite H. discriminate.
Qed.

Lemma TowrRos_GetTrajectory_never_throws_witness :
  fst (TowrRos.GetTrajectory Scenario.ToXpp0 Scenario.ToXppEndeffector0
         Scenario.quaternion0 Scenario.angular0 Scenario.angular0
         52 Scenario.ros0 7) <> Thrown.
Proof.
  apply (TowrRos_GetTrajectory_never_throws Scenario.ToXpp0
           Scenario.ToXppEndeffector0 Scenario.quaternion0 Scenario.angular0
           Scenario.angular0 Scenario.ros0 52 7).
  exact Scenario_well_formed.
Defined.

Section RosThrows.

Context {Store : Type}.
Variable ToXpp : StateLinXd -> StateLinXd.
Variable ToXppEndeffector : nat -> nat -> nat * string.
Variable GetQuaternionBaseToWorld :
  @SplineHolder.NodeSpline Store -> R -> Cmd Store Quaterniond.
Variable GetAngularVelocityInWorld :
  @SplineHolder.NodeSpline Store -> R -> Cmd Store Vector3d.
Variable GetAngularAccelerationInWorld :
  @SplineHolder.NodeSpline Store -> R -> Cmd Store Vector3d.
Variable solution : @SplineHolder.t Store.

Lemma ros_ees_throw (n_ee : nat) (t : R) (ee_towr : nat) :
  nth_error (SplineHolder.phase_durations_ solution) ee_towr = None ->
  forall (ees : list nat) (state : RobotStateCartesian) (s : Store),
    In ee_towr ees ->
    fst (TowrRos.GetTrajectory_ees ToXpp ToXppEndeffector solution n_ee t ees
                                   state s) = None.
Proof.
  intros Hnone. induction ees as [| a ees IH]; intros state s Hin.
  - contradiction.
  - cbn [TowrRos.GetTrajectory_ees]. unfold bind_throw at 1, bind at 1.
    destruct (Nat.eq_dec a ee_towr) as [E | Hne].
    + subst a. unfold TowrRos.GetTrajectory_ee.
      unfold bind_throw at 1, bind at 1. rewrite Hnone. reflexivity.
    + destruct (TowrRos.GetTrajectory_ee ToXpp ToXppEndeffector solution n_ee
                  t state a s) as [[state' |] s1].
      * apply IH. destruct Hin as [E | Hin]; [congruence | exact Hin].
      * reflexivity.
Qed.

End RosThrows.

(** X22: a solution with fewer phase-duration sets than motion splines
    makes the replay throw ([at] out of range) while it builds its first
    state, provided the loop is entered (total time not below [-1e-5]). *)
Theorem TowrRos_GetTrajectory_throws {Store : Type}
  (ToXpp : StateLinXd -> StateLinXd)
  (ToXppEndeffector : nat -> nat -> nat * string)
  (GetQuaternionBaseToWorld :
     @SplineHolder.NodeSpline Store -> R -> Cmd Store Quaterniond)
  (GetAngularVelocityInWorld GetAngularAccelerationInWorld :
     @SplineHolder.NodeSpline Store -> R -> Cmd Store Vector3d)
  (this : @TowrRos.t Store) (fuel : nat) (s : Store) :
  let solution := TowrRos.GetSolution (TowrRos.towr_ this) in
  let T := fst (SplineHolder.GetTotalTime
                  (SplineHolder.base_linear_ solution) s) in
  (length (SplineHolder.phase_durations_ solution)
   < length (SplineHolder.ee_motion_ solution))%nat ->
  0 <= T + 1 / 100000 ->
  fst (TowrRos.GetTrajectory ToXpp ToXppEndeffector GetQuaternionBaseToWorld
         GetAngularVelocityInWorld GetAngularAccelerationInWorld
         (S fuel) this s) = Thrown.
Proof.
  intros solution T Hlen HT.
  unfold TowrRos.GetTrajectory. fold solution. unfold bind at 1. subst T.
  destruct (SplineHolder.GetTotalTime (SplineHolder.base_linear_ solution) s)
    as [T s1].
  cbn [fst] in HT. cbn [TowrRos.GetTrajectory_while].
  destruct (Rle_dec 0 (T + 1 / 100000)) as [Hle | Hgt]; [| lra].
  unfold bind at 1.
  assert (Hstate : forall s0,
             fst (TowrRos.GetTrajectory_state ToXpp ToXppEndeffector
                    GetQuaternionBaseToWorld GetAngularVelocityInWorld
                    GetAngularAccelerationInWorld solution 0 s0) = None).
  { intros s0. unfold TowrRos.GetTrajectory_state.
    unfold bind at 1.
    destruct (SplineHolder.GetPoint (SplineHolder.base_linear_ solution) 0 s0)
      as [base_lin s2].
    unfold bind at 1.
    destruct (GetQuaternionBaseToWorld (SplineHolder.base_angular_ solution) 0 s2)
      as [q' s3].
    unfold bind at 1.
    destruct (GetAngularVelocityInWorld (SplineHolder.base_angular_ solution) 0 s3)
      as [w' s4].
    unfold bind at 1.
    destruct (GetAngularAccelerationInWorld
                (SplineHolder.base_angular_ solution) 0 s4) as [wd' s5].
    unfold bind_throw, bind.
    match goal with
    | |- context [TowrRos.GetTrajectory_ees _ _ _ ?n _ ?l ?st s5] =>
        pose proof (ros_ees_throw ToXpp ToXppEndeffector solution n 0
                      (length (SplineHolder.phase_durations_ solution))
                      (proj2 (nth_error_None _ _) (Nat.le_refl _))
                      l st s5) as H;
        destruct (TowrRos.GetTrajectory_ees ToXpp ToXppEndeffector solution
                    n 0 l st s5) as [r s6]
    end.
    cbn [fst] in H. rewrite H; [reflexivity |].
    apply in_seq. lia. }
  specialize (Hstate s1).
  destruct (TowrRos.GetTrajectory_state ToXpp ToXppEndeffector
              GetQuaternionBaseToWorld GetAngularVelocityInWorld
              GetAngularAccelerationInWorld solution 0 s1) as [r s2].
  cbn [fst] in Hstate. subst r. reflexivity.
Qed.

Lemma TowrRos_GetTrajectory_throws_witness :
  fst (TowrRos.GetTrajectory Scenario.ToXpp0 Scenario.ToXppEndeffector0
         Scenario.quaternion0 Scenario.angular0 Scenario.angular0 1
         (TowrRos.TowrRos_new
            (TowrRos.mkTOWR 1 (fun _ => ret tt)
               (SplineHolder.mkSplineHolder Scenario.node_spline
                  Scenario.node_spline [Scenario.node_spline]
                  [Scenario.node_spline] [])))
         7) = Thrown.
Proof.
  apply (TowrRos_GetTrajectory_throws Scenario.ToXpp0
           Scenario.ToXppEndeffector0 Scenario.quaternion0 Scenario.angular0
           Scenario.angular0
           (TowrRos.TowrRos_new
              (TowrRos.mkTOWR 1 (fun _ => ret tt)
                 (SplineHolder.mkSplineHolder Scenario.node_spline
                    Scenario.node_spline [Scenario.node_spline]
                    [Scenario.node_spline] [])))
           0 7).
  - simpl. lia.
  - simpl. lra.
Defined.

(** *** Replay through reading queries *)

Lemma at_put_Some {A : Type} (c : list A) (i : nat) (a : A) (r : list A) :
  at_put c i a = Some r -> (i < length c)%nat /\ r = set_at c i a.
Proof.
  unfold at_put. destruct (Nat.ltb_spec i (length c)) as [Hlt | Hge].
  - intros E. injection E as E. split; [exact Hlt | congruence].
  - discriminate.
Qed.

(** A failing loop whose body writes entry [g a] of one member: entries
    that no pass addresses keep their value, and when [g] separates the
    passes, each addressed entry holds what its pass wrote. *)
Lemma option_fold_untouched {A B : Type} (proj : B -> list A)
  (body : B -> nat -> option B) (g : nat -> nat) (Val : nat -> A -> Prop)
  (d : A) :
  (forall b a b', body b a = Some b' ->
                  exists v, Val a v /\ (g a < length (proj b))%nat /\
                            proj b' = set_at (proj b) (g a) v) ->
  forall (l : list nat) (b r : B),
    option_fold body l b = Some r ->
    length (proj r) = length (proj b) /\
    forall i, (forall a, In a l -> g a <> i) ->
              nth i (proj r) d = nth i (proj b) d.
Proof.
  intros Hbody. induction l as [| a l IH]; intros b r E.
  - injection E as E. subst r. split; [reflexivity | intros; reflexivity].
  - cbn [option_fold] in E. destruct (body b a) as [b' |] eqn:Eb;
      cbn [option_bind] in E; [| discriminate].
    destruct (Hbody _ _ _ Eb) as (v & _ & _ & Hp).
    destruct (IH _ _ E) as [Hlen Hnth]. split.
    + rewrite Hlen, Hp. apply set_at_length.
    + intros i Hi. rewrite Hnth by (intros a' Ha'; apply Hi; right; exact Ha').
      rewrite Hp. apply nth_set_at_other.
      intros E'. apply (Hi a); [left; reflexivity | congruence].
Qed.

Lemma option_fold_at_put {A B : Type} (proj : B -> list A)
  (body : B -> nat -> option B) (g : nat -> nat) (Val : nat -> A -> Prop)
  (d : A) :
  (forall b a b', body b a = Some b' ->
                  exists v, Val a v /\ (g a < length (proj b))%nat /\
                            proj b' = set_at (proj b) (g a) v) ->
  forall (l : list nat) (b r : B),
    option_fold body l b = Some r ->
    NoDup l ->
    (forall a a', In a l -> In a' l -> g a = g a' -> a = a') ->
    forall a, In a l -> Val a (nth (g a) (proj r) d).
Proof.
  intros Hbody. induction l as [| a0 l IH]; intros b r E Hnd Hinj a Hin.
  - contradiction.
  - cbn [option_fold] in E. destruct (body b a0) as [b' |] eqn:Eb;
      cbn [option_bind] in E; [| discriminate].
    inversion Hnd as [| x l' Hnin Hnd']; subst.
    destruct Hin as [E0 | Hin].
    + subst a0. destruct (Hbody _ _ _ Eb) as (v & Hv & Hlt & Hp).
      destruct (option_fold_untouched proj body g Val d Hbody _ _ _ E)
        as [_ Hnth].
      rewrite Hnth.
      * rewrite Hp, nth_set_at_same by exact Hlt. exact Hv.
      * intros a' Ha' E'. apply Hnin.
        rewrite <- (Hinj a' a (or_intror Ha') (or_introl eq_refl) E').
        exact Ha'.
    + apply (IH _ _ E Hnd').
      * intros x y Hx Hy. apply Hinj; right; assumption.
      * exact Hin.
Qed.

Lemma option_fold_preserves {A B C : Type} (proj : B -> C)
  (body : B -> A -> option B) :
  (forall b a b', body b a = Some b' -> proj b' = proj b) ->
  forall (l : list A) (b r : B),
    option_fold body l b = Some r -> proj r = proj b.
Proof.
  intros Hbody. induction l as [| a l IH]; intros b r E.
  - injection E as E. congruence.
  - cbn [option_fold] in E. destruct (body b a) as [b' |] eqn:Eb;
      cbn [option_bind] in E; [| discriminate].
    rewrite (IH _ _ E). apply (Hbody _ _ _ Eb).
Qed.

Section RosConst.

Context {Store : Type}.
Variable ToXpp : StateLinXd -> StateLinXd.
Variable ToXppEndeffector : nat -> nat -> nat * string.
Variable GetQuaternionBaseToWorld :
  @SplineHolder.NodeSpline Store -> R -> Cmd Store Quaterniond.
Variable GetAngularVelocityInWorld :
  @SplineHolder.NodeSpline Store -> R -> Cmd Store Vector3d.
Variable GetAngularAccelerationInWorld :
  @SplineHolder.NodeSpline Store -> R -> Cmd Store Vector3d.
Variable solution : @SplineHolder.t Store.

Hypothesis Hconst :
  TowrRos.const_queries GetQuaternionBaseToWorld GetAngularVelocityInWorld
                        GetAngularAccelerationInWorld solution.

Let ee_body (n_ee : nat) (t : R) (s : Store) (state : RobotStateCartesian)
  (ee_towr : nat) : option RobotStateCartesian :=
  fst (TowrRos.GetTrajectory_ee ToXpp ToXppEndeffector solution n_ee t state
                                ee_towr s).

Lemma ros_ee_const (n_ee : nat) (t : R) (state : RobotStateCartesian)
  (ee_towr : nat) (s : Store) :
  TowrRos.GetTrajectory_ee ToXpp ToXppEndeffector solution n_ee t state
                           ee_towr s
  = (let ee_xpp := fst (ToXppEndeffector n_ee ee_towr) in
     option_bind (nth_error (SplineHolder.phase_durations_ solution) ee_towr)
       (fun durations =>
     option_bind (at_put (ee_contact_ state) ee_xpp
                    (fst (SplineHolder.IsContactPhase durations t s)))
       (fun contacts =>
     option_bind (nth_error (SplineHolder.ee_motion_ solution) ee_towr)
       (fun motion =>
     option_bind (at_put (ee_motion_ state) ee_xpp
                    (ToXpp (fst (SplineHolder.GetPoint motion t s))))
       (fun motions =>
     option_bind (nth_error (SplineHolder.ee_force_ solution) ee_towr)
       (fun force =>
     option_bind (at_put (ee_forces_ state) ee_xpp
                    (p_ (fst (SplineHolder.GetPoint force t s))))
       (fun forces =>
     Some (mkRobotState (base_ state) motions forces contacts
                        (t_global_ state)))))))),
     s).
Proof.
  destruct Hconst as (_ & _ & _ & _ & _ & Hm & Hf & Hd).
  unfold TowrRos.GetTrajectory_ee, bind_throw, lift, bind, ret.
  cbv zeta.
  destruct (nth_error (SplineHolder.phase_durations_ solution) ee_towr)
    as [durations |] eqn:Ed; cbn [option_bind]; [| reflexivity].
  pose proof (Hd durations t (nth_error_In _ _ Ed) s) as Hs.
  destruct (SplineHolder.IsContactPhase durations t s) as [contact s1].
  cbn [fst snd] in *. subst s1.
  destruct (at_put (ee_contact_ state) (fst (ToXppEndeffector n_ee ee_towr))
              contact) as [contacts |]; cbn [option_bind]; [| reflexivity].
  destruct (nth_error (SplineHolder.ee_motion_ solution) ee_towr)
    as [motion |] eqn:Em; cbn [option_bind]; [| reflexivity].
  pose proof (Hm motion t (nth_error_In _ _ Em) s) as Hs.
  destruct (SplineHolder.GetPoint motion t s) as [point s1].
  cbn [fst snd] in *. subst s1.
  destruct (at_put (ee_motion_ state) (fst (ToXppEndeffector n_ee ee_towr))
              (ToXpp point)) as [motions |]; cbn [option_bind];
    [| reflexivity].
  destruct (nth_error (SplineHolder.ee_force_ solution) ee_towr)
    as [force |] eqn:Ef; cbn [option_bind]; [| reflexivity].
  pose proof (Hf force t (nth_error_In _ _ Ef) s) as Hs.
  destruct (SplineHolder.GetPoint force t s) as [load s1].
  cbn [fst snd] in *. subst s1.
  destruct (at_put (ee_forces_ state) (fst (ToXppEndeffector n_ee ee_towr))
              (p_ load)) as [forces |]; cbn [option_bind]; reflexivity.
Qed.

Lemma ros_ees_const (n_ee : nat) (t : R) (s : Store) (ees : list nat) :
  forall state,
    TowrRos.GetTrajectory_ees ToXpp ToXppEndeffector solution n_ee t ees
                              state s
    = (option_fold (ee_body n_ee t s) ees state, s).
Proof.
  induction ees as [| a ees IH]; intros state.
  - reflexivity.
  - cbn [TowrRos.GetTrajectory_ees option_fold].
    unfold bind_throw at 1, bind at 1. unfold ee_body at 1.
    pose proof (f_equal snd (ros_ee_const n_ee t state a s)) as Hs.
    destruct (TowrRos.GetTrajectory_ee ToXpp ToXppEndeffector solution n_ee t
                state a s) as [[state' |] s1];
      cbn [fst snd option_bind] in *; subst s1.
    + apply IH.
    + reflexivity.
Qed.

(** The state that the loop over the endeffectors starts from. *)
Let state0 (t : R) (s : Store) : RobotStateCartesian :=
  let n_ee := length (SplineHolder.ee_motion_ solution) in
  let state := RobotStateCartesian_new n_ee in
  mkRobotState
    (mkState3d
       (ToXpp (fst (SplineHolder.GetPoint
                      (SplineHolder.base_linear_ solution) t s)))
       (mkStateAng
          (fst (GetQuaternionBaseToWorld
                  (SplineHolder.base_angular_ solution) t s))
          (fst (GetAngularVelocityInWorld
                  (SplineHolder.base_angular_ solution) t s))
          (fst (GetAngularAccelerationInWorld
                  (SplineHolder.base_angular_ solution) t s))))
    (ee_motion_ state) (ee_forces_ state) (ee_contact_ state)
    (t_global_ state).

Lemma ros_state_const (t : R) (s : Store) :
  TowrRos.GetTrajectory_state ToXpp ToXppEndeffector GetQuaternionBaseToWorld
    GetAngularVelocityInWorld GetAngularAccelerationInWorld solution t s
  = (let n_ee := length (SplineHolder.ee_motion_ solution) in
     option_bind (option_fold (ee_body n_ee t s) (seq 0 n_ee) (state0 t s))
       (fun state =>
          Some (mkRobotState (base_ state) (ee_motion_ state)
                             (ee_forces_ state) (ee_contact_ state) t)),
     s).
Proof.
  destruct Hconst as (_ & Hp & Hq & Hw & Hwd & _).
  unfold TowrRos.GetTrajectory_state, state0. cbv zeta.
  unfold bind at 1.
  pose proof (Hp t s) as Hs.
  destruct (SplineHolder.GetPoint (SplineHolder.base_linear_ solution) t s)
    as [base_lin s1].
  cbn [fst snd] in *. subst s1.
  unfold bind at 1.
  pose proof (Hq t s) as Hs.
  destruct (GetQuaternionBaseToWorld (SplineHolder.base_angular_ solution) t s)
    as [q' s1].
  cbn [fst snd] in *. subst s1.
  unfold bind at 1.
  pose proof (Hw t s) as Hs.
  destruct (GetAngularVelocityInWorld (SplineHolder.base_angular_ solution) t s)
    as [w' s1].
  cbn [fst snd] in *. subst s1.
  unfold bind at 1.
  pose proof (Hwd t s) as Hs.
  destruct (GetAngularAccelerationInWorld
              (SplineHolder.base_angular_ solution) t s) as [wd' s1].
  cbn [fst snd] in *. subst s1.
  unfold bind_throw, bind. rewrite ros_ees_const.
  unfold RobotStateCartesian_new. cbn [ee_motion_ ee_forces_ ee_contact_ t_global_].
  destruct (option_fold _ _ _) as [state' |]; cbn [option_bind]; reflexivity.
Qed.

Lemma ros_while_const (dt T : R) (s : Store) (fuel : nat) :
  forall (t : R) (trajectory : RobotStateVec),
    let run := TowrRos.GetTrajectory_while ToXpp ToXppEndeffector
                 GetQuaternionBaseToWorld GetAngularVelocityInWorld
                 GetAngularAccelerationInWorld solution dt T fuel t
                 trajectory s in
    snd run = s /\
    forall traj state,
      fst run = Returned traj -> In state traj ->
      In state trajectory \/
      exists t',
        fst (TowrRos.GetTrajectory_state ToXpp ToXppEndeffector
               GetQuaternionBaseToWorld GetAngularVelocityInWorld
               GetAngularAccelerationInWorld solution t' s) = Some state.
Proof.
  induction fuel as [| fuel IH]; intros t trajectory.
  - cbn. split; [reflexivity | discriminate].
  - cbn [TowrRos.GetTrajectory_while].
    destruct (Rle_dec t (T + 1 / 100000)) as [Hle | Hgt].
    + unfold bind at 1 2.
      destruct (TowrRos.GetTrajectory_state ToXpp ToXppEndeffector
                  GetQuaternionBaseToWorld GetAngularVelocityInWorld
                  GetAngularAccelerationInWorld solution t s)
        as [r s1] eqn:Es.
      rewrite ros_state_const in Es. injection Es as Er Es1. subst s1.
      destruct r as [state |].
      * destruct (IH (t + dt) (trajectory ++ [state])) as [Hs Hin].
        split; [exact Hs |].
        intros traj st E Hst.
        destruct (Hin traj st E Hst) as [Hold | Hnew]; [| right; exact Hnew].
        apply in_app_or in Hold. destruct Hold as [Hold | [E' | []]].
        -- left. exact Hold.
        -- right. exists t. rewrite ros_state_const. cbn [fst].
           subst st. exact Er.
      * cbn. split; [reflexivity | discriminate].
    + cbn. split; [reflexivity |].
      intros traj st E Hst. injection E as E. subst traj. left. exact Hst.
Qed.

Lemma ros_ee_body_Some (n_ee : nat) (t : R) (s : Store)
  (b : RobotStateCartesian) (a : nat) (b' : RobotStateCartesian) :
  ee_body n_ee t s b a = Some b' ->
  exists durations motion force,
    nth_error (SplineHolder.phase_durations_ solution) a = Some durations /\
    nth_error (SplineHolder.ee_motion_ solution) a = Some motion /\
    nth_error (SplineHolder.ee_force_ solution) a = Some force /\
    let ee_xpp := fst (ToXppEndeffector n_ee a) in
    (ee_xpp < length (ee_contact_ b))%nat /\
    (ee_xpp < length (ee_motion_ b))%nat /\
    (ee_xpp < length (ee_forces_ b))%nat /\
    ee_contact_ b'
    = set_at (ee_contact_ b) ee_xpp
             (fst (SplineHolder.IsContactPhase durations t s)) /\
    ee_motion_ b'
    = set_at (ee_motion_ b) ee_xpp
             (ToXpp (fst (SplineHolder.GetPoint motion t s))) /\
    ee_forces_ b'
    = set_at (ee_forces_ b) ee_xpp
             (p_ (fst (SplineHolder.GetPoint force t s))) /\
    base_ b' = base_ b.
Proof.
  unfold ee_body. rewrite ros_ee_const. cbn [fst]. cbv zeta.
  destruct (nth_error (SplineHolder.phase_durations_ solution) a)
    as [durations |]; cbn [option_bind]; [| discriminate].
  destruct (at_put (ee_contact_ b) _ _) as [contacts |] eqn:Ec;
    cbn [option_bind]; [| discriminate].
  destruct (nth_error (SplineHolder.ee_motion_ solution) a)
    as [motion |]; cbn [option_bind]; [| discriminate].
  destruct (at_put (ee_motion_ b) _ _) as [motions |] eqn:Em;
    cbn [option_bind]; [| discriminate].
  destruct (nth_error (SplineHolder.ee_force_ solution) a)
    as [force |]; cbn [option_bind]; [| discriminate].
  destruct (at_put (ee_forces_ b) _ _) as [forces |] eqn:Ef;
    cbn [option_bind]; [| discriminate].
  intros E. injection E as E. subst b'.
  apply at_put_Some in Ec, Em, Ef.
  destruct Ec as [Hc Ec], Em as [Hm Em], Ef as [Hf Ef].
  exists durations, motion, force.
  cbn [ee_contact_ ee_motion_ ee_forces_ base_].
  repeat split; assumption.
Qed.

(** What a state of the replay holds when the endeffector map separates
    the endeffectors. *)
Lemma ros_state_fields (t : R) (s : Store) (state : RobotStateCartesian) :
  let n_ee := length (SplineHolder.ee_motion_ solution) in
  (forall ee ee', (ee < n_ee)%nat -> (ee' < n_ee)%nat ->
                  fst (ToXppEndeffector n_ee ee)
                  = fst (ToXppEndeffector n_ee ee') -> ee = ee') ->
  fst (TowrRos.GetTrajectory_state ToXpp ToXppEndeffector
         GetQuaternionBaseToWorld GetAngularVelocityInWorld
         GetAngularAccelerationInWorld solution t s) = Some state ->
  t_global_ state = t /\
  base_ state
  = mkState3d
      (ToXpp (fst (SplineHolder.GetPoint
                     (SplineHolder.base_linear_ solution) t s)))
      (mkStateAng
         (fst (GetQuaternionBaseToWorld
                 (SplineHolder.base_angular_ solution) t s))
         (fst (GetAngularVelocityInWorld
                 (SplineHolder.base_angular_ solution) t s))
         (fst (GetAngularAccelerationInWorld
                 (SplineHolder.base_angular_ solution) t s))) /\
  forall ee_towr, (ee_towr < n_ee)%nat ->
    exists durations motion force,
      nth_error (SplineHolder.phase_durations_ solution) ee_towr
      = Some durations /\
      nth_error (SplineHolder.ee_motion_ solution) ee_towr = Some motion /\
      nth_error (SplineHolder.ee_force_ solution) ee_towr = Some force /\
      let ee_xpp := fst (ToXppEndeffector n_ee ee_towr) in
      nth ee_xpp (ee_contact_ state) false
      = fst (SplineHolder.IsContactPhase durations t s) /\
      nth ee_xpp (ee_motion_ state) StateLinXd_Zero
      = ToXpp (fst (SplineHolder.GetPoint motion t s)) /\
      nth ee_xpp (ee_forces_ state) Vector3d_Zero
      = p_ (fst (SplineHolder.GetPoint force t s)).
Proof.
  intros n_ee Hinj H. rewrite ros_state_const in H. cbn [fst] in H.
  cbv zeta in H. fold n_ee in H.
  destruct (option_fold (ee_body n_ee t s) (seq 0 n_ee) (state0 t s))
    as [r |] eqn:E; cbn [option_bind] in H; [| discriminate].
  injection H as H. subst state.
  cbn [t_global_ base_ ee_contact_ ee_motion_ ee_forces_].
  split; [reflexivity |]. split.
  - assert (Hbase : forall b a b', ee_body n_ee t s b a = Some b' ->
                                   base_ b' = base_ b).
    { intros b a b' Hb.
      destruct (ros_ee_body_Some _ _ _ _ _ _ Hb)
        as (d & m & f & _ & _ & _ & _ & _ & _ & _ & _ & _ & Hp).
      exact Hp. }
    rewrite (option_fold_preserves base_ (ee_body n_ee t s) Hbase _ _ _ E).
    reflexivity.
  - intros ee_towr Hee.
    assert (Hin : In ee_towr (seq 0 n_ee)) by (apply in_seq; lia).
    assert (Hinj' : forall a a', In a (seq 0 n_ee) -> In a' (seq 0 n_ee) ->
                                 fst (ToXppEndeffector n_ee a)
                                 = fst (ToXppEndeffector n_ee a') -> a = a').
    { intros a a' Ha Ha'. apply in_seq in Ha, Ha'. apply Hinj; lia. }
    pose proof (option_fold_at_put ee_contact_ (ee_body n_ee t s)
                  (fun a => fst (ToXppEndeffector n_ee a))
                  (fun a v => exists durations,
                       nth_error (SplineHolder.phase_durations_ solution) a
                       = Some durations /\
                       v = fst (SplineHolder.IsContactPhase durations t s))
                  false) as Hc.
    pose proof (option_fold_at_put ee_motion_ (ee_body n_ee t s)
                  (fun a => fst (ToXppEndeffector n_ee a))
                  (fun a v => exists motion,
                       nth_error (SplineHolder.ee_motion_ solution) a
                       = Some motion /\
                       v = ToXpp (fst (SplineHolder.GetPoint motion t s)))
                  StateLinXd_Zero) as Hm.
    pose proof (option_fold_at_put ee_forces_ (ee_body n_ee t s)
                  (fun a => fst (ToXppEndeffector n_ee a))
                  (fun a v => exists force,
                       nth_error (SplineHolder.ee_force_ solution) a
                       = Some force /\
                       v = p_ (fst (SplineHolder.GetPoint force t s)))
                  Vector3d_Zero) as Hf.
    destruct (Hc ltac:(intros b a b' Hb;
                       destruct (ros_ee_body_Some _ _ _ _ _ _ Hb)
                         as (d & m & f & Hx & _ & _ & Hlt & _ & _ & Hp & _);
                       eexists; split; [exists d; split; [exact Hx | reflexivity] |];
                       split; [exact Hlt | exact Hp])
                _ _ _ E (seq_NoDup _ _) Hinj' _ Hin) as (durations & Hd & Hcv).
    destruct (Hm ltac:(intros b a b' Hb;
                       destruct (ros_ee_body_Some _ _ _ _ _ _ Hb)
                         as (d & m & f & _ & Hx & _ & _ & Hlt & _ & _ & Hp & _);
                       eexists; split; [exists m; split; [exact Hx | reflexivity] |];
                       split; [exact Hlt | exact Hp])
                _ _ _ E (seq_NoDup _ _) Hinj' _ Hin) as (motion & Hmo & Hmv).
    destruct (Hf ltac:(intros b a b' Hb;
                       destruct (ros_ee_body_Some _ _ _ _ _ _ Hb)
                         as (d & m & f & _ & _ & Hx & _ & _ & Hlt & _ & _ & Hp & _);
                       eexists; split; [exists f; split; [exact Hx | reflexivity] |];
                       split; [exact Hlt | exact Hp])
                _ _ _ E (seq_NoDup _ _) Hinj' _ Hin) as (force & Hfo & Hfv).
    exists durations, motion, force. cbv zeta. repeat split; assumption.
Qed.

End RosConst.

Lemma Scenario_ros_const :
  TowrRos.const_queries Scenario.quaternion0 Scenario.angular0
                        Scenario.angular0 Scenario.solution0.
Proof.
  unfold TowrRos.const_queries, Scenario.solution0.
  cbn [SplineHolder.base_linear_ SplineHolder.base_angular_
       SplineHolder.ee_motion_ SplineHolder.ee_force_
       SplineHolder.phase_durations_].
  repeat split; try (intros t s; reflexivity); try (intros s; reflexivity).
  - intros spline t [E | [E | []]] s; subst spline; reflexivity.
  - intros spline t [E | [E | []]] s; subst spline; reflexivity.
  - intros durations t [E | [E | []]] s; subst durations; reflexivity.
Qed.

Lemma Scenario_ee_map_separates (ee ee' : nat) :
  (ee < 2)%nat -> (ee' < 2)%nat ->
  fst (Scenario.ToXppEndeffector0 2 ee)
  = fst (Scenario.ToXppEndeffector0 2 ee') -> ee = ee'.
Proof.
  unfold Scenario.ToXppEndeffector0. cbn [fst]. lia.
Qed.

Section RosReading.

Context {Store : Type}.
Variable ToXpp : StateLinXd -> StateLinXd.
Variable ToXppEndeffector : nat -> nat -> nat * string.
Variable GetQuaternionBaseToWorld :
  @SplineHolder.NodeSpline Store -> R -> Cmd Store Quaterniond.
Variable GetAngularVelocityInWorld :
  @SplineHolder.NodeSpline Store -> R -> Cmd Store Vector3d.
Variable GetAngularAccelerationInWorld :
  @SplineHolder.NodeSpline Store -> R -> Cmd Store Vector3d.
Variable this : @TowrRos.t Store.
Variable fuel : nat.

Hypothesis Hconst :
  TowrRos.const_queries GetQuaternionBaseToWorld GetAngularVelocityInWorld
    GetAngularAccelerationInWorld (TowrRos.GetSolution (TowrRos.towr_ this)).

Lemma ros_GetTrajectory_read_only :
  read_only (TowrRos.GetTrajectory ToXpp ToXppEndeffector
               GetQuaternionBaseToWorld GetAngularVelocityInWorld
               GetAngularAccelerationInWorld fuel this).
Proof.
  intros s. unfold TowrRos.GetTrajectory, bind.
  pose proof (proj1 Hconst s) as Hs.
  destruct (SplineHolder.GetTotalTime _ s) as [T s1].
  cbn [snd] in Hs. subst s1.
  apply (ros_while_const ToXpp ToXppEndeffector GetQuaternionBaseToWorld
           GetAngularVelocityInWorld GetAngularAccelerationInWorld _ Hconst).
Qed.

Lemma ros_GetTrajectory_states (s : Store) (traj : RobotStateVec)
  (state : RobotStateCartesian) :
  fst (TowrRos.GetTrajectory ToXpp ToXppEndeffector
         GetQuaternionBaseToWorld GetAngularVelocityInWorld
         GetAngularAccelerationInWorld fuel this s) = Returned traj ->
  In state traj ->
  exists t,
    fst (TowrRos.GetTrajectory_state ToXpp ToXppEndeffector
           GetQuaternionBaseToWorld GetAngularVelocityInWorld
           GetAngularAccelerationInWorld
           (TowrRos.GetSolution (TowrRos.towr_ this)) t s) = Some state.
Proof.
  unfold TowrRos.GetTrajectory, bind.
  pose proof (proj1 Hconst s) as Hs.
  destruct (SplineHolder.GetTotalTime _ s) as [T s1].
  cbn [snd] in Hs. subst s1.
  intros E Hin.
  destruct (ros_while_const ToXpp ToXppEndeffector GetQuaternionBaseToWorld
              GetAngularVelocityInWorld GetAngularAccelerationInWorld _ Hconst
              (TowrRos.visualization_dt_ this) T s fuel 0 []) as [_ H].
  destruct (H traj state E Hin) as [[] | Ht]. exact Ht.
Qed.

(** After a replay of iterations through reading queries, the objects
    behind the splines are as the last [SetSolution] left them: extracting
    once more gives the last trajectory again. *)
Lemma ros_replay_last (iters : list Z) (s s' : Store)
  (trajs : list RobotStateVec) :
  TowrRos.Replay ToXpp ToXppEndeffector GetQuaternionBaseToWorld
    GetAngularVelocityInWorld GetAngularAccelerationInWorld fuel this
    iters s trajs s' ->
  iters <> [] ->
  (exists s0, s' = snd (TowrRos.SetSolution (TowrRos.towr_ this)
                          (last iters 0%Z) s0)) /\
  TowrRos.GetTrajectory ToXpp ToXppEndeffector GetQuaternionBaseToWorld
    GetAngularVelocityInWorld GetAngularAccelerationInWorld fuel this s'
  = (Returned (last trajs []), s').
Proof.
  induction 1 as [s | iter iters s s1 s2 s3 trajectory trajs E1 E2 Hr IH];
    intros Hne.
  - congruence.
  - pose proof (ros_GetTrajectory_read_only s1) as Hs.
    rewrite E2 in Hs. cbn [snd] in Hs. subst s2.
    destruct iters as [| iter' iters].
    + inversion Hr; subst. cbn [last]. split; [| exact E2].
      exists s. reflexivity.
    + destruct (IH ltac:(discriminate)) as [Hs0 Hg].
      inversion Hr; subst.
      change (last (iter :: iter' :: iters) 0%Z)
        with (last (iter' :: iters) 0%Z).
      split; [exact Hs0 |].
      match goal with
      | |- _ = (Returned (last (trajectory :: ?x :: ?l) []), _) =>
          change (last (trajectory :: x :: l) []) with (last (x :: l) [])
      end.
      exact Hg.
Qed.

End RosReading.

Lemma last_iterations (count : Z) :
  (0 < count)%Z -> last (iterations count) 0%Z = (count - 1)%Z.
Proof.
  intros H. unfold iterations.
  replace (Z.to_nat count) with (Z.to_nat (count - 1) + 1)%nat by lia.
  rewrite seq_app, map_app. cbn [seq map]. rewrite last_last. lia.
Qed.

(** X23: when the queries of the solution only read and the solver made
    at least one iteration, [GetIntermediateSolutions] leaves the
    variables as [SetSolution] of the last iteration wrote them (it does
    not restore the ones it found), and a call of [GetTrajectory] right
    after it returns the last of the intermediate trajectories again. *)
Theorem TowrRos_GetIntermediateSolutions_leaves_last {Store : Type}
  (ToXpp : StateLinXd -> StateLinXd)
  (ToXppEndeffector : nat -> nat -> nat * string)
  (GetQuaternionBaseToWorld :
     @SplineHolder.NodeSpline Store -> R -> Cmd Store Quaterniond)
  (GetAngularVelocityInWorld GetAngularAccelerationInWorld :
     @SplineHolder.NodeSpline Store -> R -> Cmd Store Vector3d)
  (this : @TowrRos.t Store) (fuel : nat) (s s' : Store)
  (trajs : list RobotStateVec) :
  let count := TowrRos.GetIterationCount (TowrRos.towr_ this) in
  TowrRos.const_queries GetQuaternionBaseToWorld GetAngularVelocityInWorld
    GetAngularAccelerationInWorld (TowrRos.GetSolution (TowrRos.towr_ this)) ->
  (0 < count)%Z ->
  TowrRos.GetIntermediateSolutions ToXpp ToXppEndeffector
    GetQuaternionBaseToWorld GetAngularVelocityInWorld
    GetAngularAccelerationInWorld fuel this s = (Returned trajs, s') ->
  (exists s0, s' = snd (TowrRos.SetSolution (TowrRos.towr_ this)
                          (count - 1)%Z s0)) /\
  TowrRos.GetTrajectory ToXpp ToXppEndeffector GetQuaternionBaseToWorld
    GetAngularVelocityInWorld GetAngularAccelerationInWorld fuel this s'
  = (Returned (last trajs []), s').
Proof.
  intros count Hconst Hcount H.
  apply ros_for_each_replay in H. destruct H as (new & Hn & Hr).
  cbn [app] in Hn. subst new.
  rewrite <- (last_iterations count Hcount).
  apply (ros_replay_last ToXpp ToXppEndeffector GetQuaternionBaseToWorld
           GetAngularVelocityInWorld GetAngularAccelerationInWorld this fuel
           Hconst _ s s' trajs Hr).
  unfold iterations. fold count.
  replace (Z.to_nat count) with (S (Z.to_nat (count - 1))) by lia.
  discriminate.
Qed.

Lemma TowrRos_GetIntermediateSolutions_leaves_last_witness :
  exists trajs s',
    TowrRos.GetIntermediateSolutions Scenario.ToXpp0
      Scenario.ToXppEndeffector0 Scenario.quaternion0 Scenario.angular0
      Scenario.angular0 52 Scenario.ros0 7 = (Returned trajs, s') /\
    s' = 1 /\
    TowrRos.GetTrajectory Scenario.ToXpp0 Scenario.ToXppEndeffector0
      Scenario.quaternion0 Scenario.angular0 Scenario.angular0 52
      Scenario.ros0 s' = (Returned (last trajs []), s').
Proof.
  destruct (TowrRos_GetIntermediateSolutions_returns Scenario.ToXpp0
              Scenario.ToXppEndeffector0 Scenario.quaternion0
              Scenario.angular0 Scenario.angular0 Scenario.ros0 52 7
              Scenario_well_formed ltac:(simpl; lra)
              ltac:(intros s0; simpl; rewrite sample_count_fiftieth; lia)
              (iterations 2) []) as (trajs & s' & E).
  exists trajs, s'. split; [exact E |].
  destruct (TowrRos_GetIntermediateSolutions_leaves_last Scenario.ToXpp0
              Scenario.ToXppEndeffector0 Scenario.quaternion0
              Scenario.angular0 Scenario.angular0 Scenario.ros0 52 7 s' trajs
              Scenario_ros_const ltac:(simpl; lia) E) as [[s0 Hs0] Hg].
  split; [| exact Hg].
  rewrite Hs0. simpl. lra.
Defined.

(** X24: when the queries of the solution only read and the endeffector
    map sends different endeffectors to different places, every state of
    a returned replay holds, for its own time [t]: the base from the base
    splines at [t], and at the place of each endeffector the contact flag
    that the phase durations give at [t], the converted point of its
    motion spline and the position part of its force spline. *)
Theorem TowrRos_GetTrajectory_state_fields {Store : Type}
  (ToXpp : StateLinXd -> StateLinXd)
  (ToXppEndeffector : nat -> nat -> nat * string)
  (GetQuaternionBaseToWorld :
     @SplineHolder.NodeSpline Store -> R -> Cmd Store Quaterniond)
  (GetAngularVelocityInWorld GetAngularAccelerationInWorld :
     @SplineHolder.NodeSpline Store -> R -> Cmd Store Vector3d)
  (this : @TowrRos.t Store) (fuel : nat) (s : Store)
  (traj : RobotStateVec) (state : RobotStateCartesian) :
  let solution := TowrRos.GetSolution (TowrRos.towr_ this) in
  let n_ee := length (SplineHolder.ee_motion_ solution) in
  TowrRos.const_queries GetQuaternionBaseToWorld GetAngularVelocityInWorld
    GetAngularAccelerationInWorld solution ->
  (forall ee ee', (ee < n_ee)%nat -> (ee' < n_ee)%nat ->
                  fst (ToXppEndeffector n_ee ee)
                  = fst (ToXppEndeffector n_ee ee') -> ee = ee') ->
  fst (TowrRos.GetTrajectory ToXpp ToXppEndeffector GetQuaternionBaseToWorld
         GetAngularVelocityInWorld GetAngularAccelerationInWorld fuel this s)
  = Returned traj ->
  In state traj ->
  let t := t_global_ state in
  base_ state
  = mkState3d
      (ToXpp (fst (SplineHolder.GetPoint
                     (SplineHolder.base_linear_ solution) t s)))
      (mkStateAng
         (fst (GetQuaternionBaseToWorld
                 (SplineHolder.base_angular_ solution) t s))
         (fst (GetAngularVelocityInWorld
                 (SplineHolder.base_angular_ solution) t s))
         (fst (GetAngularAccelerationInWorld
                 (SplineHolder.base_angular_ solution) t s))) /\
  forall ee_towr, (ee_towr < n_ee)%nat ->
    exists durations motion force,
      nth_error (SplineHolder.phase_durations_ solution) ee_towr
      = Some durations /\
      nth_error (SplineHolder.ee_motion_ solution) ee_towr = Some motion /\
      nth_error (SplineHolder.ee_force_ solution) ee_towr = Some force /\
      let ee_xpp := fst (ToXppEndeffector n_ee ee_towr) in
      nth ee_xpp (ee_contact_ state) false
      = fst (SplineHolder.IsContactPhase durations t s) /\
      nth ee_xpp (ee_motion_ state) StateLinXd_Zero
      = ToXpp (fst (SplineHolder.GetPoint motion t s)) /\
      nth ee_xpp (ee_forces_ state) Vector3d_Zero
      = p_ (fst (SplineHolder.GetPoint force t s)).
Proof.
  intros solution n_ee Hconst Hinj E Hin t.
  destruct (ros_GetTrajectory_states ToXpp ToXppEndeffector
              GetQuaternionBaseToWorld GetAngularVelocityInWorld
              GetAngularAccelerationInWorld this fuel Hconst s traj state
              E Hin) as [t' Ht'].
  destruct (ros_state_fields ToXpp ToXppEndeffector GetQuaternionBaseToWorld
              GetAngularVelocityInWorld GetAngularAccelerationInWorld
              solution Hconst t' s state Hinj Ht') as (Ht & Hbase & Hees).
  subst t. rewrite Ht. split; [exact Hbase | exact Hees].
Qed.

Lemma TowrRos_GetTrajectory_state_fields_witness :
  exists traj,
    fst (TowrRos.GetTrajectory Scenario.ToXpp0 Scenario.ToXppEndeffector0
           Scenario.quaternion0 Scenario.angular0 Scenario.angular0
           52 Scenario.ros0 7) = Returned traj /\
    forall state, In state traj ->
      nth 1 (ee_contact_ state) false
      = (if Rle_dec (t_global_ state) (1 / 2) then true else false).
Proof.
  destruct (TowrRos_GetTrajectory_walks_time Scenario.ToXpp0
              Scenario.ToXppEndeffector0 Scenario.quaternion0
              Scenario.angular0 Scenario.angular0 Scenario.ros0 52 7
              Scenario_well_formed ltac:(simpl; lra)
              ltac:(simpl; rewrite sample_count_fiftieth; lia))
    as (traj & E & _).
  exists traj. split; [exact E |].
  intros state Hin.
  destruct (TowrRos_GetTrajectory_state_fields Scenario.ToXpp0
              Scenario.ToXppEndeffector0 Scenario.quaternion0
              Scenario.angular0 Scenario.angular0 Scenario.ros0 52 7 traj
              state Scenario_ros_const Scenario_ee_map_separates E Hin)
    as [_ Hees].
  destruct (Hees 0%nat ltac:(simpl; lia))
    as (durations & motion & force & Hd & _ & _ & Hc & _).
  simpl in Hd. injection Hd as Hd. subst durations.
  exact Hc.
Defined.

(** *** The bag: [SaveTrajectoryInRosbag], [SaveOptimizationAsRosbag] *)

Lemma option_fold_invariant {A B : Type} (body : B -> A -> option B)
  (Inv : B -> Prop) (l : list A) :
  (forall b a b', In a l -> Inv b -> body b a = Some b' -> Inv b') ->
  forall b r, Inv b -> option_fold body l b = Some r -> Inv r.
Proof.
  induction l as [| a l IH]; intros Hbody b r Hb E.
  - injection E as E. subst r. exact Hb.
  - cbn [option_fold] in E. destruct (body b a) as [b' |] eqn:Eb;
      cbn [option_bind] in E; [| discriminate].
    apply (IH (fun b0 a0 b0' Hin => Hbody b0 a0 b0' (or_intror Hin)) b' r);
      [| exact E].
    apply (Hbody b a b' (or_introl eq_refl) Hb Eb).
Qed.

(** The loop over the feet with a terrain: one normal per foot, in order,
    and the friction coefficient of the terrain as soon as there is a
    foot. *)
Lemma terrain_msg_loop (terrain : Terrain) (ees : list StateLinXd) :
  forall terrain_msg,
    option_fold (TowrRos.terrain_msg_ee (Some terrain)) ees terrain_msg
    = Some (mkTerrainInfo
              (surface_normals terrain_msg
               ++ map (fun ee => GetNormalizedBasis_Normal terrain
                                   (vx (p_ ee)) (vy (p_ ee))) ees)
              (match ees with
               | [] => friction_coeff terrain_msg
               | _ :: _ => GetFrictionCoeff terrain
               end)).
Proof.
  induction ees as [| ee ees IH]; intros terrain_msg.
  - cbn. rewrite app_nil_r. destruct terrain_msg; reflexivity.
  - cbn [option_fold TowrRos.terrain_msg_ee option_bind].
    rewrite IH. cbn [surface_normals friction_coeff map].
    rewrite <- app_assoc. destruct ees; reflexivity.
Qed.

Section RosBagFacts.

Context {Store : Type}.
Variable TowrCommandMsg : Type.
Variable terrain_info : string.
Variable default_friction_coeff : R.
Variable this : @TowrRos.t Store.

(** The two entries written for one state. *)
Let entries (terrain : Terrain) (topic : string) (traj : RobotStateVec)
  : list (BagEntry TowrCommandMsg) :=
  flat_map
    (fun state =>
       [mkBagEntry topic (t_global_ state + 1 / 1000000)
                   (Msg_RobotStateCartesian state);
        mkBagEntry terrain_info (t_global_ state + 1 / 1000000)
          (Msg_TerrainInfo
             (mkTerrainInfo
                (map (fun ee => GetNormalizedBasis_Normal terrain
                                  (vx (p_ ee)) (vy (p_ ee)))
                     (ee_motion_ state))
                (match ee_motion_ state with
                 | [] => default_friction_coeff
                 | _ :: _ => GetFrictionCoeff terrain
                 end)))])
    traj.

Lemma SaveTrajectoryInRosbag_entries (terrain : Terrain) (topic : string) :
  TowrRos.terrain_ this = Some terrain ->
  forall (traj : RobotStateVec) (bag : list (BagEntry TowrCommandMsg)),
    TowrRos.SaveTrajectoryInRosbag TowrCommandMsg terrain_info
      default_friction_coeff this bag traj topic
    = Some (bag ++ entries terrain topic traj).
Proof.
  intros Ht. unfold TowrRos.SaveTrajectoryInRosbag.
  induction traj as [| state traj IH]; intros bag.
  - cbn. rewrite app_nil_r. reflexivity.
  - cbn [option_fold]. unfold TowrRos.SaveTrajectoryInRosbag_state at 1.
    cbv zeta. rewrite Ht, terrain_msg_loop.
    cbn [option_bind surface_normals friction_coeff app].
    rewrite IH. unfold entries. cbn [flat_map].
    rewrite <- !app_assoc. reflexivity.
Qed.

Lemma SaveTrajectoryInRosbag_times (topic : string) (traj : RobotStateVec) :
  Forall (fun state => 0 <= t_global_ state) traj ->
  forall bag bag',
    Forall (fun e => 1 / 1000000 <= entry_time e) bag ->
    TowrRos.SaveTrajectoryInRosbag TowrCommandMsg terrain_info
      default_friction_coeff this bag traj topic = Some bag' ->
    Forall (fun e => 1 / 1000000 <= entry_time e) bag'.
Proof.
  intros Htraj bag bag'. unfold TowrRos.SaveTrajectoryInRosbag.
  apply option_fold_invariant.
  intros b state b' Hin Hb.
  unfold TowrRos.SaveTrajectoryInRosbag_state. cbv zeta.
  destruct (option_fold _ _ _) as [terrain_msg |]; cbn [option_bind];
    [| discriminate].
  intros E. injection E as E. subst b'.
  pose proof (proj1 (Forall_forall _ _) Htraj state Hin) as Ht.
  cbn beta in Ht.
  rewrite !Forall_app. repeat split; [exact Hb | |].
  - constructor; [cbn; lra | constructor].
  - constructor; [cbn; lra | constructor].
Qed.

Section Iterations.

Variable nlp_iterations_name : string.

Let save (trajectories : list RobotStateVec)
  (bag : list (BagEntry TowrCommandMsg)) (i : nat) :=
  option_bind (nth_error trajectories i) (fun trajectory =>
  TowrRos.SaveTrajectoryInRosbag TowrCommandMsg terrain_info
    default_friction_coeff this bag trajectory
    (nlp_iterations_name ++ to_string i)%string).

Lemma save_iterations_loop (terrain : Terrain) :
  TowrRos.terrain_ this = Some terrain ->
  forall (rest done : list RobotStateVec) (bag : list (BagEntry TowrCommandMsg)),
    option_fold (save (done ++ rest)) (seq (length done) (length rest)) bag
    = Some (bag ++ concat
              (map (fun it => entries terrain
                                (nlp_iterations_name ++ to_string (fst it))%string
                                (snd it))
                   (combine (seq (length done) (length rest)) rest))).
Proof.
  intros Ht. induction rest as [| trajectory rest IH]; intros done bag.
  - cbn. rewrite app_nil_r. reflexivity.
  - cbn [length seq option_fold combine map concat fst snd].
    unfold save at 1.
    rewrite nth_error_app2, Nat.sub_diag by lia.
    cbn [nth_error option_bind].
    rewrite (SaveTrajectoryInRosbag_entries terrain _ Ht).
    cbn [option_bind].
    replace (done ++ trajectory :: rest) with ((done ++ [trajectory]) ++ rest)
      by (rewrite <- app_assoc; reflexivity).
    replace (S (length done)) with (length (done ++ [trajectory]))
      by (rewrite length_app; cbn; lia).
    rewrite IH, <- app_assoc. reflexivity.
Qed.

Lemma save_iterations_entries (terrain : Terrain)
  (trajectories : list RobotStateVec) (bag : list (BagEntry TowrCommandMsg)) :
  TowrRos.terrain_ this = Some terrain ->
  TowrRos.save_iterations TowrCommandMsg nlp_iterations_name terrain_info
    default_friction_coeff this trajectories bag
  = Some (bag ++ concat
            (map (fun it => entries terrain
                              (nlp_iterations_name ++ to_string (fst it))%string
                              (snd it))
                 (combine (seq 0 (length trajectories)) trajectories))).
Proof.
  intros Ht. exact (save_iterations_loop terrain Ht trajectories [] bag).
Qed.

Lemma save_iterations_times (trajectories : list RobotStateVec) :
  Forall (Forall (fun state => 0 <= t_global_ state)) trajectories ->
  forall bag bag',
    Forall (fun e => 1 / 1000000 <= entry_time e) bag ->
    TowrRos.save_iterations TowrCommandMsg nlp_iterations_name terrain_info
      default_friction_coeff this trajectories bag = Some bag' ->
    Forall (fun e => 1 / 1000000 <= entry_time e) bag'.
Proof.
  intros Htrajs bag bag'. unfold TowrRos.save_iterations.
  apply option_fold_invariant.
  intros b i b' _ Hb.
  destruct (nth_error trajectories i) as [trajectory |] eqn:En;
    cbn [option_bind]; [| discriminate].
  apply SaveTrajectoryInRosbag_times; [| exact Hb].
  apply (proj1 (Forall_forall _ _) Htrajs). apply (nth_error_In _ _ En).
Qed.

End Iterations.

End RosBagFacts.

Section RosTimes.

Context {Store : Type}.
Variable ToXpp : StateLinXd -> StateLinXd.
Variable ToXppEndeffector : nat -> nat -> nat * string.
Variable GetQuaternionBaseToWorld :
  @SplineHolder.NodeSpline Store -> R -> Cmd Store Quaterniond.
Variable GetAngularVelocityInWorld :
  @SplineHolder.NodeSpline Store -> R -> Cmd Store Vector3d.
Variable GetAngularAccelerationInWorld :
  @SplineHolder.NodeSpline Store -> R -> Cmd Store Vector3d.

Let GetTrajectory_state :=
  TowrRos.GetTrajectory_state ToXpp ToXppEndeffector GetQuaternionBaseToWorld
    GetAngularVelocityInWorld GetAngularAccelerationInWorld.

Let GetTrajectory_while :=
  TowrRos.GetTrajectory_while ToXpp ToXppEndeffector GetQuaternionBaseToWorld
    GetAngularVelocityInWorld GetAngularAccelerationInWorld.

Lemma ros_state_t_global (solution : @SplineHolder.t Store) (t : R)
  (s : Store) (state : RobotStateCartesian) :
  fst (GetTrajectory_state solution t s) = Some state -> t_global_ state = t.
Proof.
  unfold GetTrajectory_state, TowrRos.GetTrajectory_state. cbv zeta.
  unfold bind at 1. destruct (SplineHolder.GetPoint _ t s) as [base_lin s1].
  unfold bind at 1. destruct (GetQuaternionBaseToWorld _ t s1) as [q' s2].
  unfold bind at 1. destruct (GetAngularVelocityInWorld _ t s2) as [w' s3].
  unfold bind at 1.
  destruct (GetAngularAccelerationInWorld _ t s3) as [wd' s4].
  unfold bind_throw, bind.
  destruct (TowrRos.GetTrajectory_ees _ _ _ _ _ _ _ s4) as [[state' |] s5];
    cbn [fst ret]; [| discriminate].
  intros E. injection E as E. subst state. reflexivity.
Qed.

(** A step that does not advance the time never lets the loop end once it
    is entered. *)
Lemma ros_while_no_advance (solution : @SplineHolder.t Store) (dt T : R)
  (fuel : nat) :
  dt <= 0 ->
  forall t trajectory s r,
    t <= T + 1 / 100000 ->
    fst (GetTrajectory_while solution dt T fuel t trajectory s) <> Returned r.
Proof.
  intros Hdt. induction fuel as [| fuel IH]; intros t trajectory s r Ht.
  - cbn. discriminate.
  - unfold GetTrajectory_while in *. cbn [TowrRos.GetTrajectory_while].
    destruct (Rle_dec t (T + 1 / 100000)) as [Hle | Hgt]; [| lra].
    unfold bind at 1.
    destruct (TowrRos.GetTrajectory_state _ _ _ _ _ solution t s)
      as [[state |] s1].
    + apply IH. lra.
    + cbn. discriminate.
Qed.

Lemma ros_while_nonneg (solution : @SplineHolder.t Store) (dt T : R)
  (fuel : nat) :
  0 <= dt ->
  forall t trajectory s r,
    0 <= t ->
    Forall (fun state => 0 <= t_global_ state) trajectory ->
    fst (GetTrajectory_while solution dt T fuel t trajectory s) = Returned r ->
    Forall (fun state => 0 <= t_global_ state) r.
Proof.
  intros Hdt. induction fuel as [| fuel IH]; intros t trajectory s r Ht Hacc.
  - cbn. discriminate.
  - unfold GetTrajectory_while in *. cbn [TowrRos.GetTrajectory_while].
    destruct (Rle_dec t (T + 1 / 100000)) as [Hle | Hgt].
    + unfold bind at 1.
      pose proof (ros_state_t_global solution t s) as Hst.
      unfold GetTrajectory_state in Hst.
      destruct (TowrRos.GetTrajectory_state _ _ _ _ _ solution t s)
        as [[state |] s1].
      * apply IH; [lra |].
        apply Forall_app. split; [exact Hacc |].
        constructor; [| constructor].
        rewrite (Hst state eq_refl). exact Ht.
      * cbn. discriminate.
    + cbn. intros E. injection E as E. subst r. exact Hacc.
Qed.

Variable this : @TowrRos.t Store.
Variable fuel : nat.

(** No state of a returned replay lies before time [0], whatever the
    step is. *)
Lemma ros_GetTrajectory_nonneg (s : Store) (traj : RobotStateVec) :
  fst (TowrRos.GetTrajectory ToXpp ToXppEndeffector GetQuaternionBaseToWorld
         GetAngularVelocityInWorld GetAngularAccelerationInWorld fuel this s)
  = Returned traj ->
  Forall (fun state => 0 <= t_global_ state) traj.
Proof.
  unfold TowrRos.GetTrajectory. unfold bind at 1.
  destruct (SplineHolder.GetTotalTime _ s) as [T s1].
  fold GetTrajectory_while. intros E.
  destruct (Rle_dec 0 (TowrRos.visualization_dt_ this)) as [Hdt | Hdt].
  - eapply ros_while_nonneg with (4 := E); [exact Hdt | lra | constructor].
  - destruct (Rle_dec 0 (T + 1 / 100000)) as [Hin | Hout].
    + exfalso.
      apply (ros_while_no_advance (TowrRos.GetSolution (TowrRos.towr_ this))
               (TowrRos.visualization_dt_ this) T fuel
               ltac:(lra) 0 [] s1 traj Hin).
      exact E.
    + unfold GetTrajectory_while in E. destruct fuel as [| fuel'].
      * cbn in E. discriminate.
      * cbn [TowrRos.GetTrajectory_while] in E.
        destruct (Rle_dec 0 (T + 1 / 100000)) as [Hin | _]; [contradiction |].
        cbn in E. injection E as E. subst traj. constructor.
Qed.

Lemma ros_replay_nonneg (iters : list Z) (s s' : Store)
  (trajs : list RobotStateVec) :
  TowrRos.Replay ToXpp ToXppEndeffector GetQuaternionBaseToWorld
    GetAngularVelocityInWorld GetAngularAccelerationInWorld fuel this
    iters s trajs s' ->
  Forall (Forall (fun state => 0 <= t_global_ state)) trajs.
Proof.
  induction 1 as [s | iter iters s s1 s2 s3 trajectory trajs E1 E2 _ IH].
  - constructor.
  - constructor; [| exact IH].
    apply (ros_GetTrajectory_nonneg s1). rewrite E2. reflexivity.
Qed.

End RosTimes.

(** X25: with a terrain, [SaveTrajectoryInRosbag] only appends: for each
    state in order, the state under [topic] and a terrain message under
    [terrain_info], both at the time of the state plus [1e-6].  The
    terrain message has one surface normal per foot, taken at the foot's
    [x] and [y], and the friction coefficient of the terrain, except for a
    state without feet, whose message keeps the coefficient of a fresh
    message. *)
Theorem SaveTrajectoryInRosbag_appends {Store : Type} (TowrCommandMsg : Type)
  (terrain_info : string) (default_friction_coeff : R)
  (this : @TowrRos.t Store) (terrain : Terrain)
  (bag : list (BagEntry TowrCommandMsg)) (traj : RobotStateVec)
  (topic : string) :
  TowrRos.terrain_ this = Some terrain ->
  TowrRos.SaveTrajectoryInRosbag TowrCommandMsg terrain_info
    default_friction_coeff this bag traj topic
  = Some
      (bag ++
       flat_map
         (fun state =>
            let timestamp := t_global_ state + 1 / 1000000 in
            [mkBagEntry topic timestamp (Msg_RobotStateCartesian state);
             mkBagEntry terrain_info timestamp
               (Msg_TerrainInfo
                  (mkTerrainInfo
                     (map (fun ee => GetNormalizedBasis_Normal terrain
                                       (vx (p_ ee)) (vy (p_ ee)))
                          (ee_motion_ state))
                     (match ee_motion_ state with
                      | [] => default_friction_coeff
                      | _ :: _ => GetFrictionCoeff terrain
                      end)))])
         traj).
Proof.
  intros Ht.
  exact (SaveTrajectoryInRosbag_entries TowrCommandMsg terrain_info
           default_friction_coeff this terrain topic Ht traj bag).
Qed.

Lemma SaveTrajectoryInRosbag_appends_witness :
  exists bag,
    TowrRos.SaveTrajectoryInRosbag unit "terrain" 0 Scenario.ros0 []
      [RobotStateCartesian_new 0; RobotStateCartesian_new 2] "state"
    = Some bag /\
    map (@entry_topic unit) bag = ["state"; "terrain"; "state"; "terrain"]%string.
Proof.
  eexists. split.
  - apply (SaveTrajectoryInRosbag_appends unit "terrain" 0 Scenario.ros0
             Scenario.terrain0 []
             [RobotStateCartesian_new 0; RobotStateCartesian_new 2] "state").
    reflexivity.
  - reflexivity.
Defined.

Section RosSave.

Context {Store : Type}.
Variable ToXpp : StateLinXd -> StateLinXd.
Variable ToXppEndeffector : nat -> nat -> nat * string.
Variable GetQuaternionBaseToWorld :
  @SplineHolder.NodeSpline Store -> R -> Cmd Store Quaterniond.
Variable GetAngularVelocityInWorld :
  @SplineHolder.NodeSpline Store -> R -> Cmd Store Vector3d.
Variable GetAngularAccelerationInWorld :
  @SplineHolder.NodeSpline Store -> R -> Cmd Store Vector3d.
Variable TowrCommandMsg : Type.
Variable robot_parameters_topic : string.
Variable user_command_topic : string.
Variable nlp_iterations_name : string.
Variable nlp_iterations_count : string.
Variable robot_state_desired : string.
Variable terrain_info : string.
Variable default_friction_coeff : R.
Variable fuel : nat.
Variable this : @TowrRos.t Store.
Variable robot_params : RobotParameters.
Variable user_command_msg : TowrCommandMsg.

Let GetTrajectory :=
  TowrRos.GetTrajectory ToXpp ToXppEndeffector GetQuaternionBaseToWorld
    GetAngularVelocityInWorld GetAngularAccelerationInWorld fuel this.

Let GetIntermediateSolutions :=
  TowrRos.GetIntermediateSolutions ToXpp ToXppEndeffector
    GetQuaternionBaseToWorld GetAngularVelocityInWorld
    GetAngularAccelerationInWorld fuel this.

Let SaveOptimizationAsRosbag :=
  TowrRos.SaveOptimizationAsRosbag ToXpp ToXppEndeffector
    GetQuaternionBaseToWorld GetAngularVelocityInWorld
    GetAngularAccelerationInWorld TowrCommandMsg robot_parameters_topic
    user_command_topic nlp_iterations_name nlp_iterations_count
    robot_state_desired terrain_info default_friction_coeff fuel this
    robot_params user_command_msg.

Let SaveTrajectoryInRosbag :=
  TowrRos.SaveTrajectoryInRosbag TowrCommandMsg terrain_info
    default_friction_coeff this.

Let save_iterations :=
  TowrRos.save_iterations TowrCommandMsg nlp_iterations_name terrain_info
    default_friction_coeff this.

Let header : list (BagEntry TowrCommandMsg) :=
  [mkBagEntry robot_parameters_topic (1 / 1000000)
              (Msg_RobotParameters robot_params);
   mkBagEntry (user_command_topic ++ "_saved")%string (1 / 1000000)
              (Msg_TowrCommand user_command_msg)].

(** The call without the iterations, in terms of the calls it makes. *)
Lemma SaveOptimizationAsRosbag_final (s : Store) :
  SaveOptimizationAsRosbag false s
  = (match fst (GetTrajectory s) with
     | Returned final_trajectory =>
         SaveTrajectoryInRosbag header final_trajectory robot_state_desired
     | _ => None
     end, snd (GetTrajectory s)).
Proof.
  unfold SaveOptimizationAsRosbag, TowrRos.SaveOptimizationAsRosbag.
  cbv zeta. unfold bind_throw at 1, bind at 1. cbn [ret].
  unfold bind at 1. fold GetTrajectory.
  destruct (GetTrajectory s) as [[final | |] s2]; reflexivity.
Qed.

(** The call with the iterations, when the replay of the iterations
    returns. *)
Lemma SaveOptimizationAsRosbag_iterations (s s1 : Store)
  (trajectories : list RobotStateVec) :
  GetIntermediateSolutions s = (Returned trajectories, s1) ->
  SaveOptimizationAsRosbag true s
  = match
      option_bind (save_iterations trajectories header)
        (fun bag =>
           Some (bag ++ [mkBagEntry nlp_iterations_count (1 / 1000000)
                           (Msg_Int32 (Z.of_nat (length trajectories)))]))
    with
    | Some bag =>
        (match fst (GetTrajectory s1) with
         | Returned final_trajectory =>
             SaveTrajectoryInRosbag bag final_trajectory robot_state_desired
         | _ => None
         end, snd (GetTrajectory s1))
    | None => (None, s1)
    end.
Proof.
  intros E.
  unfold SaveOptimizationAsRosbag, TowrRos.SaveOptimizationAsRosbag.
  cbv zeta. unfold bind_throw at 1, bind at 1 2.
  fold GetIntermediateSolutions. rewrite E. cbn [ret].
  fold save_iterations. fold header.
  destruct (option_bind (save_iterations trajectories header) _) as [bag |].
  - unfold bind at 1. fold GetTrajectory.
    destruct (GetTrajectory s1) as [[final | |] s2]; reflexivity.
  - reflexivity.
Qed.

Lemma SaveOptimizationAsRosbag_not_returned (s : Store) :
  (forall trajectories, fst (GetIntermediateSolutions s)
                        <> Returned trajectories) ->
  fst (SaveOptimizationAsRosbag true s) = None.
Proof.
  intros H.
  unfold SaveOptimizationAsRosbag, TowrRos.SaveOptimizationAsRosbag.
  cbv zeta. unfold bind_throw at 1, bind at 1 2.
  fold GetIntermediateSolutions.
  destruct (GetIntermediateSolutions s) as [[trajectories | |] s1];
    cbn [fst ret] in *; [| reflexivity | reflexivity].
  exfalso. apply (H trajectories). reflexivity.
Qed.

Lemma header_times : Forall (fun e => 1 / 1000000 <= entry_time e) header.
Proof. repeat constructor; cbn; lra. Qed.

Lemma SaveOptimizationAsRosbag_times (include_iterations : bool) (s : Store)
  (bag : list (BagEntry TowrCommandMsg)) :
  fst (SaveOptimizationAsRosbag include_iterations s) = Some bag ->
  Forall (fun e => 1 / 1000000 <= entry_time e) bag.
Proof.
  assert (Hfinal : forall s1 bag0,
             Forall (fun e => 1 / 1000000 <= entry_time e) bag0 ->
             match fst (GetTrajectory s1) with
             | Returned final_trajectory =>
                 SaveTrajectoryInRosbag bag0 final_trajectory
                                        robot_state_desired
             | _ => None
             end = Some bag ->
             Forall (fun e => 1 / 1000000 <= entry_time e) bag).
  { intros s1 bag0 Hbag0 E.
    destruct (fst (GetTrajectory s1)) as [final | |] eqn:Eg;
      [| discriminate | discriminate].
    apply (SaveTrajectoryInRosbag_times TowrCommandMsg terrain_info
             default_friction_coeff this robot_state_desired final
             (ros_GetTrajectory_nonneg ToXpp ToXppEndeffector
                GetQuaternionBaseToWorld GetAngularVelocityInWorld
                GetAngularAccelerationInWorld this fuel s1 final Eg)
             bag0 bag Hbag0 E). }
  destruct include_iterations.
  - destruct (GetIntermediateSolutions s) as [r s1] eqn:Ei.
    destruct r as [trajectories | |].
    + rewrite (SaveOptimizationAsRosbag_iterations s s1 trajectories Ei).
      destruct (save_iterations trajectories header) as [bag1 |] eqn:Es;
        cbn [option_bind fst]; [| discriminate].
      apply Hfinal.
      apply Forall_app. split; [| repeat constructor; cbn; lra].
      apply (save_iterations_times TowrCommandMsg terrain_info
               default_friction_coeff this nlp_iterations_name trajectories)
        with (bag := header); [| exact header_times | exact Es].
      apply ros_for_each_replay in Ei. destruct Ei as (new & Hn & Hr).
      cbn [app] in Hn. subst new.
      apply (ros_replay_nonneg _ _ _ _ _ _ _ _ _ _ _ Hr).
    + rewrite SaveOptimizationAsRosbag_not_returned; [discriminate |].
      intros trajectories. rewrite Ei. discriminate.
    + rewrite SaveOptimizationAsRosbag_not_returned; [discriminate |].
      intros trajectories. rewrite Ei. discriminate.
  - rewrite SaveOptimizationAsRosbag_final. cbn [fst].
    apply Hfinal. exact header_times.
Qed.

End RosSave.

(** X26: whenever [SaveOptimizationAsRosbag] returns, with or without
    the iterations and whatever the step and the total time are, every
    entry of the bag was written at a time of at least [1e-6]: no write
    happens at time [0] or before it. *)
Theorem SaveOptimizationAsRosbag_never_at_time_zero {Store : Type}
  (ToXpp : StateLinXd -> StateLinXd)
  (ToXppEndeffector : nat -> nat -> nat * string)
  (GetQuaternionBaseToWorld :
     @SplineHolder.NodeSpline Store -> R -> Cmd Store Quaterniond)
  (GetAngularVelocityInWorld GetAngularAccelerationInWorld :
     @SplineHolder.NodeSpline Store -> R -> Cmd Store Vector3d)
  (TowrCommandMsg : Type)
  (robot_parameters_topic user_command_topic nlp_iterations_name
     nlp_iterations_count robot_state_desired terrain_info : string)
  (default_friction_coeff : R) (fuel : nat) (this : @TowrRos.t Store)
  (robot_params : RobotParameters) (user_command_msg : TowrCommandMsg)
  (include_iterations : bool) (s : Store)
  (bag : list (BagEntry TowrCommandMsg)) :
  fst (TowrRos.SaveOptimizationAsRosbag ToXpp ToXppEndeffector
         GetQuaternionBaseToWorld GetAngularVelocityInWorld
         GetAngularAccelerationInWorld TowrCommandMsg robot_parameters_topic
         user_command_topic nlp_iterations_name nlp_iterations_count
         robot_state_desired terrain_info default_friction_coeff fuel this
         robot_params user_command_msg include_iterations s) = Some bag ->
  Forall (fun e => 1 / 1000000 <= entry_time e) bag.
Proof.
  apply SaveOptimizationAsRosbag_times.
Qed.

Lemma SaveOptimizationAsRosbag_never_at_time_zero_witness :
  exists bag,
    fst (TowrRos.SaveOptimizationAsRosbag Scenario.ToXpp0
           Scenario.ToXppEndeffector0 Scenario.quaternion0 Scenario.angular0
           Scenario.angular0 unit "parameters" "command" "iteration" "count"
           "state" "terrain" 0 52 Scenario.ros0
           (mkRobotParameters Vector3d_Zero [] [] 1) tt false 7) = Some bag /\
    Forall (fun e => 1 / 1000000 <= entry_time e) bag.
Proof.
  destruct (TowrRos_GetTrajectory_walks_time Scenario.ToXpp0
              Scenario.ToXppEndeffector0 Scenario.quaternion0
              Scenario.angular0 Scenario.angular0 Scenario.ros0 52 7
              Scenario_well_formed ltac:(simpl; lra)
              ltac:(simpl; rewrite sample_count_fiftieth; lia))
    as (traj & E & _).
  assert (Hrun : exists bag,
             fst (TowrRos.SaveOptimizationAsRosbag Scenario.ToXpp0
                    Scenario.ToXppEndeffector0 Scenario.quaternion0
                    Scenario.angular0 Scenario.angular0 unit "parameters"
                    "command" "iteration" "count" "state" "terrain" 0 52
                    Scenario.ros0 (mkRobotParameters Vector3d_Zero [] [] 1)
                    tt false 7) = Some bag).
  { rewrite SaveOptimizationAsRosbag_final. cbn [fst]. rewrite E.
    rewrite (SaveTrajectoryInRosbag_entries unit "terrain" 0 Scenario.ros0
               Scenario.terrain0 "state" eq_refl).
    eexists. reflexivity. }
  destruct Hrun as [bag Hbag]. exists bag. split; [exact Hbag |].
  apply (SaveOptimizationAsRosbag_never_at_time_zero Scenario.ToXpp0
           Scenario.ToXppEndeffector0 Scenario.quaternion0 Scenario.angular0
           Scenario.angular0 unit "parameters" "command" "iteration" "count"
           "state" "terrain" 0 52 Scenario.ros0
           (mkRobotParameters Vector3d_Zero [] [] 1) tt false 7 bag Hbag).
Defined.

(** X27: with a terrain, when the replay of the iterations and the final
    extraction return, the bag of [SaveOptimizationAsRosbag] with the
    iterations holds, in this order: the robot parameters and the user
    command (topic with [_saved] appended) at [1e-6]; the states of
    iteration [i] under [nlp_iterations_name] followed by the decimal
    digits of [i], for [i = 0, 1, ...]; one message with the number of
    iterations (the solver's count, [0] when that is negative) at [1e-6];
    the states of the final extraction under [robot_state_desired].  The
    final extraction is made from the variables that the last iteration
    left. *)
Theorem SaveOptimizationAsRosbag_with_iterations {Store : Type}
  (ToXpp : StateLinXd -> StateLinXd)
  (ToXppEndeffector : nat -> nat -> nat * string)
  (GetQuaternionBaseToWorld :
     @SplineHolder.NodeSpline Store -> R -> Cmd Store Quaterniond)
  (GetAngularVelocityInWorld GetAngularAccelerationInWorld :
     @SplineHolder.NodeSpline Store -> R -> Cmd Store Vector3d)
  (TowrCommandMsg : Type)
  (robot_parameters_topic user_command_topic nlp_iterations_name
     nlp_iterations_count robot_state_desired terrain_info : string)
  (default_friction_coeff : R) (fuel : nat) (this : @TowrRos.t Store)
  (robot_params : RobotParameters) (user_command_msg : TowrCommandMsg)
  (terrain : Terrain) (s s1 s2 : Store)
  (trajectories : list RobotStateVec) (final_trajectory : RobotStateVec) :
  TowrRos.terrain_ this = Some terrain ->
  TowrRos.GetIntermediateSolutions ToXpp ToXppEndeffector
    GetQuaternionBaseToWorld GetAngularVelocityInWorld
    GetAngularAccelerationInWorld fuel this s = (Returned trajectories, s1) ->
  TowrRos.GetTrajectory ToXpp ToXppEndeffector GetQuaternionBaseToWorld
    GetAngularVelocityInWorld GetAngularAccelerationInWorld fuel this s1
  = (Returned final_trajectory, s2) ->
  let t0 := 1 / 1000000 in
  let entries (topic : string) (traj : RobotStateVec) :=
    flat_map
      (fun state =>
         [mkBagEntry topic (t_global_ state + 1 / 1000000)
                     (Msg_RobotStateCartesian state);
          mkBagEntry terrain_info (t_global_ state + 1 / 1000000)
            (Msg_TerrainInfo
               (mkTerrainInfo
                  (map (fun ee => GetNormalizedBasis_Normal terrain
                                    (vx (p_ ee)) (vy (p_ ee)))
                       (ee_motion_ state))
                  (match ee_motion_ state with
                   | [] => default_friction_coeff
                   | _ :: _ => GetFrictionCoeff terrain
                   end)))])
      traj in
  TowrRos.SaveOptimizationAsRosbag ToXpp ToXppEndeffector
    GetQuaternionBaseToWorld GetAngularVelocityInWorld
    GetAngularAccelerationInWorld TowrCommandMsg robot_parameters_topic
    user_command_topic nlp_iterations_name nlp_iterations_count
    robot_state_desired terrain_info default_friction_coeff fuel this
    robot_params user_command_msg true s
  = (Some
       ([mkBagEntry robot_parameters_topic t0
                    (Msg_RobotParameters robot_params);
         mkBagEntry (user_command_topic ++ "_saved")%string t0
                    (Msg_TowrCommand user_command_msg)]
        ++ concat
             (map (fun it =>
                     entries (nlp_iterations_name ++ to_string (fst it))%string
                             (snd it))
                  (combine (seq 0 (length trajectories)) trajectories))
        ++ [mkBagEntry nlp_iterations_count t0
              (Msg_Int32
                 (Z.max 0 (TowrRos.GetIterationCount (TowrRos.towr_ this))))]
        ++ entries robot_state_desired final_trajectory),
     s2).
Proof.
  intros Ht Ei Eg t0 entries.
  rewrite (SaveOptimizationAsRosbag_iterations ToXpp ToXppEndeffector
             GetQuaternionBaseToWorld GetAngularVelocityInWorld
             GetAngularAccelerationInWorld TowrCommandMsg
             robot_parameters_topic user_command_topic nlp_iterations_name
             nlp_iterations_count robot_state_desired terrain_info
             default_friction_coeff fuel this robot_params user_command_msg
             s s1 trajectories Ei).
  rewrite (save_iterations_entries TowrCommandMsg terrain_info
             default_friction_coeff this nlp_iterations_name terrain
             trajectories _ Ht).
  cbn [option_bind]. rewrite Eg. cbn [fst snd].
  rewrite (SaveTrajectoryInRosbag_entries TowrCommandMsg terrain_info
             default_friction_coeff this terrain robot_state_desired Ht).
  assert (Hlen : Z.of_nat (length trajectories)
                 = Z.max 0 (TowrRos.GetIterationCount (TowrRos.towr_ this))).
  { apply ros_for_each_replay in Ei. destruct Ei as (new & Hn & Hr).
    cbn [app] in Hn. subst new.
    rewrite (ros_replay_length _ _ _ _ _ _ _ _ _ _ _ Hr), iterations_length.
    lia. }
  rewrite Hlen. subst t0 entries. cbv beta.
  rewrite <- !app_assoc. reflexivity.
Qed.

Lemma SaveOptimizationAsRosbag_with_iterations_witness :
  exists bag s2,
    TowrRos.SaveOptimizationAsRosbag Scenario.ToXpp0
      Scenario.ToXppEndeffector0 Scenario.quaternion0 Scenario.angular0
      Scenario.angular0 unit "parameters" "command" "iteration" "count"
      "state" "terrain" 0 52 Scenario.ros0
      (mkRobotParameters Vector3d_Zero [] [] 1) tt true 7 = (Some bag, s2) /\
    In (mkBagEntry "count" (1 / 1000000) (Msg_Int32 2)) bag.
Proof.
  destruct (TowrRos_GetIntermediateSolutions_returns Scenario.ToXpp0
              Scenario.ToXppEndeffector0 Scenario.quaternion0
              Scenario.angular0 Scenario.angular0 Scenario.ros0 52 7
              Scenario_well_formed ltac:(simpl; lra)
              ltac:(intros s0; simpl; rewrite sample_count_fiftieth; lia)
              (iterations 2) []) as (trajs & s1 & Ei).
  destruct (TowrRos_GetTrajectory_walks_time Scenario.ToXpp0
              Scenario.ToXppEndeffector0 Scenario.quaternion0
              Scenario.angular0 Scenario.angular0 Scenario.ros0 52 s1
              Scenario_well_formed ltac:(simpl; lra)
              ltac:(simpl; rewrite sample_count_fiftieth; lia))
    as (final & Eg & _).
  destruct (TowrRos.GetTrajectory Scenario.ToXpp0 Scenario.ToXppEndeffector0
              Scenario.quaternion0 Scenario.angular0 Scenario.angular0 52
              Scenario.ros0 s1) as [r s2] eqn:Eg'.
  cbn [fst] in Eg. subst r.
  eexists. exists s2. split.
  - apply (SaveOptimizationAsRosbag_with_iterations Scenario.ToXpp0
             Scenario.ToXppEndeffector0 Scenario.quaternion0
             Scenario.angular0 Scenario.angular0 unit "parameters" "command"
             "iteration" "count" "state" "terrain" 0 52 Scenario.ros0
             (mkRobotParameters Vector3d_Zero [] [] 1) tt Scenario.terrain0
             7 s1 s2 trajs final eq_refl Ei Eg').
  - apply in_or_app. right. apply in_or_app. right.
    apply in_or_app. left. left. reflexivity.
Defined.
